(** * PhishBlock: the stake-backed consensus and reputation engine

    A shallow embedding of the Solidity contracts of the repository

    - [contracts/ReputationSystem.sol]: [ReputationSystem] (token staking,
      reputation profiles, reward pool), [PhishBlockRegistry] (reports
      gated by reputation) and [StakeBasedReportRegistry] (reports backed
      by an ether stake and settled by a quorum of validators);
    - [contracts/EvidenceValidator.sol]: [EvidenceValidator] (a quorum
      over evidence items, with reputation only).

    A contract is a record of its storage; an external function is a
    function from the storage to [option] storage, [None] being a revert:
    the EVM rolls the whole transaction back, so a call that reverts
    leaves the storage as it was.  A [uint256] is an [N], and the checked
    arithmetic of Solidity 0.8 is written out: an overflow, an underflow
    or a division by zero reverts.  A [mapping] is a [gmap] read with the
    zero value of its type at the keys that were never written.  The
    caller, the value sent and the time of the block are arguments.

    Left out: the events, which change no storage; the reentrancy guard,
    the payees being accounts without code; and the transfer of the
    ownership that the contracts inherit from OpenZeppelin, which changes
    the owner and nothing else. *)

From Stdlib Require Import ZArith NArith Lia String.
From stdpp Require Import base option strings gmap list.

Open Scope N_scope.

(** ** EVM data and checked arithmetic *)

Module EVM.

Definition address := N.
Definition uint256 := N.

Definition MAX_UINT256 : N := 2 ^ 256 - 1.
Definition MAX_INT256 : Z := (2 ^ 255 - 1)%Z.
Definition MIN_INT256 : Z := (- 2 ^ 255)%Z.

Definition ether : N := 10 ^ 18.
Definition hours : N := 3600.
Definition days : N := 86400.

(** [require(cond)]: go on when the condition holds, revert otherwise. *)
Definition require (cond : bool) : option unit :=
  if cond then Some tt else None.

(** Checked [+], [-], [*] and [/] on [uint256]. *)
Definition add (a b : N) : option N :=
  if a + b <=? MAX_UINT256 then Some (a + b) else None.

Definition sub (a b : N) : option N :=
  if b <=? a then Some (a - b) else None.

Definition mul (a b : N) : option N :=
  if a * b <=? MAX_UINT256 then Some (a * b) else None.

Definition div (a b : N) : option N :=
  if b =? 0 then None else Some (a / b).

(** [bytes(s).length > 0] *)
Definition nonempty (s : string) : bool :=
  match s with EmptyString => false | String _ _ => true end.

(** The zero value a storage slot reads before it is written. *)
Class Zero (V : Type) := zero : V.
Global Instance zero_N : Zero N := 0.
Global Instance zero_bool : Zero bool := false.
Global Instance zero_string : Zero string := EmptyString.
Global Instance zero_list {A} : Zero (list A) := [].

(** [m[k]] for a [mapping(K => V)]. *)
Definition rd `{Countable K} {V} `{Zero V} (m : gmap K V) (k : K) : V :=
  default zero (m !! k).

(** A [for] loop over an array whose body may revert: the storage is
    threaded through the iterations in order. *)
Fixpoint forEach {A S} (body : A → S → option S) (l : list A) (st : S)
  : option S :=
  match l with
  | [] => Some st
  | x :: rest => st' ← body x st; forEach body rest st'
  end.

(** The sum of [f] over the entries of a mapping, and the sum of the
    values of a mapping of numbers (of all balances, say). *)
Definition sum_with `{Countable K} {V} (f : V → N) (m : gmap K V) : N :=
  map_fold (λ _ v acc, f v + acc) 0 m.

Definition sum_map `{Countable K} (m : gmap K N) : N := sum_with id m.

(** [msg.sender] and [msg.value] of a call to a payable function. *)
Record Msg := mkMsg { sender : address; value : N }.

End EVM.

Import EVM.

(** ** StakeBasedReportRegistry

    Reports are backed by an ether stake and settled by the first
    [MIN_VALIDATORS] validators that vote.  The contract's own ether
    balance is [balance]; [accounts] holds the ether of every other
    address, so that a payment is a move between the two.  Validators and
    reporters are externally owned accounts: a [transfer] to them runs no
    code.  The two [Counters.Counter] of OpenZeppelin are plain numbers. *)

Module StakeBasedReportRegistry.

Definition REPORT_STAKE : N := 10 ^ 16.      (* 0.01 ether *)
Definition VOTING_STAKE : N := 5 * 10 ^ 15.  (* 0.005 ether *)
Definition VALIDATOR_REWARD : N := 10 ^ 15.  (* 0.001 ether *)
Definition REPORTER_REWARD : N := 5 * 10 ^ 15. (* 0.005 ether *)
Definition MIN_VALIDATORS : N := 3.
Definition MAX_VALIDATORS : N := 5.
Definition VOTING_PERIOD : N := 7 * days.

Inductive ReportStatus := Pending | Validated | Rejected | Expired.
(** [VoteType.None] is spelled [NoVote]. *)
Inductive VoteType := NoVote | Valid | Invalid.

Global Instance ReportStatus_eq_dec : EqDecision ReportStatus.
Proof. solve_decision. Defined.
Global Instance VoteType_eq_dec : EqDecision VoteType.
Proof. solve_decision. Defined.
Global Instance zero_ReportStatus : Zero ReportStatus := Pending.
Global Instance zero_VoteType : Zero VoteType := NoVote.

Record Report := mkReport {
  id : N;
  reportType : string;
  targetValue : string;
  description : string;
  reportHash : string;
  reporter : address;
  stakeAmount : N;
  timestamp : N;
  votingDeadline : N;
  status : ReportStatus;
  validVotes : N;
  invalidVotes : N;
  votes : gmap address VoteType;
  validatorStakes : gmap address N;
  validators : list address
}.

Record Validator := mkValidator {
  validatorId : N;
  validatorAddress : address;
  reputation : N;
  totalValidations : N;
  correctValidations : N;
  isActive : bool;
  registrationTime : N
}.

Global Instance zero_Report : Zero Report :=
  mkReport 0 zero zero zero zero 0 0 0 0 Pending 0 0 ∅ ∅ [].
Global Instance zero_Validator : Zero Validator :=
  mkValidator 0 0 0 0 0 false 0.

(** The storage.  [validatorOf] is the source's mapping [validators]
    (the name is taken by the array of a [Report]). *)
Record State := mkState {
  _reportIds : N;
  _validatorIds : N;
  reports : gmap N Report;
  validatorOf : gmap address Validator;
  userReports : gmap address (list N);
  validatorReports : gmap address (list N);
  owner : address;
  balance : N;
  accounts : gmap address N
}.

(** The storage after the constructor, for a deployer and the ether the
    accounts hold. *)
Definition init (deployer : address) (funds : gmap address N) : State :=
  mkState 0 0 ∅ ∅ ∅ ∅ deployer 0 funds.

Definition set_reports (f : gmap N Report → gmap N Report) (st : State) :=
  mkState (_reportIds st) (_validatorIds st) (f (reports st))
    (validatorOf st) (userReports st) (validatorReports st) (owner st)
    (balance st) (accounts st).

Definition set_validatorOf
    (f : gmap address Validator → gmap address Validator) (st : State) :=
  mkState (_reportIds st) (_validatorIds st) (reports st)
    (f (validatorOf st)) (userReports st) (validatorReports st) (owner st)
    (balance st) (accounts st).

Definition set_status (s : ReportStatus) (r : Report) : Report :=
  mkReport (id r) (reportType r) (targetValue r) (description r)
    (reportHash r) (reporter r) (stakeAmount r) (timestamp r)
    (votingDeadline r) s (validVotes r) (invalidVotes r) (votes r)
    (validatorStakes r) (validators r).

(** The ether of [msg.value] moves from the caller to the contract before
    the body of a payable function runs. *)
Definition pay_in (m : Msg) (st : State) : option State :=
  require (value m <=? rd (accounts st) (sender m));;
  Some (mkState (_reportIds st) (_validatorIds st) (reports st)
          (validatorOf st) (userReports st) (validatorReports st)
          (owner st) (balance st + value m)
          (<[sender m := rd (accounts st) (sender m) - value m]>
             (accounts st))).

(** [payable(to).transfer(amount)]: reverts when the contract holds less
    than [amount]. *)
Definition transfer (to : address) (amount : N) (st : State)
  : option State :=
  require (amount <=? balance st);;
  Some (mkState (_reportIds st) (_validatorIds st) (reports st)
          (validatorOf st) (userReports st) (validatorReports st)
          (owner st) (balance st - amount)
          (<[to := rd (accounts st) to + amount]> (accounts st))).

Definition registerValidator (caller : address) (now : N) (st : State)
  : option State :=
  require (negb (isActive (rd (validatorOf st) caller)));;
  let validatorId := _validatorIds st + 1 in
  Some (mkState (_reportIds st) validatorId (reports st)
          (<[caller := mkValidator validatorId caller 100 0 0 true now]>
             (validatorOf st))
          (userReports st) (validatorReports st) (owner st) (balance st)
          (accounts st)).

Definition submitReportWithStake (m : Msg) (now : N)
    (reportType targetValue description reportHash : string) (st : State)
  : option State :=
  st ← pay_in m st;
  require (value m =? REPORT_STAKE);;
  require (nonempty reportType);;
  require (nonempty targetValue);;
  require (nonempty description);;
  let reportId := _reportIds st + 1 in
  let slot := rd (reports st) reportId in
  deadline ← add now VOTING_PERIOD;
  let newReport :=
    mkReport reportId reportType targetValue description reportHash
      (sender m) (value m) now deadline Pending 0 0
      (votes slot) (validatorStakes slot) (validators slot) in
  Some (mkState reportId (_validatorIds st)
          (<[reportId := newReport]> (reports st)) (validatorOf st)
          (<[sender m := rd (userReports st) (sender m) ++ [reportId]]>
             (userReports st))
          (validatorReports st) (owner st) (balance st) (accounts st)).

(** What [_distributeValidatorRewards] sends to one validator. *)
Definition rewardValidator (report : Report) (validator : address)
    (st : State) : option State :=
  if bool_decide (rd (votes report) validator = Valid) then
    totalReward ← add (rd (validatorStakes report) validator)
                      VALIDATOR_REWARD;
    transfer validator totalReward st
  else
    transfer validator (rd (validatorStakes report) validator) st.

Definition _distributeValidatorRewards (reportId : N) (st : State)
  : option State :=
  let report := rd (reports st) reportId in
  forEach (rewardValidator report) (validators report) st.

(** The first loop of [_redistributeStake]: the validators that voted
    [Invalid]. *)
Definition correctValidators (report : Report) : N :=
  N.of_nat (length (filter (λ v, rd (votes report) v = Invalid)
                           (validators report))).

Definition redistributeTo (report : Report) (stakePerValidator : N)
    (validator : address) (st : State) : option State :=
  if bool_decide (rd (votes report) validator = Invalid) then
    totalReward ← add (rd (validatorStakes report) validator)
                      stakePerValidator;
    transfer validator totalReward st
  else
    transfer validator (rd (validatorStakes report) validator) st.

Definition _redistributeStake (reportId : N) (st : State) : option State :=
  let report := rd (reports st) reportId in
  if 0 <? correctValidators report then
    let stakePerValidator := stakeAmount report / correctValidators report in
    forEach (redistributeTo report stakePerValidator) (validators report) st
  else Some st.

(** One iteration of [_updateValidatorReputation]. *)
Definition updateOne (reportId : N) (validator : address) (st : State)
  : option State :=
  let report := rd (reports st) reportId in
  let val := rd (validatorOf st) validator in
  total ← add (totalValidations val) 1;
  let voteCorrect :=
    bool_decide (status report = Validated
                 ∧ rd (votes report) validator = Valid)
    || bool_decide (status report = Rejected
                    ∧ rd (votes report) validator = Invalid) in
  val' ← (if voteCorrect then
            correct ← add (correctValidations val) 1;
            rep ← add (reputation val) 1;
            Some (mkValidator (validatorId val) (validatorAddress val) rep
                    total correct (isActive val) (registrationTime val))
          else
            let rep := if 1 <? reputation val
                       then reputation val - 1 else 1 in
            Some (mkValidator (validatorId val) (validatorAddress val) rep
                    total (correctValidations val) (isActive val)
                    (registrationTime val)));
  Some (set_validatorOf (λ vs, <[validator := val']> vs) st).

Definition _updateValidatorReputation (reportId : N) (st : State)
  : option State :=
  forEach (updateOne reportId) (validators (rd (reports st) reportId)) st.

Definition _finalizeReport (reportId : N) (st : State) : option State :=
  let report := rd (reports st) reportId in
  require (MIN_VALIDATORS <=? N.of_nat (length (validators report)));;
  let isValid := invalidVotes report <? validVotes report in
  st ← (if isValid then
          let st :=
            set_reports (λ rs, <[reportId := set_status Validated report]> rs)
                        st in
          totalReward ← add (stakeAmount report) REPORTER_REWARD;
          st ← transfer (reporter report) totalReward st;
          _distributeValidatorRewards reportId st
        else
          let st :=
            set_reports (λ rs, <[reportId := set_status Rejected report]> rs)
                        st in
          _redistributeStake reportId st);
  _updateValidatorReputation reportId st.

Definition voteOnReport (m : Msg) (now : N) (reportId : N) (isValid : bool)
    (st : State) : option State :=
  st ← pay_in m st;
  (* onlyActiveValidator, reportExists, votingOpen *)
  require (isActive (rd (validatorOf st) (sender m)));;
  require (reportId <=? _reportIds st);;
  require (now <=? votingDeadline (rd (reports st) reportId));;
  require (bool_decide (status (rd (reports st) reportId) = Pending));;
  require (value m =? VOTING_STAKE);;
  require (bool_decide
             (rd (votes (rd (reports st) reportId)) (sender m) = NoVote));;
  let report := rd (reports st) reportId in
  let validatorExists :=
    existsb (λ v, v =? sender m) (validators report) in
  let validators' :=
    if validatorExists then validators report
    else validators report ++ [sender m] in
  validVotes' ← (if isValid then add (validVotes report) 1
                 else Some (validVotes report));
  invalidVotes' ← (if isValid then Some (invalidVotes report)
                   else add (invalidVotes report) 1);
  let report' :=
    mkReport (id report) (reportType report) (targetValue report)
      (description report) (reportHash report) (reporter report)
      (stakeAmount report) (timestamp report) (votingDeadline report)
      (status report) validVotes' invalidVotes'
      (<[sender m := if isValid then Valid else Invalid]> (votes report))
      (<[sender m := value m]> (validatorStakes report))
      validators' in
  let st :=
    mkState (_reportIds st) (_validatorIds st)
      (<[reportId := report']> (reports st)) (validatorOf st)
      (userReports st)
      (<[sender m := rd (validatorReports st) (sender m) ++ [reportId]]>
         (validatorReports st))
      (owner st) (balance st) (accounts st) in
  if MIN_VALIDATORS <=? N.of_nat (length validators') then
    _finalizeReport reportId st
  else Some st.

(** The view [getReport]: the stored report, as it is. *)
Definition getReport (reportId : N) (st : State) : option Report :=
  require (reportId <=? _reportIds st);;
  Some (rd (reports st) reportId).

Definition emergencyWithdraw (caller : address) (st : State)
  : option State :=
  require (caller =? owner st);;
  transfer (owner st) (balance st) st.

(** [receive() external payable {}]: a plain deposit of ether. *)
Definition receive (m : Msg) (st : State) : option State := pay_in m st.

(** One transaction from the outside: an external function and its
    arguments. *)
Inductive Call :=
| RegisterValidator (caller : address) (now : N)
| SubmitReportWithStake (m : Msg) (now : N)
    (reportType targetValue description reportHash : string)
| VoteOnReport (m : Msg) (now : N) (reportId : N) (isValid : bool)
| EmergencyWithdraw (caller : address)
| Receive (m : Msg).

Definition exec (c : Call) (st : State) : option State :=
  match c with
  | RegisterValidator caller now => registerValidator caller now st
  | SubmitReportWithStake m now ty target desc h =>
      submitReportWithStake m now ty target desc h st
  | VoteOnReport m now reportId isValid =>
      voteOnReport m now reportId isValid st
  | EmergencyWithdraw caller => emergencyWithdraw caller st
  | Receive m => receive m st
  end.

(** A transaction that reverts leaves no trace, so the steps of the
    contract are its successful calls. *)
Definition step (st st' : State) : Prop := ∃ c, exec c st = Some st'.

Definition reachable (st : State) : Prop :=
  ∃ deployer funds, rtc step (init deployer funds) st.

(** A sequence of transactions, all of which succeed. *)
Definition run (calls : list Call) (st : State) : option State :=
  forEach exec calls st.

(** *** The quantities and invariants of the registry *)

(** All the ether there is: what the accounts hold and what the contract
    holds. *)
Definition totalEther (st : State) : N := sum_map (accounts st) + balance st.

Definition spendableBalance (st : State) : N := sum_map (accounts st).

(** The stakes a report keeps locked while it is pending: the stake of
    the reporter and the voting stakes of its validators. *)
Definition lockedIn (r : Report) : N :=
  if bool_decide (status r = Pending) then
    stakeAmount r
    + foldr N.add 0 (map (λ v, rd (validatorStakes r) v) (validators r))
  else 0.

Definition lockedBalance (st : State) : N := sum_with lockedIn (reports st).

(** The registry declares no reward pool: what it can pay rewards from is
    the ether it holds beyond the stakes that are locked. *)
Definition rewardPoolBalance (st : State) : N := balance st - lockedBalance st.

Definition totalValue (st : State) : N :=
  spendableBalance st + lockedBalance st + rewardPoolBalance st.

(** What a call leaves alone when it only moves ether. *)
Definition sameRecords (st st' : State) : Prop :=
  _reportIds st' = _reportIds st
  ∧ _validatorIds st' = _validatorIds st
  ∧ reports st' = reports st
  ∧ validatorOf st' = validatorOf st
  ∧ userReports st' = userReports st
  ∧ validatorReports st' = validatorReports st
  ∧ owner st' = owner st.

(** The number of validators of a report whose vote is [vote]. *)
Definition countVotes (vote : VoteType) (r : Report) : N :=
  N.of_nat (length (filter (λ v, rd (votes r) v = vote) (validators r))).

(** The tallies of a report agree with the votes of its validators, each
    of whom is listed once and has staked [VOTING_STAKE]. *)
Definition tallied (r : Report) : Prop :=
  NoDup (validators r)
  ∧ (∀ v, v ∈ validators r ↔ rd (votes r) v ≠ NoVote)
  ∧ (∀ v, v ∈ validators r → rd (validatorStakes r) v = VOTING_STAKE)
  ∧ validVotes r = countVotes Valid r
  ∧ invalidVotes r = countVotes Invalid r.

(** A report never has more than [MIN_VALIDATORS] validators, and one
    that has them all is no longer pending. *)
Definition quorumBounded (r : Report) : Prop :=
  N.of_nat (length (validators r)) ≤ MIN_VALIDATORS
  ∧ (status r = Pending →
     N.of_nat (length (validators r)) < MIN_VALIDATORS).

(** The report once the vote of a validator that is not listed yet is
    recorded: what [voteOnReport] stores before it looks at the quorum. *)
Definition recordVote (m : Msg) (isValid : bool) (r : Report) : Report :=
  mkReport (id r) (reportType r) (targetValue r) (description r)
    (reportHash r) (reporter r) (stakeAmount r) (timestamp r)
    (votingDeadline r) (status r)
    (if isValid then validVotes r + 1 else validVotes r)
    (if isValid then invalidVotes r else invalidVotes r + 1)
    (<[sender m := if isValid then Valid else Invalid]> (votes r))
    (<[sender m := value m]> (validatorStakes r))
    (validators r ++ [sender m]).

Definition invariant (st : State) : Prop :=
  (∀ reportId, _reportIds st < reportId → reports st !! reportId = None)
  ∧ ∀ reportId,
      tallied (rd (reports st) reportId)
      ∧ quorumBounded (rd (reports st) reportId).

End StakeBasedReportRegistry.

(** ** ReputationSystem

    Token staking with a lock period, reputation profiles and a reward
    pool.  The staking token is an ERC-20 outside the contract: it is
    modelled by the balance [token] of every account and the balance
    [held] of the contract, a [safeTransfer] that the payer cannot cover
    reverting (the caller is taken to have approved the contract). *)

Module ReputationSystem.

Inductive StakeType := Report | Vote | Validator.
Inductive ReputationTier := Bronze | Silver | Gold | Platinum | Diamond.

Global Instance StakeType_eq_dec : EqDecision StakeType.
Proof. solve_decision. Defined.
Global Instance ReputationTier_eq_dec : EqDecision ReputationTier.
Proof. solve_decision. Defined.

Record Stake := mkStake {
  amount : N;
  timestamp : N;
  lockPeriod : N;
  stakeType : StakeType;
  active : bool;
  reputationMultiplier : N
}.

Record ReputationProfile := mkProfile {
  baseReputation : N;
  stakedReputation : N;
  totalReputation : N;
  tier : ReputationTier;
  lastUpdate : N;
  reportsSubmitted : N;
  votesCast : N;
  correctVotes : N;
  falseReports : N;
  slashingCount : N
}.

Record RewardPool := mkRewardPool {
  totalRewards : N;
  distributedRewards : N;
  lastDistribution : N;
  distributionInterval : N;
  poolTierMultipliers : ReputationTier → N
}.

Global Instance zero_Stake : Zero Stake := mkStake 0 0 0 Report false 0.
Global Instance zero_Profile : Zero ReputationProfile :=
  mkProfile 0 0 0 Bronze 0 0 0 0 0 0.

Definition MIN_STAKE_AMOUNT : N := 100 * 10 ^ 18.
Definition MAX_STAKE_PERIOD : N := 365 * days.
Definition MIN_STAKE_PERIOD : N := 7 * days.
Definition REPUTATION_DECAY_RATE : N := 1.
Definition SLASHING_PENALTY : N := 10.
Definition REWARD_CLAIM_COOLDOWN : N := 1 * days.
Definition MAX_STAKES_PER_USER : N := 10.

Record State := mkState {
  token : gmap address N;
  held : N;
  _stakeCounter : N;
  reputationProfiles : gmap address ReputationProfile;
  userStakes : gmap (address * N) Stake;
  userStakeCount : gmap address N;
  tierThresholds : ReputationTier → N;
  tierMultipliers : ReputationTier → N;
  stakeTypeMultipliers : StakeType → N;
  pendingRewards : gmap address N;
  lastRewardClaim : gmap address N;
  rewardPool : RewardPool;
  paused : bool;
  owner : address;
  this : address
}.

Definition defaultThresholds (t : ReputationTier) : N :=
  match t with
  | Bronze => 0 | Silver => 50 | Gold => 100
  | Platinum => 250 | Diamond => 500
  end.

Definition defaultTierMultipliers (t : ReputationTier) : N :=
  match t with
  | Bronze => 100 | Silver => 120 | Gold => 150
  | Platinum => 200 | Diamond => 300
  end.

Definition defaultStakeTypeMultipliers (t : StakeType) : N :=
  match t with Report => 150 | Vote => 120 | Validator => 200 end.

(** The storage after the constructor. *)
Definition init (deployer self : address) (funds : gmap address N) : State :=
  mkState funds 0 0 ∅ ∅ ∅ defaultThresholds defaultTierMultipliers
    defaultStakeTypeMultipliers ∅ ∅
    (mkRewardPool 0 0 0 (7 * days) defaultTierMultipliers)
    false deployer self.

Definition set_profile (user : address) (p : ReputationProfile)
    (st : State) : State :=
  mkState (token st) (held st) (_stakeCounter st)
    (<[user := p]> (reputationProfiles st)) (userStakes st)
    (userStakeCount st) (tierThresholds st) (tierMultipliers st)
    (stakeTypeMultipliers st) (pendingRewards st) (lastRewardClaim st)
    (rewardPool st) (paused st) (owner st) (this st).

Definition set_stake (user : address) (stakeId : N) (s : Stake)
    (st : State) : State :=
  mkState (token st) (held st) (_stakeCounter st) (reputationProfiles st)
    (<[(user, stakeId) := s]> (userStakes st)) (userStakeCount st)
    (tierThresholds st) (tierMultipliers st) (stakeTypeMultipliers st)
    (pendingRewards st) (lastRewardClaim st) (rewardPool st) (paused st)
    (owner st) (this st).

Definition set_stakeCount (user : address) (n : N) (st : State) : State :=
  mkState (token st) (held st) (_stakeCounter st) (reputationProfiles st)
    (userStakes st) (<[user := n]> (userStakeCount st))
    (tierThresholds st) (tierMultipliers st) (stakeTypeMultipliers st)
    (pendingRewards st) (lastRewardClaim st) (rewardPool st) (paused st)
    (owner st) (this st).

Definition set_totalRewards (n : N) (st : State) : State :=
  mkState (token st) (held st) (_stakeCounter st) (reputationProfiles st)
    (userStakes st) (userStakeCount st) (tierThresholds st)
    (tierMultipliers st) (stakeTypeMultipliers st) (pendingRewards st)
    (lastRewardClaim st)
    (mkRewardPool n (distributedRewards (rewardPool st))
       (lastDistribution (rewardPool st))
       (distributionInterval (rewardPool st))
       (poolTierMultipliers (rewardPool st)))
    (paused st) (owner st) (this st).

Definition set_paused (b : bool) (st : State) : State :=
  mkState (token st) (held st) (_stakeCounter st) (reputationProfiles st)
    (userStakes st) (userStakeCount st) (tierThresholds st)
    (tierMultipliers st) (stakeTypeMultipliers st) (pendingRewards st)
    (lastRewardClaim st) (rewardPool st) b (owner st) (this st).

(** [stakingToken.safeTransferFrom(from, address(this), amount)] *)
Definition safeTransferFrom (from : address) (amount : N) (st : State)
  : option State :=
  require (amount <=? rd (token st) from);;
  Some (mkState (<[from := rd (token st) from - amount]> (token st))
          (held st + amount) (_stakeCounter st) (reputationProfiles st)
          (userStakes st) (userStakeCount st) (tierThresholds st)
          (tierMultipliers st) (stakeTypeMultipliers st)
          (pendingRewards st) (lastRewardClaim st) (rewardPool st)
          (paused st) (owner st) (this st)).

(** [stakingToken.safeTransfer(to, amount)] *)
Definition safeTransfer (to : address) (amount : N) (st : State)
  : option State :=
  require (amount <=? held st);;
  Some (mkState (<[to := rd (token st) to + amount]> (token st))
          (held st - amount) (_stakeCounter st) (reputationProfiles st)
          (userStakes st) (userStakeCount st) (tierThresholds st)
          (tierMultipliers st) (stakeTypeMultipliers st)
          (pendingRewards st) (lastRewardClaim st) (rewardPool st)
          (paused st) (owner st) (this st)).

(** The loop of [_updateStakedReputation]: [for (i; i <= count; i++)],
    with [n] iterations left. *)
Fixpoint stakedLoop (stakes : gmap (address * N) Stake) (user : address)
    (i : N) (n : nat) (totalStaked : N) : option N :=
  match n with
  | O => Some totalStaked
  | S n' =>
      let stake := rd stakes (user, i) in
      totalStaked' ← (if active stake then add totalStaked (amount stake)
                      else Some totalStaked);
      stakedLoop stakes user (i + 1) n' totalStaked'
  end.

Definition _updateStakedReputation (user : address) (st : State)
  : option State :=
  let profile := rd (reputationProfiles st) user in
  totalStaked ← stakedLoop (userStakes st) user 1
                  (N.to_nat (rd (userStakeCount st) user)) 0;
  let staked := totalStaked / 10 ^ 18 in
  total ← add (baseReputation profile) staked;
  Some (set_profile user
          (mkProfile (baseReputation profile) staked total (tier profile)
             (lastUpdate profile) (reportsSubmitted profile)
             (votesCast profile) (correctVotes profile)
             (falseReports profile) (slashingCount profile)) st).

Definition _calculateTier (st : State) (totalReputation : N)
  : ReputationTier :=
  if tierThresholds st Diamond <=? totalReputation then Diamond
  else if tierThresholds st Platinum <=? totalReputation then Platinum
  else if tierThresholds st Gold <=? totalReputation then Gold
  else if tierThresholds st Silver <=? totalReputation then Silver
  else Bronze.

Definition depositStake (caller : address) (now : N)
    (amount lockPeriod : N) (stakeType : StakeType) (st : State)
  : option State :=
  require (negb (paused st));;
  require (10 <=? baseReputation (rd (reputationProfiles st) caller));;
  require (MIN_STAKE_AMOUNT <=? amount);;
  require ((MIN_STAKE_PERIOD <=? lockPeriod)
           && (lockPeriod <=? MAX_STAKE_PERIOD));;
  require (rd (userStakeCount st) caller <? MAX_STAKES_PER_USER);;
  st ← safeTransferFrom caller amount st;
  let stakeId := _stakeCounter st + 1 in
  let reputationMultiplier := stakeTypeMultipliers st stakeType in
  let st :=
    mkState (token st) (held st) stakeId (reputationProfiles st)
      (<[(caller, stakeId) :=
           mkStake amount now lockPeriod stakeType true
             reputationMultiplier]> (userStakes st))
      (userStakeCount st) (tierThresholds st) (tierMultipliers st)
      (stakeTypeMultipliers st) (pendingRewards st) (lastRewardClaim st)
      (rewardPool st) (paused st) (owner st) (this st) in
  count ← add (rd (userStakeCount st) caller) 1;
  _updateStakedReputation caller (set_stakeCount caller count st).

Definition withdrawStake (caller : address) (now : N) (stakeId : N)
    (st : State) : option State :=
  require (negb (paused st));;
  (* onlyStakeOwner, onlyActiveStake *)
  require (0 <? amount (rd (userStakes st) (caller, stakeId)));;
  require (active (rd (userStakes st) (caller, stakeId)));;
  let stake := rd (userStakes st) (caller, stakeId) in
  unlockTime ← add (timestamp stake) (lockPeriod stake);
  '(penalty, withdrawAmount) ←
    (if now <? unlockTime then
       scaled ← mul (amount stake) SLASHING_PENALTY;
       let penalty := scaled / 100 in
       withdrawAmount ← sub (amount stake) penalty;
       Some (penalty, withdrawAmount)
     else Some (0, amount stake));
  let st :=
    set_stake caller stakeId
      (mkStake (amount stake) (timestamp stake) (lockPeriod stake)
         (stakeType stake) false (reputationMultiplier stake)) st in
  count ← sub (rd (userStakeCount st) caller) 1;
  st ← _updateStakedReputation caller (set_stakeCount caller count st);
  st ← safeTransfer caller withdrawAmount st;
  if 0 <? penalty then
    total ← add (totalRewards (rewardPool st)) penalty;
    Some (set_totalRewards total st)
  else Some st.

(** [change] is an [int256]: the call data of a number outside the type
    does not decode. *)
Definition updateReputation (caller : address) (now : N) (user : address)
    (change : Z) (isCorrectVote : bool) (st : State) : option State :=
  require ((MIN_INT256 <=? change)%Z && (change <=? MAX_INT256)%Z);;
  require ((caller =? owner st) || (caller =? this st));;
  let profile := rd (reputationProfiles st) user in
  let profile :=
    if baseReputation profile =? 0 then
      (* Initialize new user *)
      mkProfile 10 (stakedReputation profile) (totalReputation profile)
        Bronze now (reportsSubmitted profile) (votesCast profile)
        (correctVotes profile) (falseReports profile)
        (slashingCount profile)
    else profile in
  profile ←
    (if (0 <? change)%Z then
       base ← add (baseReputation profile) (Z.to_N change);
       correct ← (if isCorrectVote then add (correctVotes profile) 1
                  else Some (correctVotes profile));
       Some (mkProfile base (stakedReputation profile)
               (totalReputation profile) (tier profile)
               (lastUpdate profile) (reportsSubmitted profile)
               (votesCast profile) correct (falseReports profile)
               (slashingCount profile))
     else
       (* [-change] overflows on the least [int256] *)
       require (negb (change =? MIN_INT256)%Z);;
       let decrease := Z.to_N (- change) in
       let base := if decrease <=? baseReputation profile
                   then baseReputation profile - decrease else 0 in
       false' ← (if isCorrectVote then Some (falseReports profile)
                 else add (falseReports profile) 1);
       Some (mkProfile base (stakedReputation profile)
               (totalReputation profile) (tier profile)
               (lastUpdate profile) (reportsSubmitted profile)
               (votesCast profile) (correctVotes profile) false'
               (slashingCount profile)));
  st ← _updateStakedReputation user (set_profile user profile st);
  let profile := rd (reputationProfiles st) user in
  Some (set_profile user
          (mkProfile (baseReputation profile) (stakedReputation profile)
             (totalReputation profile)
             (_calculateTier st (totalReputation profile))
             (lastUpdate profile) (reportsSubmitted profile)
             (votesCast profile) (correctVotes profile)
             (falseReports profile) (slashingCount profile)) st).

Definition slashUser (caller : address) (user : address) (stakeId : N)
    (reason : string) (st : State) : option State :=
  require (caller =? owner st);;
  require (0 <? amount (rd (userStakes st) (user, stakeId)));;
  require (active (rd (userStakes st) (user, stakeId)));;
  let stake := rd (userStakes st) (user, stakeId) in
  scaled ← mul (amount stake) SLASHING_PENALTY;
  let slashAmount := scaled / 100 in
  remaining ← sub (amount stake) slashAmount;
  let st :=
    set_stake user stakeId
      (mkStake remaining (timestamp stake) (lockPeriod stake)
         (stakeType stake) (active stake) (reputationMultiplier stake))
      st in
  let profile := rd (reputationProfiles st) user in
  slashes ← add (slashingCount profile) 1;
  let st :=
    set_profile user
      (mkProfile (baseReputation profile) (stakedReputation profile)
         (totalReputation profile) (tier profile) (lastUpdate profile)
         (reportsSubmitted profile) (votesCast profile)
         (correctVotes profile) (falseReports profile) slashes) st in
  st ← _updateStakedReputation user st;
  total ← add (totalRewards (rewardPool st)) slashAmount;
  Some (set_totalRewards total st).

Definition distributeRewards (caller : address) (now : N) (st : State)
  : option State :=
  require (caller =? owner st);;
  due ← add (lastDistribution (rewardPool st))
            (distributionInterval (rewardPool st));
  require (due <=? now);;
  let totalDistributed := 0 in
  distributed ← add (distributedRewards (rewardPool st)) totalDistributed;
  Some (mkState (token st) (held st) (_stakeCounter st)
          (reputationProfiles st) (userStakes st) (userStakeCount st)
          (tierThresholds st) (tierMultipliers st)
          (stakeTypeMultipliers st) (pendingRewards st)
          (lastRewardClaim st)
          (mkRewardPool (totalRewards (rewardPool st)) distributed now
             (distributionInterval (rewardPool st))
             (poolTierMultipliers (rewardPool st)))
          (paused st) (owner st) (this st)).

Definition claimRewards (caller : address) (now : N) (st : State)
  : option State :=
  require (negb (paused st));;
  due ← add (rd (lastRewardClaim st) caller) REWARD_CLAIM_COOLDOWN;
  require (due <=? now);;
  let rewards := rd (pendingRewards st) caller in
  require (0 <? rewards);;
  let st :=
    mkState (token st) (held st) (_stakeCounter st)
      (reputationProfiles st) (userStakes st) (userStakeCount st)
      (tierThresholds st) (tierMultipliers st) (stakeTypeMultipliers st)
      (<[caller := 0]> (pendingRewards st))
      (<[caller := now]> (lastRewardClaim st))
      (rewardPool st) (paused st) (owner st) (this st) in
  safeTransfer caller rewards st.

Definition pause (caller : address) (st : State) : option State :=
  require (caller =? owner st);;
  require (negb (paused st));;
  Some (set_paused true st).

Definition unpause (caller : address) (st : State) : option State :=
  require (caller =? owner st);;
  require (paused st);;
  Some (set_paused false st).

Definition updateTierThreshold (caller : address) (tier : ReputationTier)
    (threshold : N) (st : State) : option State :=
  require (caller =? owner st);;
  Some (mkState (token st) (held st) (_stakeCounter st)
          (reputationProfiles st) (userStakes st) (userStakeCount st)
          (λ t, if bool_decide (t = tier) then threshold
                else tierThresholds st t)
          (tierMultipliers st) (stakeTypeMultipliers st)
          (pendingRewards st) (lastRewardClaim st) (rewardPool st)
          (paused st) (owner st) (this st)).

Definition updateTierMultiplier (caller : address) (tier : ReputationTier)
    (multiplier : N) (st : State) : option State :=
  require (caller =? owner st);;
  Some (mkState (token st) (held st) (_stakeCounter st)
          (reputationProfiles st) (userStakes st) (userStakeCount st)
          (tierThresholds st)
          (λ t, if bool_decide (t = tier) then multiplier
                else tierMultipliers st t)
          (stakeTypeMultipliers st)
          (pendingRewards st) (lastRewardClaim st) (rewardPool st)
          (paused st) (owner st) (this st)).

Definition updateStakeTypeMultiplier (caller : address)
    (stakeType : StakeType) (multiplier : N) (st : State) : option State :=
  require (caller =? owner st);;
  Some (mkState (token st) (held st) (_stakeCounter st)
          (reputationProfiles st) (userStakes st) (userStakeCount st)
          (tierThresholds st) (tierMultipliers st)
          (λ t, if bool_decide (t = stakeType) then multiplier
                else stakeTypeMultipliers st t)
          (pendingRewards st) (lastRewardClaim st) (rewardPool st)
          (paused st) (owner st) (this st)).

(** One transaction from the outside: an external function and its
    arguments. *)
Inductive Call :=
| DepositStake (caller : address) (now : N) (amount lockPeriod : N)
    (stakeType : StakeType)
| WithdrawStake (caller : address) (now : N) (stakeId : N)
| UpdateReputation (caller : address) (now : N) (user : address)
    (change : Z) (isCorrectVote : bool)
| SlashUser (caller user : address) (stakeId : N) (reason : string)
| DistributeRewards (caller : address) (now : N)
| ClaimRewards (caller : address) (now : N)
| Pause (caller : address)
| Unpause (caller : address)
| UpdateTierThreshold (caller : address) (tier : ReputationTier)
    (threshold : N)
| UpdateTierMultiplier (caller : address) (tier : ReputationTier)
    (multiplier : N)
| UpdateStakeTypeMultiplier (caller : address) (stakeType : StakeType)
    (multiplier : N).

Definition exec (c : Call) (st : State) : option State :=
  match c with
  | DepositStake caller now amount lockPeriod stakeType =>
      depositStake caller now amount lockPeriod stakeType st
  | WithdrawStake caller now stakeId => withdrawStake caller now stakeId st
  | UpdateReputation caller now user change isCorrectVote =>
      updateReputation caller now user change isCorrectVote st
  | SlashUser caller user stakeId reason =>
      slashUser caller user stakeId reason st
  | DistributeRewards caller now => distributeRewards caller now st
  | ClaimRewards caller now => claimRewards caller now st
  | Pause caller => pause caller st
  | Unpause caller => unpause caller st
  | UpdateTierThreshold caller tier threshold =>
      updateTierThreshold caller tier threshold st
  | UpdateTierMultiplier caller tier multiplier =>
      updateTierMultiplier caller tier multiplier st
  | UpdateStakeTypeMultiplier caller stakeType multiplier =>
      updateStakeTypeMultiplier caller stakeType multiplier st
  end.

Definition step (st st' : State) : Prop := ∃ c, exec c st = Some st'.

Definition reachable (st : State) : Prop :=
  ∃ deployer self funds, rtc step (init deployer self funds) st.

Definition run (calls : list Call) (st : State) : option State :=
  forEach exec calls st.

(** The value the ledger accounts for: what the accounts can spend, the
    stakes that are locked, the reward pool, and the rewards waiting to
    be claimed. *)
Definition spendableBalance (st : State) : N := sum_map (token st).

Definition lockedAmount (s : Stake) : N :=
  if active s then amount s else 0.

Definition lockedBalance (st : State) : N :=
  sum_with lockedAmount (userStakes st).

Definition rewardPoolBalance (st : State) : N :=
  totalRewards (rewardPool st) + sum_map (pendingRewards st).

Definition totalValue (st : State) : N :=
  spendableBalance st + lockedBalance st + rewardPoolBalance st.

(** Stake identifiers are handed out in order: the slots above the
    counter are empty. *)
Definition freshStakes (st : State) : Prop :=
  ∀ user stakeId,
    _stakeCounter st < stakeId → userStakes st !! (user, stakeId) = None.

End ReputationSystem.

(** ** PhishBlockRegistry

    The registry of reports gated by reputation instead of a stake.  This
    module holds the submission path; votes, disputes and the status
    changes of the owner follow in [PhishBlockVoting].  A report
    identifier is the [keccak256] of the packed submission, taken as a
    parameter. *)

Module PhishBlockRegistry.

Inductive ReportStatus := Pending | Verified | Disputed | Resolved.
Inductive EvidenceType := URL | Wallet | Screenshot | Document.

Record Report := mkReport {
  reportId : N;
  reporter : address;
  targetUrl : string;
  targetWallet : string;
  description : string;
  ipfsHash : string;
  evidenceType : EvidenceType;
  status : ReportStatus;
  timestamp : N;
  upvotes : N;
  downvotes : N;
  disputeCount : N;
  exists_ : bool
}.

Global Instance zero_Report : Zero Report :=
  mkReport 0 0 zero zero zero zero URL Pending 0 0 0 0 false.

Record State := mkState {
  _reportCounter : N;
  reports : gmap N Report;
  userReputation : gmap address N;
  lastSubmissionTime : gmap address N;
  submissionCount : gmap address N;
  urlBlacklist : gmap string bool;
  walletBlacklist : gmap string bool;
  paused : bool;
  owner : address
}.

Definition MIN_REPUTATION_TO_VOTE : N := 10.
Definition MIN_REPUTATION_TO_REPORT : N := 5.
Definition RATE_LIMIT_WINDOW : N := 1 * hours.
Definition MAX_SUBMISSIONS_PER_WINDOW : N := 5.

(** The storage after the constructor: the owner starts with reputation
    100. *)
Definition init (deployer : address) : State :=
  mkState 0 ∅ (<[deployer := 100]> ∅) ∅ ∅ ∅ ∅ false deployer.

Section Hashing.

(** [keccak256(abi.encodePacked(msg.sender, targetUrl, targetWallet,
    description, ipfsHash, block.timestamp, _reportCounter.current()))] *)
Variable keccak256 :
  address → string → string → string → string → N → N → N.

Definition submitReport (caller : address) (now : N)
    (targetUrl targetWallet description ipfsHash : string)
    (evidenceType : EvidenceType) (st : State) : option State :=
  require (negb (paused st));;
  (* onlyValidReporter *)
  require (MIN_REPUTATION_TO_REPORT <=? rd (userReputation st) caller);;
  (* rateLimited *)
  elapsed ← sub now (rd (lastSubmissionTime st) caller);
  require ((RATE_LIMIT_WINDOW <=? elapsed)
           || (rd (submissionCount st) caller
               <? MAX_SUBMISSIONS_PER_WINDOW));;
  require (nonempty targetUrl || nonempty targetWallet);;
  require (nonempty description);;
  require (nonempty ipfsHash);;
  require (if nonempty targetUrl
           then negb (rd (urlBlacklist st) targetUrl) else true);;
  require (if nonempty targetWallet
           then negb (rd (walletBlacklist st) targetWallet) else true);;
  let counter := _reportCounter st + 1 in
  let reportId :=
    keccak256 caller targetUrl targetWallet description ipfsHash now
      counter in
  count ← (if RATE_LIMIT_WINDOW <=? elapsed then Some 1
           else add (rd (submissionCount st) caller) 1);
  Some (mkState counter
          (<[reportId :=
               mkReport reportId caller targetUrl targetWallet
                 description ipfsHash evidenceType Pending now 0 0 0
                 true]> (reports st))
          (userReputation st)
          (<[caller := now]> (lastSubmissionTime st))
          (<[caller := count]> (submissionCount st))
          (urlBlacklist st) (walletBlacklist st) (paused st) (owner st)).

End Hashing.

Definition emergencyUpdateReputation (caller user : address)
    (newReputation : N) (st : State) : option State :=
  require (caller =? owner st);;
  Some (mkState (_reportCounter st) (reports st)
          (<[user := newReputation]> (userReputation st))
          (lastSubmissionTime st) (submissionCount st) (urlBlacklist st)
          (walletBlacklist st) (paused st) (owner st)).

End PhishBlockRegistry.

(** ** EvidenceValidator

    A quorum of authorised validators over evidence items; no funds.  The
    content analysis, the pattern and domain lists and the removal of a
    validator are annotations of the owner and follow in [EvidenceAdmin]. *)

Module EvidenceValidator.

Inductive EvidenceStatus := Pending | Validated | Rejected | UnderReview.
Inductive EvidenceType := Screenshot | Document | URL | Wallet | Metadata.
Inductive ValidationLevel := Basic | Standard | Advanced | Expert.

Global Instance EvidenceStatus_eq_dec : EqDecision EvidenceStatus.
Proof. solve_decision. Defined.

Record Evidence := mkEvidence {
  evidenceId : N;
  submitter : address;
  ipfsHash : string;
  evidenceType : EvidenceType;
  status : EvidenceStatus;
  validationLevel : ValidationLevel;
  timestamp : N;
  fileSize : N;
  mimeType : string;
  originalUrl : string;
  description : string;
  exists_ : bool;
  validators : gmap address bool;
  validationCount : N;
  positiveValidations : N;
  negativeValidations : N
}.

Record ValidationResult := mkValidationResult {
  validator : address;
  isValid : bool;
  reason : string;
  resultTimestamp : N;
  level : ValidationLevel
}.

Record IPFSMetadata := mkIPFSMetadata {
  ipfs_hash : string;
  ipfs_size : N;
  ipfs_mimeType : string;
  ipfs_encoding : string;
  ipfs_timestamp : N;
  ipfs_verified : bool
}.

Global Instance zero_Evidence : Zero Evidence :=
  mkEvidence 0 0 zero Screenshot Pending Basic 0 0 zero zero zero false
    ∅ 0 0 0.

Record State := mkState {
  _evidenceCounter : N;
  evidence : gmap N Evidence;
  validationResults : gmap N (list ValidationResult);
  ipfsMetadata : gmap N IPFSMetadata;
  validatorReputation : gmap address N;
  authorizedValidators : gmap address bool;
  knownIPFSHashes : gmap string bool;
  allEvidenceIds : list N;
  validatorList : list address;
  paused : bool;
  owner : address
}.

Definition MIN_VALIDATION_REPUTATION : N := 50.
Definition MAX_FILE_SIZE : N := 10 * 1024 * 1024.
Definition MIN_VALIDATIONS_REQUIRED : N := 3.
Definition VALIDATION_TIMEOUT : N := 7 * days.
Definition IPFS_HASH_LENGTH : nat := 46.
Definition REPUTATION_REWARD_VALIDATION : N := 2.
Definition REPUTATION_PENALTY_WRONG_VALIDATION : N := 5.

(** The storage after the constructor: the owner is a validator of
    reputation 100. *)
Definition init (deployer : address) : State :=
  mkState 0 ∅ ∅ ∅ (<[deployer := 100]> ∅) (<[deployer := true]> ∅) ∅
    [] [deployer] false deployer.

Definition set_evidence (evidenceId : N) (ev : Evidence) (st : State)
  : State :=
  mkState (_evidenceCounter st) (<[evidenceId := ev]> (evidence st))
    (validationResults st) (ipfsMetadata st) (validatorReputation st)
    (authorizedValidators st) (knownIPFSHashes st) (allEvidenceIds st)
    (validatorList st) (paused st) (owner st).

Definition set_status (s : EvidenceStatus) (ev : Evidence) : Evidence :=
  mkEvidence (evidenceId ev) (submitter ev) (ipfsHash ev) (evidenceType ev)
    s (validationLevel ev) (timestamp ev) (fileSize ev) (mimeType ev)
    (originalUrl ev) (description ev) (exists_ ev) (validators ev)
    (validationCount ev) (positiveValidations ev) (negativeValidations ev).

Definition set_tally (voted : gmap address bool)
    (count positive negative : N) (ev : Evidence) : Evidence :=
  mkEvidence (evidenceId ev) (submitter ev) (ipfsHash ev) (evidenceType ev)
    (status ev) (validationLevel ev) (timestamp ev) (fileSize ev)
    (mimeType ev) (originalUrl ev) (description ev) (exists_ ev) voted
    count positive negative.

Section Hashing.

(** [keccak256(abi.encodePacked(msg.sender, ipfsHash, evidenceType,
    fileSize, block.timestamp, _evidenceCounter.current()))] *)
Variable keccak256 : address → string → EvidenceType → N → N → N → N.

Definition submitEvidence (caller : address) (now : N)
    (ipfsHash : string) (evidenceType : EvidenceType) (fileSize : N)
    (mimeType originalUrl description : string) (st : State)
  : option State :=
  require (negb (paused st));;
  require (Nat.eqb (String.length ipfsHash) IPFS_HASH_LENGTH);;
  require (fileSize <=? MAX_FILE_SIZE);;
  require (0 <? fileSize);;
  require (nonempty mimeType);;
  require (nonempty description);;
  require (negb (rd (knownIPFSHashes st) ipfsHash));;
  let counter := _evidenceCounter st + 1 in
  let evidenceId :=
    keccak256 caller ipfsHash evidenceType fileSize now counter in
  let slot := rd (evidence st) evidenceId in
  let newEvidence :=
    mkEvidence evidenceId caller ipfsHash evidenceType Pending Basic now
      fileSize mimeType originalUrl description true (validators slot)
      0 0 0 in
  Some (mkState counter (<[evidenceId := newEvidence]> (evidence st))
          (validationResults st)
          (<[evidenceId :=
               mkIPFSMetadata ipfsHash fileSize mimeType "base58" now
                 false]> (ipfsMetadata st))
          (validatorReputation st) (authorizedValidators st)
          (<[ipfsHash := true]> (knownIPFSHashes st))
          (allEvidenceIds st ++ [evidenceId]) (validatorList st)
          (paused st) (owner st)).

End Hashing.

Definition _finalizeValidation (evidenceId : N) (st : State) : State :=
  let ev := rd (evidence st) evidenceId in
  if negativeValidations ev <? positiveValidations ev then
    set_evidence evidenceId (set_status Validated ev) st
  else
    set_evidence evidenceId (set_status Rejected ev) st.

Definition validateEvidence (caller : address) (now : N) (evidenceId : N)
    (isValid : bool) (reason : string) (level : ValidationLevel)
    (st : State) : option State :=
  require (negb (paused st));;
  (* onlyAuthorizedValidator *)
  require (rd (authorizedValidators st) caller);;
  require (MIN_VALIDATION_REPUTATION <=? rd (validatorReputation st) caller);;
  (* onlyExistingEvidence, onlyPendingEvidence *)
  require (exists_ (rd (evidence st) evidenceId));;
  require (bool_decide (status (rd (evidence st) evidenceId) = Pending)
           || bool_decide
                (status (rd (evidence st) evidenceId) = UnderReview));;
  require (nonempty reason);;
  require (negb (rd (validators (rd (evidence st) evidenceId)) caller));;
  let ev := rd (evidence st) evidenceId in
  deadline ← add (timestamp ev) VALIDATION_TIMEOUT;
  require (now <=? deadline);;
  count ← add (validationCount ev) 1;
  positive ← (if isValid then add (positiveValidations ev) 1
              else Some (positiveValidations ev));
  negative ← (if isValid then Some (negativeValidations ev)
              else add (negativeValidations ev) 1);
  let ev := set_tally (<[caller := true]> (validators ev)) count positive
                      negative ev in
  (* Update validator reputation *)
  reputation ← (if isValid
                then add (rd (validatorReputation st) caller)
                         REPUTATION_REWARD_VALIDATION
                else Some (rd (validatorReputation st) caller));
  let st :=
    mkState (_evidenceCounter st) (<[evidenceId := ev]> (evidence st))
      (<[evidenceId :=
           rd (validationResults st) evidenceId
           ++ [mkValidationResult caller isValid reason now level]]>
         (validationResults st))
      (ipfsMetadata st)
      (if isValid then <[caller := reputation]> (validatorReputation st)
       else validatorReputation st)
      (authorizedValidators st) (knownIPFSHashes st) (allEvidenceIds st)
      (validatorList st) (paused st) (owner st) in
  if MIN_VALIDATIONS_REQUIRED <=? validationCount ev then
    Some (_finalizeValidation evidenceId st)
  else Some st.

Definition authorizeValidator (caller validator : address)
    (initialReputation : N) (st : State) : option State :=
  require (caller =? owner st);;
  require (negb (validator =? 0));;
  require (negb (rd (authorizedValidators st) validator));;
  Some (mkState (_evidenceCounter st) (evidence st) (validationResults st)
          (ipfsMetadata st)
          (<[validator := initialReputation]> (validatorReputation st))
          (<[validator := true]> (authorizedValidators st))
          (knownIPFSHashes st) (allEvidenceIds st)
          (validatorList st ++ [validator]) (paused st) (owner st)).

Definition emergencyUpdateValidatorReputation (caller validator : address)
    (newReputation : N) (st : State) : option State :=
  require (caller =? owner st);;
  Some (mkState (_evidenceCounter st) (evidence st) (validationResults st)
          (ipfsMetadata st)
          (<[validator := newReputation]> (validatorReputation st))
          (authorizedValidators st) (knownIPFSHashes st)
          (allEvidenceIds st) (validatorList st) (paused st) (owner st)).

Definition emergencyUpdateEvidenceStatus (caller : address)
    (evidenceId : N) (newStatus : EvidenceStatus) (st : State)
  : option State :=
  require (caller =? owner st);;
  require (exists_ (rd (evidence st) evidenceId));;
  Some (set_evidence evidenceId
          (set_status newStatus (rd (evidence st) evidenceId)) st).

End EvidenceValidator.

(** ** Scenarios

    Concrete runs of the contracts, used to exercise the statements below.
    The accounts 1 and 5 report, 2, 3 and 4 validate, 100 deploys; each
    holds one ether at the start. *)

Module RegistryScenarios.
Import StakeBasedReportRegistry.

Definition deployer : address := 100.

Definition funds : gmap address N :=
  list_to_map [(1, ether); (2, ether); (3, ether); (4, ether); (5, ether);
               (7, ether); (100, ether)].

Definition start : State := init deployer funds.

(** The state a run ends in ([start] if a call of the run reverts). *)
Definition the (o : option State) : State := default start o.

Definition registration : list Call :=
  [RegisterValidator 2 10; RegisterValidator 3 10; RegisterValidator 4 10].

Definition report1 : Call :=
  SubmitReportWithStake (mkMsg 1 REPORT_STAKE) 20 "phishing_url"
    "http://phish.example" "fake login page" "QmReport1".

Definition report2 : Call :=
  SubmitReportWithStake (mkMsg 5 REPORT_STAKE) 21 "scam_wallet"
    "0xbad" "drains approvals" "QmReport2".

Definition vote (validator : address) (reportId : N) (isValid : bool)
  : Call :=
  VoteOnReport (mkMsg validator VOTING_STAKE) 30 reportId isValid.

(** Scenario A of the specification, one vote short of the quorum: the
    deployer has sent a tenth of an ether to the contract, report 1 has
    two [Valid] votes. *)
Definition scenarioA : list Call :=
  registration
  ++ [Receive (mkMsg deployer (ether / 10)); report1;
      vote 2 1 true; vote 3 1 true].

Definition twoValid : State := the (run scenarioA start).

(** Scenario A without the deposit of the deployer: the contract holds the
    stake of the reporter and the two voting stakes. *)
Definition scenarioA_unfunded : list Call :=
  registration ++ [report1; vote 2 1 true; vote 3 1 true].

Definition twoValidUnfunded : State := the (run scenarioA_unfunded start).

(** Scenario B, one vote short of the quorum: report 1 has two [Invalid]
    votes and the contract holds the stakes only. *)
Definition scenarioB : list Call :=
  registration ++ [report1; vote 2 1 false; vote 3 1 false].

Definition twoInvalid : State := the (run scenarioB start).

(** The votes that complete the two scenarios. *)
Definition validated : State :=
  the (voteOnReport (mkMsg 4 VOTING_STAKE) 30 1 false twoValid).

Definition rejected : State :=
  the (voteOnReport (mkMsg 4 VOTING_STAKE) 30 1 true twoInvalid).

(** Two reports are pending, the first has two [Valid] votes, and the
    contract holds nothing but the stakes. *)
Definition unfunded : list Call :=
  registration ++ [report1; report2; vote 2 1 true; vote 3 1 true].

Definition twoReports : State := the (run unfunded start).

Definition overpaid : State :=
  the (voteOnReport (mkMsg 4 VOTING_STAKE) 30 1 true twoReports).

(** Report 1 has one vote; [afterDeadline] is past its voting deadline. *)
Definition stale : list Call := registration ++ [report1; vote 2 1 true].

Definition oneVote : State := the (run stale start).

Definition afterDeadline : N := 20 + VOTING_PERIOD + 1.

(** A report with two [Valid] and two [Invalid] votes, as no run of the
    contract produces it (the third vote settles a report). *)
Definition tiedReport : Report :=
  mkReport 1 "phishing_url" "http://phish.example" "fake login page"
    "QmReport1" 1 REPORT_STAKE 20 (20 + VOTING_PERIOD) Pending 2 2
    (list_to_map [(2, Valid); (3, Valid); (4, Invalid); (5, Invalid)])
    (list_to_map [(2, VOTING_STAKE); (3, VOTING_STAKE); (4, VOTING_STAKE);
                  (5, VOTING_STAKE)])
    [2; 3; 4; 5].

Definition tied : State :=
  mkState 1 0 (<[1 := tiedReport]> ∅) ∅ ∅ ∅ deployer
    (REPORT_STAKE + 4 * VOTING_STAKE) funds.

End RegistryScenarios.

Module LedgerScenarios.
Import ReputationSystem.

Definition deployer : address := 100.
Definition self : address := 200.

Definition funds : gmap address N :=
  list_to_map [(1, 10000 * ether); (2, 10000 * ether)].

Definition start : State := init deployer self funds.

Definition the (o : option State) : State := default start o.

(** The owner has raised the reputation of account 1 by 50, and the
    account has staked 1000 tokens for 30 days at time 1000. *)
Definition staking : list Call :=
  [UpdateReputation deployer 900 1 50 true;
   DepositStake 1 1000 (1000 * ether) (30 * days) Report].

Definition staked : State := the (run staking start).

(** Scenario E of the specification: one second before the lock ends. *)
Definition early : N := 1000 + 30 * days - 1.
Definition onTime : N := 1000 + 30 * days.

Definition withdrawnEarly : State := the (withdrawStake 1 early 1 staked).
Definition withdrawnOnTime : State := the (withdrawStake 1 onTime 1 staked).

(** The owner lowers the reputation of an account it has never seen. *)
Definition lowered : State :=
  the (updateReputation deployer 900 2 (-3) false start).

Definition raised : State :=
  the (updateReputation deployer 900 2 50 true start).

(** The account 1, of base reputation 60, gains 7 or loses 100. *)
Definition gained : State :=
  the (updateReputation deployer 1000 1 7 true staked).

Definition lost : State :=
  the (updateReputation deployer 1000 1 (-100) false staked).

(** The account 1, its base reputation now 0, is penalised once more. *)
Definition penalised : State :=
  the (updateReputation deployer 2000 1 (-3) false lost).

End LedgerScenarios.

Module EvidenceScenarios.
Import EvidenceValidator.

Definition deployer : address := 100.

(** A stand-in for [keccak256]: the runs below submit one item, whose
    identifier is the value of the counter. *)
Definition counterHash (caller : address) (ipfsHash : string)
    (evidenceType : EvidenceType) (fileSize now counter : N) : N :=
  counter.

Definition the (o : option State) : State := default (init deployer) o.

(** The validators 2, 3 and 4 are authorised with reputation 50, and the
    account 1 has submitted the evidence item 1. *)
Definition submitted : State :=
  the (st ← authorizeValidator deployer 2 50 (init deployer);
       st ← authorizeValidator deployer 3 50 st;
       st ← authorizeValidator deployer 4 50 st;
       submitEvidence counterHash 1 20
         "QmYwAPJzv5CZsnA625s3Xf2nemtYgPpHdWEz79ojWnPbdG" Screenshot 1024
         "image/png" "https://phish.example" "screenshot of the page" st).

(** Two negative verdicts and a positive one: the item is rejected. *)
Definition outvoted : State :=
  the (st ← validateEvidence 2 30 1 false "looks legitimate" Basic submitted;
       st ← validateEvidence 3 31 1 false "no login form" Standard st;
       validateEvidence 4 32 1 true "phishing" Advanced st).

(** Two positive verdicts and a negative one validate the item; the
    owner then puts it under review again. *)
Definition reopened : State :=
  the (st ← validateEvidence 2 30 1 true "phishing" Basic submitted;
       st ← validateEvidence 3 31 1 true "phishing" Standard st;
       st ← validateEvidence 4 32 1 false "looks legitimate" Advanced st;
       emergencyUpdateEvidenceStatus deployer 1 UnderReview st).

(** The owner, a validator since the deployment, gives the fourth
    verdict: two against two. *)
Definition tied : State :=
  the (validateEvidence deployer 40 1 false "not convinced" Expert reopened).

End EvidenceScenarios.

(** * The rest of the contracts

    The functions of the four contracts that the sections above leave
    out, and the quantities in which their properties are stated. *)

(** ** Signed numbers

    An [int256] is a [Z].  Some events take the difference of two
    [uint256] read as [int256]: the conversion reinterprets the 256 bits
    and the subtraction is checked, so that emitting the event can
    revert. *)

Module Int256.

(** [int256(x)] for a [uint256]: the same bits in two's complement. *)
Definition ofUint256 (x : N) : Z :=
  if (Z.of_N x <=? MAX_INT256)%Z then Z.of_N x else (Z.of_N x - 2 ^ 256)%Z.

(** Checked [-] on [int256]. *)
Definition sub (a b : Z) : option Z :=
  if ((MIN_INT256 <=? a - b) && (a - b <=? MAX_INT256))%Z
  then Some (a - b)%Z else None.

End Int256.

(** ** StakeBasedReportRegistry: the views and the books *)

Module RegistryViews.
Import StakeBasedReportRegistry.

Definition getValidator (validatorAddress : address) (st : State)
  : Validator :=
  rd (validatorOf st) validatorAddress.

Definition getUserReports (user : address) (st : State) : list N :=
  rd (userReports st) user.

Definition getValidatorReports (validator : address) (st : State) : list N :=
  rd (validatorReports st) validator.

Definition getTotalReports (st : State) : N := _reportIds st.

Definition getTotalValidators (st : State) : N := _validatorIds st.

(** The status of a report agrees with its votes: a pending report is
    short of the quorum, a settled one has exactly the quorum and the
    majority that its status tells. *)
Definition settledByMajority (r : Report) : Prop :=
  match status r with
  | Pending => N.of_nat (length (validators r)) < MIN_VALIDATORS
  | Validated =>
      N.of_nat (length (validators r)) = MIN_VALIDATORS
      ∧ invalidVotes r < validVotes r
  | Rejected =>
      N.of_nat (length (validators r)) = MIN_VALIDATORS
      ∧ validVotes r ≤ invalidVotes r
  | Expired => False
  end.

(** The record of a registered validator: the reputation starts at 100,
    moves by one with every settled report and stops at 1. *)
Definition validatorBounds (val : Validator) : Prop :=
  isActive val = true →
  1 ≤ reputation val
  ∧ correctValidations val ≤ totalValidations val
  ∧ 100 + 2 * correctValidations val
    ≤ reputation val + totalValidations val.

(** [userReports] lists the reports of a reporter, [validatorReports] the
    reports a validator has voted on, each once. *)
Definition reportsListed (st : State) : Prop :=
  ∀ user,
    NoDup (rd (userReports st) user)
    ∧ ∀ reportId,
        reportId ∈ rd (userReports st) user
        ↔ 1 ≤ reportId ≤ _reportIds st
          ∧ reporter (rd (reports st) reportId) = user.

Definition votesListed (st : State) : Prop :=
  ∀ validator,
    NoDup (rd (validatorReports st) validator)
    ∧ ∀ reportId,
        reportId ∈ rd (validatorReports st) validator
        ↔ rd (votes (rd (reports st) reportId)) validator ≠ NoVote.

(** No submission creates the report 0 or a report above the counter:
    such a slot keeps the voting deadline 0. *)
Definition unsubmitted (reportId : N) (st : State) : Prop :=
  reportId = 0 ∨ _reportIds st < reportId.

End RegistryViews.

(** ** ReputationSystem: the views and the books *)

Module LedgerViews.
Import ReputationSystem.

Definition getUserProfile (user : address) (st : State)
  : ReputationProfile :=
  rd (reputationProfiles st) user.

Definition getUserStake (user : address) (stakeId : N) (st : State) : Stake :=
  rd (userStakes st) (user, stakeId).

Definition getUserStakeCount (user : address) (st : State) : N :=
  rd (userStakeCount st) user.

Definition getPendingRewards (user : address) (st : State) : N :=
  rd (pendingRewards st) user.

Definition canClaimRewards (user : address) (now : N) (st : State)
  : option bool :=
  due ← add (rd (lastRewardClaim st) user) REWARD_CLAIM_COOLDOWN;
  Some (due <=? now).

(** [msg.sender] of a transaction. *)
Definition callerOf (c : Call) : address :=
  match c with
  | DepositStake caller _ _ _ _ | WithdrawStake caller _ _
  | UpdateReputation caller _ _ _ _ | SlashUser caller _ _ _
  | DistributeRewards caller _ | ClaimRewards caller _
  | Pause caller | Unpause caller
  | UpdateTierThreshold caller _ _ | UpdateTierMultiplier caller _ _
  | UpdateStakeTypeMultiplier caller _ _ => caller
  end.

(** [uint8(tier)]: the place of a tier in the enumeration. *)
Definition tierRank (t : ReputationTier) : N :=
  match t with
  | Bronze => 0 | Silver => 1 | Gold => 2 | Platinum => 3 | Diamond => 4
  end.

(** The sum over the entries of a mapping of a quantity that depends on
    the key. *)
Definition sum_over `{Countable K} {V} (g : K → V → N) (m : gmap K V) : N :=
  map_fold (λ k v acc, g k v + acc) 0 m.

(** The number of stakes of a user that are active. *)
Definition isActiveStakeOf (user : address) (key : address * N)
    (stake : Stake) : N :=
  if bool_decide (key.1 = user) && active stake then 1 else 0.

Definition activeStakes (user : address) (st : State) : N :=
  sum_over (isActiveStakeOf user) (userStakes st).

(** The books of the ledger: the contract holds at least the active
    stakes and the reward pool, no reward is pending, the stake count of
    a user is the number of its active stakes, and the total reputation
    of a profile is the sum of its two parts. *)
Definition consistent (st : State) : Prop :=
  freshStakes st
  ∧ pendingRewards st = ∅
  ∧ lockedBalance st + totalRewards (rewardPool st) ≤ held st
  ∧ (∀ user, rd (userStakeCount st) user = activeStakes user st)
  ∧ (∀ user, rd (userStakeCount st) user ≤ MAX_STAKES_PER_USER)
  ∧ ∀ user,
      totalReputation (rd (reputationProfiles st) user)
      = baseReputation (rd (reputationProfiles st) user)
        + stakedReputation (rd (reputationProfiles st) user).

(** A stake that was withdrawn: its slot is below the counter and is not
    active. *)
Definition closed (user : address) (stakeId : N) (st : State) : Prop :=
  stakeId ≤ _stakeCounter st
  ∧ active (rd (userStakes st) (user, stakeId)) = false.

(** What a call leaves alone of the account of a user. *)
Definition sameAccount (user : address) (st st' : State) : Prop :=
  rd (reputationProfiles st') user = rd (reputationProfiles st) user
  ∧ rd (token st') user = rd (token st) user
  ∧ rd (userStakeCount st') user = rd (userStakeCount st) user
  ∧ ∀ stakeId,
      rd (userStakes st') (user, stakeId) = rd (userStakes st) (user, stakeId).

End LedgerViews.

(** ** The staking token, from the outside

    The staking token is a contract of its own, [PHBToken] in this
    repository: an ERC-20 that its owner can [mint].  Its holders move
    tokens, also to the address of the ledger, and the ledger takes no
    part in it.  The ledger approves no spender and sends tokens through
    [safeTransfer] in its own functions only, so that no call from the
    outside takes tokens from it.  The calls are taken without the
    guards of the token on the zero address and on the caller of [mint]:
    what holds after every such call holds after those that the token
    lets through. *)

Module StakingToken.
Import ReputationSystem.

Definition set_balances (balances : gmap address N) (ledger : N) (st : State)
  : State :=
  mkState balances ledger (_stakeCounter st) (reputationProfiles st)
    (userStakes st) (userStakeCount st) (tierThresholds st)
    (tierMultipliers st) (stakeTypeMultipliers st) (pendingRewards st)
    (lastRewardClaim st) (rewardPool st) (paused st) (owner st) (this st).

(** The credit of [amount] tokens to [to]: the balance of the ledger is
    [held], the balance of every other account is in [token]. *)
Definition credit (to : address) (amount : N) (st : State) : State :=
  if to =? this st then set_balances (token st) (held st + amount) st
  else set_balances (<[to := rd (token st) to + amount]> (token st))
         (held st) st.

(** [transfer(to, amount)] by the holder [from], or [transferFrom] by a
    spender that [from] has approved. *)
Definition transfer (from to : address) (amount : N) (st : State)
  : option State :=
  require (negb (from =? this st));;
  require (amount <=? rd (token st) from);;
  Some (credit to amount
          (set_balances (<[from := rd (token st) from - amount]> (token st))
             (held st) st)).

(** [PHBToken.mint(to, amount)]. *)
Definition mint (to : address) (amount : N) (st : State) : option State :=
  Some (credit to amount st).

(** What happens to the ledger and around it: a transaction of the
    ledger, or a call of the token. *)
Inductive Action :=
| Ledger (c : Call)
| Transfer (from to : address) (amount : N)
| Mint (to : address) (amount : N).

Definition perform (a : Action) (st : State) : option State :=
  match a with
  | Ledger c => exec c st
  | Transfer from to amount => transfer from to amount st
  | Mint to amount => mint to amount st
  end.

Definition step (st st' : State) : Prop := ∃ a, perform a st = Some st'.

Definition reachable (st : State) : Prop :=
  ∃ deployer self funds, rtc step (init deployer self funds) st.

Definition run (actions : list Action) (st : State) : option State :=
  forEach perform actions st.

End StakingToken.

(** ** PhishBlockRegistry: votes, disputes and the functions of the owner

    The whole storage of [PhishBlockRegistry]: what
    [PhishBlockRegistry.State] holds, the votes and the disputes (the
    counter [_disputeCounter] is declared and never used).  The arguments
    [isUpvote] of [vote] and [reason] of [raiseDispute] are spelled
    [upvote] and [why], the local [reputationWeight] is [weight]: the
    names are those of fields. *)

Module PhishBlockVoting.
Import PhishBlockRegistry.

Global Instance PhishBlockStatus_eq_dec : EqDecision ReportStatus.
Proof. solve_decision. Defined.

Record Vote := mkVote {
  hasVoted : bool;
  isUpvote : bool;
  vote_timestamp : N;
  reputationWeight : N
}.

Record Dispute := mkDispute {
  disputer : address;
  reason : string;
  dispute_timestamp : N;
  resolved : bool
}.

Global Instance zero_Vote : Zero Vote := mkVote false false 0 0.

Record Storage := mkStorage {
  registry : State;
  votes : gmap (N * address) Vote;
  disputes : gmap N (list Dispute)
}.

Definition VOTE_TIMEOUT : N := 7 * days.
Definition DISPUTE_TIMEOUT : N := 14 * days.
Definition REPUTATION_REWARD_REPORT : N := 2.
Definition REPUTATION_REWARD_VOTE : N := 1.
Definition REPUTATION_PENALTY_FALSE_REPORT : N := 5.

Definition init (deployer : address) : Storage :=
  mkStorage (PhishBlockRegistry.init deployer) ∅ ∅.

Definition set_report (id : N) (r : Report) (st : State) : State :=
  mkState (_reportCounter st) (<[id := r]> (reports st)) (userReputation st)
    (lastSubmissionTime st) (submissionCount st) (urlBlacklist st)
    (walletBlacklist st) (paused st) (owner st).

Definition set_tallies (up down : N) (r : Report) : Report :=
  mkReport (reportId r) (reporter r) (targetUrl r) (targetWallet r)
    (description r) (ipfsHash r) (evidenceType r) (status r) (timestamp r)
    up down (disputeCount r) (exists_ r).

Definition set_status (s : ReportStatus) (r : Report) : Report :=
  mkReport (reportId r) (reporter r) (targetUrl r) (targetWallet r)
    (description r) (ipfsHash r) (evidenceType r) s (timestamp r)
    (upvotes r) (downvotes r) (disputeCount r) (exists_ r).

Definition set_disputeCount (n : N) (r : Report) : Report :=
  mkReport (reportId r) (reporter r) (targetUrl r) (targetWallet r)
    (description r) (ipfsHash r) (evidenceType r) (status r) (timestamp r)
    (upvotes r) (downvotes r) n (exists_ r).

Definition set_reputation (user : address) (n : N) (st : State) : State :=
  mkState (_reportCounter st) (reports st) (<[user := n]> (userReputation st))
    (lastSubmissionTime st) (submissionCount st) (urlBlacklist st)
    (walletBlacklist st) (paused st) (owner st).

Definition set_paused (b : bool) (st : State) : State :=
  mkState (_reportCounter st) (reports st) (userReputation st)
    (lastSubmissionTime st) (submissionCount st) (urlBlacklist st)
    (walletBlacklist st) b (owner st).

(** A function that touches neither the votes nor the disputes. *)
Definition lift (f : State → option State) (s : Storage) : option Storage :=
  st ← f (registry s); Some (mkStorage st (votes s) (disputes s)).

(** The [newScore] of the event [VoteCast]:
    [int256(report.upvotes) - int256(report.downvotes)]. *)
Definition score (r : Report) : option Z :=
  Int256.sub (Int256.ofUint256 (upvotes r)) (Int256.ofUint256 (downvotes r)).

Definition vote (caller : address) (now : N) (id : N) (upvote : bool)
    (s : Storage) : option Storage :=
  let st := registry s in
  require (negb (paused st));;
  (* onlyValidVoter, onlyExistingReport, onlyActiveReport *)
  require (MIN_REPUTATION_TO_VOTE <=? rd (userReputation st) caller);;
  require (exists_ (rd (reports st) id));;
  require (bool_decide (status (rd (reports st) id) = Pending)
           || bool_decide (status (rd (reports st) id) = Verified));;
  let report := rd (reports st) id in
  let userVote := rd (votes s) (id, caller) in
  deadline ← add (timestamp report) VOTE_TIMEOUT;
  require (now <=? deadline);;
  let weight := rd (userReputation st) caller in
  if hasVoted userVote then
    (* User is changing their vote *)
    if Bool.eqb (isUpvote userVote) upvote then Some s
    else
      (* Remove old vote *)
      '(up, down) ←
        (if isUpvote userVote then
           up ← sub (upvotes report) (reputationWeight userVote);
           Some (up, downvotes report)
         else
           down ← sub (downvotes report) (reputationWeight userVote);
           Some (upvotes report, down));
      (* Apply new vote *)
      '(up, down) ←
        (if upvote then up ← add up weight; Some (up, down)
         else down ← add down weight; Some (up, down));
      let report := set_tallies up down report in
      score report;;
      Some (mkStorage (set_report id report st)
              (<[(id, caller) :=
                   mkVote (hasVoted userVote) upvote
                     (vote_timestamp userVote) weight]> (votes s))
              (disputes s))
  else
    (* New vote *)
    '(up, down) ←
      (if upvote then
         up ← add (upvotes report) weight; Some (up, downvotes report)
       else
         down ← add (downvotes report) weight; Some (upvotes report, down));
    let report := set_tallies up down report in
    score report;;
    Some (mkStorage (set_report id report st)
            (<[(id, caller) := mkVote true upvote now weight]> (votes s))
            (disputes s)).

Definition raiseDispute (caller : address) (now : N) (id : N) (why : string)
    (s : Storage) : option Storage :=
  let st := registry s in
  require (negb (paused st));;
  (* onlyValidVoter, onlyExistingReport *)
  require (MIN_REPUTATION_TO_VOTE <=? rd (userReputation st) caller);;
  require (exists_ (rd (reports st) id));;
  require (nonempty why);;
  require (negb (caller =? reporter (rd (reports st) id)));;
  let report := rd (reports st) id in
  deadline ← add (timestamp report) DISPUTE_TIMEOUT;
  require (now <=? deadline);;
  count ← add (disputeCount report) 1;
  Some (mkStorage (set_report id (set_disputeCount count report) st)
          (votes s)
          (<[id := rd (disputes s) id ++ [mkDispute caller why now false]]>
             (disputes s))).

(** [change] is an [int256]. *)
Definition _updateReputation (user : address) (change : Z) (st : State)
  : option State :=
  let currentReputation := rd (userReputation st) user in
  if (0 <? change)%Z then
    reputation ← add currentReputation (Z.to_N change);
    Some (set_reputation user reputation st)
  else
    (* [-change] overflows on the least [int256] *)
    require (negb (change =? MIN_INT256)%Z);;
    let decrease := Z.to_N (- change) in
    Some (set_reputation user
            (if decrease <=? currentReputation
             then currentReputation - decrease else 0) st).

Definition updateReportStatus (caller : address) (id : N)
    (newStatus : ReportStatus) (st : State) : option State :=
  require (caller =? owner st);;
  require (exists_ (rd (reports st) id));;
  let report := rd (reports st) id in
  let st := set_report id (set_status newStatus report) st in
  (* Update reputation based on status change *)
  match newStatus with
  | Verified =>
      _updateReputation (reporter report) (Z.of_N REPUTATION_REWARD_REPORT) st
  | Disputed =>
      _updateReputation (reporter report)
        (- Z.of_N REPUTATION_PENALTY_FALSE_REPORT) st
  | _ => Some st
  end.

Definition addToBlacklist (caller : address) (target : string) (isUrl : bool)
    (st : State) : option State :=
  require (caller =? owner st);;
  require (nonempty target);;
  Some (mkState (_reportCounter st) (reports st) (userReputation st)
          (lastSubmissionTime st) (submissionCount st)
          (if isUrl then <[target := true]> (urlBlacklist st)
           else urlBlacklist st)
          (if isUrl then walletBlacklist st
           else <[target := true]> (walletBlacklist st))
          (paused st) (owner st)).

Definition removeFromBlacklist (caller : address) (target : string)
    (isUrl : bool) (st : State) : option State :=
  require (caller =? owner st);;
  require (nonempty target);;
  Some (mkState (_reportCounter st) (reports st) (userReputation st)
          (lastSubmissionTime st) (submissionCount st)
          (if isUrl then <[target := false]> (urlBlacklist st)
           else urlBlacklist st)
          (if isUrl then walletBlacklist st
           else <[target := false]> (walletBlacklist st))
          (paused st) (owner st)).

Definition pause (caller : address) (st : State) : option State :=
  require (caller =? owner st);;
  require (negb (paused st));;
  Some (set_paused true st).

Definition unpause (caller : address) (st : State) : option State :=
  require (caller =? owner st);;
  require (paused st);;
  Some (set_paused false st).

(** [emergencyUpdateReputation] with the change that its event states,
    [int256(newReputation) - int256(oldReputation)]. *)
Definition emergencyUpdateReputation (caller user : address)
    (newReputation : N) (st : State) : option State :=
  require (caller =? owner st);;
  Int256.sub (Int256.ofUint256 newReputation)
    (Int256.ofUint256 (rd (userReputation st) user));;
  PhishBlockRegistry.emergencyUpdateReputation caller user newReputation st.

(** The views. *)
Definition getReport (id : N) (s : Storage) : option Report :=
  require (exists_ (rd (reports (registry s)) id));;
  Some (rd (reports (registry s)) id).

Definition getUserVote (id : N) (voter : address) (s : Storage) : Vote :=
  rd (votes s) (id, voter).

Definition getDisputes (id : N) (s : Storage) : option (list Dispute) :=
  require (exists_ (rd (reports (registry s)) id));;
  Some (rd (disputes s) id).

Definition getReportCount (s : Storage) : N := _reportCounter (registry s).

Definition getUserReputation (user : address) (s : Storage) : N :=
  rd (userReputation (registry s)) user.

Definition isUrlBlacklisted (url : string) (s : Storage) : bool :=
  rd (urlBlacklist (registry s)) url.

Definition isWalletBlacklisted (wallet : string) (s : Storage) : bool :=
  rd (walletBlacklist (registry s)) wallet.

(** One transaction from the outside. *)
Inductive Call :=
| SubmitReport (caller : address) (now : N)
    (targetUrl targetWallet description ipfsHash : string)
    (evidenceType : EvidenceType)
| CastVote (caller : address) (now : N) (id : N) (upvote : bool)
| RaiseDispute (caller : address) (now : N) (id : N) (why : string)
| UpdateReportStatus (caller : address) (id : N) (newStatus : ReportStatus)
| AddToBlacklist (caller : address) (target : string) (isUrl : bool)
| RemoveFromBlacklist (caller : address) (target : string) (isUrl : bool)
| Pause (caller : address)
| Unpause (caller : address)
| EmergencyUpdateReputation (caller user : address) (newReputation : N).

Section Hashing.

Variable keccak256 :
  address → string → string → string → string → N → N → N.

Definition exec (c : Call) (s : Storage) : option Storage :=
  match c with
  | SubmitReport caller now targetUrl targetWallet description ipfsHash
      evidenceType =>
      lift (submitReport keccak256 caller now targetUrl targetWallet
              description ipfsHash evidenceType) s
  | CastVote caller now id upvote => vote caller now id upvote s
  | RaiseDispute caller now id why => raiseDispute caller now id why s
  | UpdateReportStatus caller id newStatus =>
      lift (updateReportStatus caller id newStatus) s
  | AddToBlacklist caller target isUrl =>
      lift (addToBlacklist caller target isUrl) s
  | RemoveFromBlacklist caller target isUrl =>
      lift (removeFromBlacklist caller target isUrl) s
  | Pause caller => lift (pause caller) s
  | Unpause caller => lift (unpause caller) s
  | EmergencyUpdateReputation caller user newReputation =>
      lift (emergencyUpdateReputation caller user newReputation) s
  end.

Definition step (s s' : Storage) : Prop := ∃ c, exec c s = Some s'.

Definition reachable (s : Storage) : Prop :=
  ∃ deployer, rtc step (init deployer) s.

Definition run (calls : list Call) (s : Storage) : option Storage :=
  forEach exec calls s.

End Hashing.

(** The block time of a submission by [caller], for a call that is
    one. *)
Definition submissionBy (caller : address) (c : Call) : option N :=
  match c with
  | SubmitReport sender now _ _ _ _ _ =>
      if sender =? caller then Some now else None
  | _ => None
  end.

(** Block times in order, each less than [RATE_LIMIT_WINDOW] after the
    one before. *)
Fixpoint rapid (last : N) (times : list N) : Prop :=
  match times with
  | [] => True
  | t :: rest => last ≤ t ∧ t - last < RATE_LIMIT_WINDOW ∧ rapid t rest
  end.

(** No function sets [resolved]. *)
Definition unresolved (s : Storage) : Prop :=
  ∀ id d, d ∈ rd (disputes s) id → resolved d = false.

End PhishBlockVoting.

(** ** EvidenceValidator: the functions of the owner

    The whole storage of [EvidenceValidator]: what
    [EvidenceValidator.State] holds, the content analyses and the two
    lists of patterns and domains (the counter [_validationCounter] is
    declared and never used).  The arguments of [updateContentAnalysis]
    that are named as the fields of [ContentAnalysis] are spelled
    [phishing], [malicious], [suspicious], [score], [patterns] and
    [factors]. *)

Module EvidenceAdmin.
Import EvidenceValidator.

Record ContentAnalysis := mkContentAnalysis {
  isPhishing : bool;
  isMalicious : bool;
  isSuspicious : bool;
  confidenceScore : N;
  detectedPatterns : list string;
  riskFactors : list string
}.

Global Instance zero_ContentAnalysis : Zero ContentAnalysis :=
  mkContentAnalysis false false false 0 [] [].
Global Instance zero_IPFSMetadata : Zero IPFSMetadata :=
  mkIPFSMetadata zero 0 zero zero 0 false.

Record Storage := mkStorage {
  validation : State;
  contentAnalysis : gmap N ContentAnalysis;
  maliciousPatterns : gmap string bool;
  suspiciousDomains : gmap string bool
}.

Definition init (deployer : address) : Storage :=
  mkStorage (EvidenceValidator.init deployer) ∅
    (<["hack" := true]>
       (<["steal" := true]>
          (<["fake" := true]>
             (<["scam" := true]> (<["phishing" := true]> ∅)))))
    ∅.

Definition set_paused (b : bool) (st : State) : State :=
  mkState (_evidenceCounter st) (evidence st) (validationResults st)
    (ipfsMetadata st) (validatorReputation st) (authorizedValidators st)
    (knownIPFSHashes st) (allEvidenceIds st) (validatorList st) b (owner st).

Definition updateIPFSMetadata (caller : address) (evidenceId : N)
    (verified : bool) (st : State) : option State :=
  require (caller =? owner st);;
  require (exists_ (rd (evidence st) evidenceId));;
  let metadata := rd (ipfsMetadata st) evidenceId in
  Some (mkState (_evidenceCounter st) (evidence st) (validationResults st)
          (<[evidenceId :=
               mkIPFSMetadata (ipfs_hash metadata) (ipfs_size metadata)
                 (ipfs_mimeType metadata) (ipfs_encoding metadata)
                 (ipfs_timestamp metadata) verified]> (ipfsMetadata st))
          (validatorReputation st) (authorizedValidators st)
          (knownIPFSHashes st) (allEvidenceIds st) (validatorList st)
          (paused st) (owner st)).

(** The loop of [deauthorizeValidator] over [validatorList], at the index
    [i] with [n] iterations left: the first entry that is the validator is
    overwritten with the last entry, the last entry is popped and the
    loop ends. *)
Fixpoint removeFromList (validator : address) (l : list address)
    (i n : nat) : list address :=
  match n with
  | O => l
  | S n' =>
      if bool_decide (l !! i = Some validator) then
        removelast (<[i := List.last l validator]> l)
      else removeFromList validator l (S i) n'
  end.

Definition deauthorizeValidator (caller validator : address) (st : State)
  : option State :=
  require (caller =? owner st);;
  require (rd (authorizedValidators st) validator);;
  Some (mkState (_evidenceCounter st) (evidence st) (validationResults st)
          (ipfsMetadata st)
          (<[validator := 0]> (validatorReputation st))
          (<[validator := false]> (authorizedValidators st))
          (knownIPFSHashes st) (allEvidenceIds st)
          (removeFromList validator (validatorList st) 0
             (length (validatorList st)))
          (paused st) (owner st)).

Definition pause (caller : address) (st : State) : option State :=
  require (caller =? owner st);;
  require (negb (paused st));;
  Some (set_paused true st).

Definition unpause (caller : address) (st : State) : option State :=
  require (caller =? owner st);;
  require (paused st);;
  Some (set_paused false st).

(** A function that touches the storage of the validations only. *)
Definition lift (f : State → option State) (s : Storage) : option Storage :=
  st ← f (validation s);
  Some (mkStorage st (contentAnalysis s) (maliciousPatterns s)
          (suspiciousDomains s)).

Definition updateContentAnalysis (caller : address) (evidenceId : N)
    (phishing malicious suspicious : bool) (score : N)
    (patterns factors : list string) (s : Storage) : option Storage :=
  require (caller =? owner (validation s));;
  require (exists_ (rd (evidence (validation s)) evidenceId));;
  require (score <=? 100);;
  let analysis := rd (contentAnalysis s) evidenceId in
  Some (mkStorage (validation s)
          (<[evidenceId :=
               mkContentAnalysis phishing malicious suspicious score
                 (detectedPatterns analysis ++ patterns)
                 (riskFactors analysis ++ factors)]> (contentAnalysis s))
          (maliciousPatterns s) (suspiciousDomains s)).

Definition addMaliciousPattern (caller : address) (pattern : string)
    (isActive : bool) (s : Storage) : option Storage :=
  require (caller =? owner (validation s));;
  require (nonempty pattern);;
  Some (mkStorage (validation s) (contentAnalysis s)
          (<[pattern := isActive]> (maliciousPatterns s))
          (suspiciousDomains s)).

Definition addSuspiciousDomain (caller : address) (domain : string)
    (isActive : bool) (s : Storage) : option Storage :=
  require (caller =? owner (validation s));;
  require (nonempty domain);;
  Some (mkStorage (validation s) (contentAnalysis s) (maliciousPatterns s)
          (<[domain := isActive]> (suspiciousDomains s))).

(** The views. *)
Definition getEvidence (evidenceId : N) (s : Storage) : option Evidence :=
  require (exists_ (rd (evidence (validation s)) evidenceId));;
  Some (rd (evidence (validation s)) evidenceId).

Definition getValidationResults (evidenceId : N) (s : Storage)
  : option (list ValidationResult) :=
  require (exists_ (rd (evidence (validation s)) evidenceId));;
  Some (rd (validationResults (validation s)) evidenceId).

Definition getIPFSMetadata (evidenceId : N) (s : Storage)
  : option IPFSMetadata :=
  require (exists_ (rd (evidence (validation s)) evidenceId));;
  Some (rd (ipfsMetadata (validation s)) evidenceId).

Definition getContentAnalysis (evidenceId : N) (s : Storage)
  : option ContentAnalysis :=
  require (exists_ (rd (evidence (validation s)) evidenceId));;
  Some (rd (contentAnalysis s) evidenceId).

Definition getValidatorReputation (validator : address) (s : Storage) : N :=
  rd (validatorReputation (validation s)) validator.

Definition isAuthorizedValidator (validator : address) (s : Storage) : bool :=
  rd (authorizedValidators (validation s)) validator.

Definition getEvidenceCount (s : Storage) : N :=
  N.of_nat (length (allEvidenceIds (validation s))).

Definition getEvidenceIdByIndex (index : N) (s : Storage) : option N :=
  require (index <? N.of_nat (length (allEvidenceIds (validation s))));;
  allEvidenceIds (validation s) !! N.to_nat index.

Definition getValidatorList (s : Storage) : list address :=
  validatorList (validation s).

(** One transaction from the outside. *)
Inductive Call :=
| SubmitEvidence (caller : address) (now : N) (ipfsHash : string)
    (evidenceType : EvidenceType) (fileSize : N)
    (mimeType originalUrl description : string)
| ValidateEvidence (caller : address) (now : N) (evidenceId : N)
    (isValid : bool) (reason : string) (level : ValidationLevel)
| UpdateIPFSMetadata (caller : address) (evidenceId : N) (verified : bool)
| UpdateContentAnalysis (caller : address) (evidenceId : N)
    (phishing malicious suspicious : bool) (score : N)
    (patterns factors : list string)
| AuthorizeValidator (caller validator : address) (initialReputation : N)
| DeauthorizeValidator (caller validator : address)
| AddMaliciousPattern (caller : address) (pattern : string) (isActive : bool)
| AddSuspiciousDomain (caller : address) (domain : string) (isActive : bool)
| Pause (caller : address)
| Unpause (caller : address)
| EmergencyUpdateValidatorReputation (caller validator : address)
    (newReputation : N)
| EmergencyUpdateEvidenceStatus (caller : address) (evidenceId : N)
    (newStatus : EvidenceStatus).

Section Hashing.

Variable keccak256 : address → string → EvidenceType → N → N → N → N.

Definition exec (c : Call) (s : Storage) : option Storage :=
  match c with
  | SubmitEvidence caller now ipfsHash evidenceType fileSize mimeType
      originalUrl description =>
      lift (submitEvidence keccak256 caller now ipfsHash evidenceType
              fileSize mimeType originalUrl description) s
  | ValidateEvidence caller now evidenceId isValid reason level =>
      lift (validateEvidence caller now evidenceId isValid reason level) s
  | UpdateIPFSMetadata caller evidenceId verified =>
      lift (updateIPFSMetadata caller evidenceId verified) s
  | UpdateContentAnalysis caller evidenceId phishing malicious suspicious
      score patterns factors =>
      updateContentAnalysis caller evidenceId phishing malicious suspicious
        score patterns factors s
  | AuthorizeValidator caller validator initialReputation =>
      lift (authorizeValidator caller validator initialReputation) s
  | DeauthorizeValidator caller validator =>
      lift (deauthorizeValidator caller validator) s
  | AddMaliciousPattern caller pattern isActive =>
      addMaliciousPattern caller pattern isActive s
  | AddSuspiciousDomain caller domain isActive =>
      addSuspiciousDomain caller domain isActive s
  | Pause caller => lift (pause caller) s
  | Unpause caller => lift (unpause caller) s
  | EmergencyUpdateValidatorReputation caller validator newReputation =>
      lift (emergencyUpdateValidatorReputation caller validator
              newReputation) s
  | EmergencyUpdateEvidenceStatus caller evidenceId newStatus =>
      lift (emergencyUpdateEvidenceStatus caller evidenceId newStatus) s
  end.

Definition step (s s' : Storage) : Prop := ∃ c, exec c s = Some s'.

Definition reachable (s : Storage) : Prop :=
  ∃ deployer, rtc step (init deployer) s.

Definition run (calls : list Call) (s : Storage) : option Storage :=
  forEach exec calls s.

End Hashing.

(** The books of the validations: the tallies of an item add up, its
    IPFS record repeats its hash, size and type, its hash is known, and
    the list of the validators holds the authorised validators, each
    once. *)
Definition consistent (st : State) : Prop :=
  (∀ evidenceId,
     let ev := rd (evidence st) evidenceId in
     validationCount ev = positiveValidations ev + negativeValidations ev)
  ∧ (∀ evidenceId,
       let ev := rd (evidence st) evidenceId in
       exists_ ev = true →
       rd (knownIPFSHashes st) (ipfsHash ev) = true
       ∧ ipfs_hash (rd (ipfsMetadata st) evidenceId) = ipfsHash ev
       ∧ ipfs_size (rd (ipfsMetadata st) evidenceId) = fileSize ev
       ∧ ipfs_mimeType (rd (ipfsMetadata st) evidenceId) = mimeType ev)
  ∧ N.of_nat (length (allEvidenceIds st)) = _evidenceCounter st
  ∧ (∀ evidenceId,
       evidenceId ∈ allEvidenceIds st →
       exists_ (rd (evidence st) evidenceId) = true)
  ∧ NoDup (validatorList st)
  ∧ ∀ validator,
      validator ∈ validatorList st
      ↔ rd (authorizedValidators st) validator = true.

End EvidenceAdmin.

(** ** More scenarios *)

Module StakingScenarios.
Import ReputationSystem LedgerScenarios.

(** After [staking], the owner raises the reputation of the account 2,
    which stakes 500 tokens: the stake gets the identifier 2. *)
Definition secondDeposit : list Call :=
  staking
  ++ [UpdateReputation deployer 950 2 50 true;
      DepositStake 2 1100 (500 * ether) (30 * days) Vote].

Definition twoStakers : State := the (run secondDeposit start).

(** The account 1 withdraws its stake early, the owner pauses the
    ledger. *)
Definition pausing : list Call :=
  staking ++ [WithdrawStake 1 early 1; Pause deployer].

Definition pausedLedger : State := the (run pausing start).

(** After the early withdrawal of the account 1, the account 2 stakes. *)
Definition afterwards : list Call :=
  [UpdateReputation deployer 950 2 50 true;
   DepositStake 2 1100 (500 * ether) (30 * days) Vote].

Definition later : State := the (run afterwards withdrawnEarly).

(** After [staking], the account 2 sends 500 tokens to the address of the
    ledger and the owner of the token mints 20 tokens to it. *)
Definition gifts : list StakingToken.Action :=
  map StakingToken.Ledger staking
  ++ [StakingToken.Transfer 2 self (500 * ether);
      StakingToken.Mint self (20 * ether)].

Definition endowed : State := the (StakingToken.run gifts start).

(** The account 1 then withdraws its stake early. *)
Definition drawn : State :=
  the (StakingToken.perform (StakingToken.Ledger (WithdrawStake 1 early 1))
         endowed).

End StakingScenarios.

Module VotingScenarios.
Import PhishBlockRegistry PhishBlockVoting.

Definition deployer : address := 100.

(** A stand-in for [keccak256]: the identifier of a report is the value
    of the counter. *)
Definition counterHash (caller : address)
    (targetUrl targetWallet description ipfsHash : string)
    (now counter : N) : N :=
  counter.

Definition start : Storage := init deployer.

Definition the (o : option Storage) : Storage := default start o.

Definition report (caller : address) (now : N) : Call :=
  SubmitReport caller now "http://phish.example" EmptyString
    "fake login page" "QmReport" URL.

(** Six submissions of the owner, ten minutes apart. *)
Definition burst : list Call :=
  [report deployer 600; report deployer 1200; report deployer 1800;
   report deployer 2400; report deployer 3000; report deployer 3600].

(** The owner gives the accounts 1 and 2 the reputation 20 and 30; the
    account 1 submits the report 1 at time 1000. *)
Definition reporting : list Call :=
  [EmergencyUpdateReputation deployer 1 20;
   EmergencyUpdateReputation deployer 2 30;
   report 1 1000].

Definition reported : Storage := the (run counterHash reporting start).

(** The account 2 votes the report 1 up, and then down. *)
Definition upvoted : Storage := the (vote 2 1100 1 true reported).
Definition changed : Storage := the (vote 2 1200 1 false upvoted).

(** The owner verifies the report 1 three times. *)
Definition verifying : list Call :=
  replicate 3 (UpdateReportStatus deployer 1 Verified).

Definition verified : Storage := the (run counterHash verifying reported).

(** The account 2 disputes the report 1, the owner marks it disputed and
    resolved. *)
Definition disputing : list Call :=
  [RaiseDispute 2 1300 1 "the page is genuine";
   UpdateReportStatus deployer 1 Disputed;
   UpdateReportStatus deployer 1 Resolved].

Definition disputed : Storage := the (run counterHash disputing reported).

(** The owner puts the URL of the report 1 on the blacklist. *)
Definition blacklisted : Storage :=
  the (exec counterHash
         (AddToBlacklist deployer "http://phish.example" true) reported).

End VotingScenarios.

Module AdminScenarios.
Import EvidenceValidator EvidenceAdmin EvidenceScenarios.

Definition start : Storage := init deployer.

Definition the (o : option Storage) : Storage := default start o.

Definition hash1 : string := "QmYwAPJzv5CZsnA625s3Xf2nemtYgPpHdWEz79ojWnPbdG".

(** The validators 2, 3 and 4 are authorised with reputation 50, the
    account 1 submits the evidence item 1, and the validator 2 gives a
    verdict. *)
Definition submission : list Call :=
  [AuthorizeValidator deployer 2 50; AuthorizeValidator deployer 3 50;
   AuthorizeValidator deployer 4 50;
   SubmitEvidence 1 20 hash1 Screenshot 1024 "image/png"
     "https://phish.example" "screenshot of the page"].

Definition submitted : Storage := the (run counterHash submission start).

Definition oneVerdict : Storage :=
  the (exec counterHash (ValidateEvidence 2 30 1 true "phishing" Basic)
         submitted).

(** The owner then verifies the IPFS record, removes the validator 2
    and pauses the contract. *)
Definition administration : list Call :=
  [UpdateIPFSMetadata deployer 1 true; DeauthorizeValidator deployer 2;
   Pause deployer].

Definition administered : Storage :=
  the (run counterHash administration oneVerdict).

End AdminScenarios.

(** * Properties *)

(** ** Reverts and the maps of the storage *)

Lemma require_Some (cond : bool) (u : unit) :
  require cond = Some u ↔ cond = true.
Proof. destruct cond, u; simpl; split; congruence. Qed.

Lemma add_Some (a b c : N) : add a b = Some c → c = a + b.
Proof. unfold add. destruct (_ <=? _); congruence. Qed.

Lemma mul_Some (a b c : N) : mul a b = Some c → c = a * b.
Proof. unfold mul. destruct (_ <=? _); congruence. Qed.

Lemma sub_Some (a b c : N) : sub a b = Some c → b ≤ a ∧ c = a - b.
Proof.
  unfold sub. destruct (b <=? a) eqn:E; [|congruence].
  apply N.leb_le in E. intros [= <-]. done.
Qed.

(** Closes a conjunction of facts about concrete states by evaluation. *)
Ltac by_evaluation :=
  repeat match goal with |- _ ∧ _ => split end;
  vm_compute; first [reflexivity | discriminate].

(** Splits a successful run [x ← e; k = Some y] into its steps, and turns
    the guards that were passed into facts. *)
Ltac run_inv H :=
  repeat match type of H with
         | (_ ≫= _) = Some _ =>
             let x := fresh "x" in
             let Hx := fresh "Hrun" in
             apply bind_Some in H as (x & Hx & H);
             try (apply require_Some in Hx)
         end.

Lemma rd_insert `{Countable K} {V} `{Zero V} (m : gmap K V) (i j : K) (v : V) :
  rd (<[i := v]> m) j = if decide (i = j) then v else rd m j.
Proof. unfold rd. rewrite lookup_insert. by case_decide. Qed.

Lemma rd_insert_eq `{Countable K} {V} `{Zero V} (m : gmap K V) (i : K) (v : V) :
  rd (<[i := v]> m) i = v.
Proof. by rewrite rd_insert, decide_True. Qed.

Lemma rd_insert_ne `{Countable K} {V} `{Zero V} (m : gmap K V) (i j : K) (v : V) :
  i ≠ j → rd (<[i := v]> m) j = rd m j.
Proof. intros. by rewrite rd_insert, decide_False. Qed.

Lemma rd_empty `{Countable K} {V} `{Zero V} (k : K) :
  rd (∅ : gmap K V) k = zero.
Proof. unfold rd. by rewrite lookup_empty. Qed.

Lemma sum_with_empty `{Countable K} {V} (f : V → N) :
  sum_with f (∅ : gmap K V) = 0.
Proof. unfold sum_with. apply map_fold_empty. Qed.

Lemma sum_with_insert_fresh `{Countable K} {V} (f : V → N)
    (m : gmap K V) (k : K) (v : V) :
  m !! k = None → sum_with f (<[k := v]> m) = f v + sum_with f m.
Proof.
  intros Hk. unfold sum_with.
  rewrite map_fold_insert_L; [done| |done]. intros. lia.
Qed.

Lemma sum_with_delete `{Countable K} {V} (f : V → N)
    (m : gmap K V) (k : K) (v : V) :
  m !! k = Some v → sum_with f m = f v + sum_with f (delete k m).
Proof.
  intros Hk. unfold sum_with.
  rewrite (map_fold_delete_L _ _ k v m); [done| |done]. intros. lia.
Qed.

(** Writing one slot changes the sum by the change of that slot. *)
Lemma sum_with_insert `{Countable K} {V} `{Zero V} (f : V → N)
    (m : gmap K V) (k : K) (v : V) :
  f zero = 0 →
  sum_with f (<[k := v]> m) + f (rd m k) = sum_with f m + f v.
Proof.
  intros Hz. unfold rd. destruct (m !! k) as [x|] eqn:Hk; simpl.
  - rewrite <- insert_delete_eq.
    rewrite sum_with_insert_fresh by apply lookup_delete_eq.
    rewrite (sum_with_delete f m k x Hk). lia.
  - rewrite sum_with_insert_fresh by done. rewrite Hz. lia.
Qed.

Lemma sum_map_insert `{Countable K} (m : gmap K N) (k : K) (v : N) :
  sum_map (<[k := v]> m) + rd m k = sum_map m + v.
Proof. apply (sum_with_insert id m k v). done. Qed.

Lemma forEach_app {A S} (body : A → S → option S) (l1 l2 : list A) (st : S) :
  forEach body (l1 ++ l2) st = st' ← forEach body l1 st; forEach body l2 st'.
Proof.
  revert st. induction l1 as [|x l1 IH]; intros st; simpl; [done|].
  destruct (body x st); simpl; [apply IH|done].
Qed.

(** A property that every iteration keeps is kept by the loop. *)
Lemma forEach_invariant {A S} (P : S → Prop) (body : A → S → option S)
    (l : list A) (st st' : S) :
  (∀ x s s', x ∈ l → P s → body x s = Some s' → P s') →
  P st → forEach body l st = Some st' → P st'.
Proof.
  revert st. induction l as [|x l IH]; intros st Hbody HP Hrun; simpl in *.
  - by injection Hrun as <-.
  - apply bind_Some in Hrun as (s1 & H1 & Hrun).
    eapply IH; [|eapply Hbody; [left|done..]|done].
    intros y s s' Hy. apply Hbody. by right.
Qed.

(** ** StakeBasedReportRegistry: payments *)

Section RegistryPayments.
Import StakeBasedReportRegistry.

Lemma pay_in_Some m st st' :
  pay_in m st = Some st' →
  value m ≤ rd (accounts st) (sender m)
  ∧ sameRecords st st'
  ∧ balance st' = balance st + value m
  ∧ accounts st' =
      <[sender m := rd (accounts st) (sender m) - value m]> (accounts st).
Proof.
  unfold pay_in. intros H. run_inv H. injection H as <-.
  apply N.leb_le in Hrun. by repeat split.
Qed.

Lemma transfer_Some to amount st st' :
  transfer to amount st = Some st' →
  amount ≤ balance st
  ∧ sameRecords st st'
  ∧ balance st' = balance st - amount
  ∧ accounts st' = <[to := rd (accounts st) to + amount]> (accounts st).
Proof.
  unfold transfer. intros H. run_inv H. injection H as <-.
  apply N.leb_le in Hrun. by repeat split.
Qed.

Lemma pay_in_totalEther m st st' :
  pay_in m st = Some st' → totalEther st' = totalEther st.
Proof.
  intros (Hle & _ & Hb & Ha)%pay_in_Some. unfold totalEther.
  rewrite Hb, Ha.
  pose proof (sum_map_insert (accounts st) (sender m)
                (rd (accounts st) (sender m) - value m)).
  lia.
Qed.

Lemma transfer_totalEther to amount st st' :
  transfer to amount st = Some st' → totalEther st' = totalEther st.
Proof.
  intros (Hle & _ & Hb & Ha)%transfer_Some. unfold totalEther.
  rewrite Hb, Ha.
  pose proof (sum_map_insert (accounts st) to (rd (accounts st) to + amount)).
  lia.
Qed.

Lemma rewardValidator_transfer report validator st st' :
  rewardValidator report validator st = Some st' →
  transfer validator
    (rd (validatorStakes report) validator
     + (if bool_decide (rd (votes report) validator = Valid)
        then VALIDATOR_REWARD else 0)) st = Some st'.
Proof.
  unfold rewardValidator. case_bool_decide as Hv; intros H.
  - run_inv H. by apply add_Some in Hrun as ->.
  - by rewrite N.add_0_r.
Qed.

Lemma redistributeTo_transfer report share validator st st' :
  redistributeTo report share validator st = Some st' →
  transfer validator
    (rd (validatorStakes report) validator
     + (if bool_decide (rd (votes report) validator = Invalid)
        then share else 0)) st = Some st'.
Proof.
  unfold redistributeTo. case_bool_decide as Hv; intros H.
  - run_inv H. by apply add_Some in Hrun as ->.
  - by rewrite N.add_0_r.
Qed.

Lemma updateOne_Some reportId validator st st' :
  updateOne reportId validator st = Some st' →
  ∃ val, st' = set_validatorOf (λ vs, <[validator := val]> vs) st.
Proof. unfold updateOne. intros H. run_inv H. injection H as <-. eauto. Qed.

Lemma _updateValidatorReputation_Some reportId st st' :
  _updateValidatorReputation reportId st = Some st' →
  _reportIds st' = _reportIds st ∧ reports st' = reports st
  ∧ balance st' = balance st ∧ accounts st' = accounts st.
Proof.
  unfold _updateValidatorReputation.
  generalize (validators (rd (reports st) reportId)). intros l.
  revert st. induction l as [|v l IH]; intros st H; simpl in H.
  - by injection H as <-.
  - apply bind_Some in H as (s1 & (val & ->)%updateOne_Some & H).
    apply IH in H. simpl in H. done.
Qed.

(** A loop of payments: the records stay, the contract pays the sum, and
    every account receives what is sent to it. *)
Lemma forEach_transfer (f : address → N) body l st st' :
  (∀ v s s', body v s = Some s' → transfer v (f v) s = Some s') →
  forEach body l st = Some st' →
  sameRecords st st'
  ∧ balance st' + foldr N.add 0 (map f l) = balance st
  ∧ ∀ a, rd (accounts st') a =
         rd (accounts st) a
         + foldr N.add 0 (map f (filter (λ v, v = a) l)).
Proof.
  intros Hbody. revert st. induction l as [|v l IH]; intros st H; simpl in H.
  - injection H as <-. repeat split. simpl. lia. intros; simpl; lia.
  - apply bind_Some in H as (s1 & H1 & H).
    apply Hbody, transfer_Some in H1 as (Hle & Hsame & Hb & Ha).
    apply IH in H as (Hsame' & Hb' & Ha').
    split; [|split].
    + destruct Hsame as (?&?&?&?&?&?&?), Hsame' as (?&?&?&?&?&?&?).
      repeat split; congruence.
    + simpl. lia.
    + intros a. rewrite Ha', Ha, rd_insert, filter_cons.
      repeat case_decide; subst; simpl; try done; lia.
Qed.

End RegistryPayments.

(** ** StakeBasedReportRegistry: finalization *)

Section RegistryFinalization.
Import StakeBasedReportRegistry.

Lemma foldr_add_filter_NoDup (f : address → N) (l : list address) a :
  NoDup l →
  foldr N.add 0 (map f (filter (λ v, v = a) l))
  = if bool_decide (a ∈ l) then f a else 0.
Proof.
  induction 1 as [|v l Hv Hl IH]; [done|].
  rewrite filter_cons. destruct (decide (v = a)) as [->|Hne]; simpl.
  - rewrite IH. rewrite (bool_decide_eq_false_2 _ Hv).
    rewrite bool_decide_eq_true_2 by left. lia.
  - rewrite IH.
    assert (bool_decide (a ∈ v :: l) = bool_decide (a ∈ l)) as ->
      by (apply bool_decide_ext; rewrite elem_of_cons;
          split; [intros [?|?]; [congruence|done]|by right]).
    done.
Qed.

(** What the settlement of a report sends to the address [a]: to the
    reporter of a validated report the stake and the reward, to each of
    its validators the voting stake and, for a [Valid] vote, the reward;
    to each validator of a rejected report the voting stake and, for an
    [Invalid] vote, an equal share of the stake of the reporter. *)
Lemma _finalizeReport_Some reportId st st' :
  _finalizeReport reportId st = Some st' →
  let report := rd (reports st) reportId in
  let isValid := invalidVotes report <? validVotes report in
  MIN_VALIDATORS ≤ N.of_nat (length (validators report))
  ∧ _reportIds st' = _reportIds st
  ∧ reports st' =
      <[reportId := set_status (if isValid then Validated else Rejected)
                      report]> (reports st)
  ∧ ∀ a,
      rd (accounts st') a =
      rd (accounts st) a
      + (if isValid then
           (if decide (reporter report = a)
            then stakeAmount report + REPORTER_REWARD else 0)
           + foldr N.add 0
               (map (λ v, rd (validatorStakes report) v
                          + (if bool_decide (rd (votes report) v = Valid)
                             then VALIDATOR_REWARD else 0))
                  (filter (λ v, v = a) (validators report)))
         else if 0 <? correctValidators report then
           foldr N.add 0
             (map (λ v, rd (validatorStakes report) v
                        + (if bool_decide (rd (votes report) v = Invalid)
                           then stakeAmount report / correctValidators report
                           else 0))
                (filter (λ v, v = a) (validators report)))
         else 0).
Proof.
  unfold _finalizeReport. intros H. simpl.
  apply bind_Some in H as (u & Hq%require_Some & H).
  apply N.leb_le in Hq. split; [done|].
  apply bind_Some in H as (s2 & H & Hrep).
  apply _updateValidatorReputation_Some in Hrep as (Hid & Hreports & _ & Hacc).
  rewrite Hid, Hreports, Hacc. clear Hid Hreports Hacc st'.
  destruct (invalidVotes (rd (reports st) reportId)
            <? validVotes (rd (reports st) reportId)) eqn:Hvalid.
  - run_inv H. apply add_Some in Hrun as ->.
    apply transfer_Some in Hrun0 as (_ & Hsame & _ & Ha).
    unfold _distributeValidatorRewards in H.
    destruct Hsame as (Hi & _ & Hr & _). simpl in Hi, Hr, Ha.
    rewrite Hr, rd_insert_eq in H. simpl in H.
    eapply forEach_transfer in H as (Hsame & _ & Ha');
      [|intros v s s'; apply rewardValidator_transfer].
    destruct Hsame as (Hi' & _ & Hr' & _).
    split; [congruence|]. split; [congruence|].
    intros a. rewrite Ha'. simpl. rewrite Ha, rd_insert.
    case_decide; subst; lia.
  - unfold _redistributeStake in H. simpl in H.
    rewrite rd_insert_eq in H. simpl in H.
    destruct (0 <? correctValidators _) eqn:Hc.
    + replace (correctValidators (set_status Rejected (rd (reports st) reportId)))
        with (correctValidators (rd (reports st) reportId)) in * by done.
      eapply forEach_transfer in H as (Hsame & _ & Ha');
        [|intros v s s'; apply redistributeTo_transfer].
      destruct Hsame as (Hi' & _ & Hr' & _).
      split; [done|]. split; [done|].
      intros a. rewrite Ha'. done.
    + replace (correctValidators (set_status Rejected (rd (reports st) reportId)))
        with (correctValidators (rd (reports st) reportId)) in * by done.
      injection H as <-. simpl.
      split; [done|]. split; [done|]. intros; lia.
Qed.

End RegistryFinalization.

(** ** StakeBasedReportRegistry: the invariant of the reachable states *)

Section RegistryInvariant.
Import StakeBasedReportRegistry.

Lemma existsb_eqb_false (a : address) (l : list address) :
  a ∉ l → existsb (λ v, v =? a) l = false.
Proof.
  induction l as [|v l IH]; [done|]. intros Hin. simpl.
  apply not_elem_of_cons in Hin as [Hne Hin].
  rewrite IH by done. rewrite orb_false_r. apply N.eqb_neq. congruence.
Qed.

Lemma length_filter_ext (P Q : address → Prop)
    `{∀ x, Decision (P x)} `{∀ x, Decision (Q x)} (l : list address) :
  (∀ x, x ∈ l → P x ↔ Q x) →
  length (filter P l) = length (filter Q l).
Proof.
  induction l as [|v l IH]; [done|]. intros Hext.
  rewrite !filter_cons.
  assert (P v ↔ Q v) as Hv by (apply Hext; left).
  assert (length (filter P l) = length (filter Q l)) as Hl
    by (apply IH; intros x Hx; apply Hext; by right).
  repeat case_decide; simpl; try tauto; lia.
Qed.

Lemma countVotes_recordVote vote m isValid r :
  sender m ∉ validators r →
  countVotes vote (recordVote m isValid r) =
  countVotes vote r
  + (if bool_decide ((if isValid then Valid else Invalid) = vote)
     then 1 else 0).
Proof.
  intros Hin. unfold countVotes. simpl.
  rewrite filter_app, length_app, filter_cons, filter_nil.
  rewrite rd_insert_eq.
  rewrite (length_filter_ext _ (λ v, rd (votes r) v = vote)).
  - case_decide as Hd; [rewrite bool_decide_eq_true_2 by done
                       |rewrite bool_decide_eq_false_2 by done];
      simpl; lia.
  - intros x Hx. rewrite rd_insert_ne; [done|]. intros <-. done.
Qed.

Lemma tallied_recordVote m isValid r :
  value m = VOTING_STAKE →
  rd (votes r) (sender m) = NoVote →
  tallied r → tallied (recordVote m isValid r).
Proof.
  intros Hvalue Hvote (Hnodup & Hlisted & Hstakes & Hvalid & Hinvalid).
  assert (sender m ∉ validators r) as Hin by (rewrite Hlisted; tauto).
  split; [|split; [|split; [|split]]].
  - simpl. apply NoDup_app. split; [done|]. split.
    + intros x Hx ->%list_elem_of_singleton. done.
    + apply NoDup_singleton.
  - intros v. simpl. rewrite elem_of_app, list_elem_of_singleton, rd_insert.
    case_decide as Hd.
    + subst v. split; [by destruct isValid|by right].
    + rewrite <- Hlisted. split; [intros [?|?]; [done|congruence]|by left].
  - intros v. simpl. rewrite elem_of_app, list_elem_of_singleton, rd_insert.
    case_decide as Hd; [done|]. intros [?|?]; [by apply Hstakes|congruence].
  - rewrite countVotes_recordVote by done. simpl. rewrite Hvalid.
    destruct isValid; simpl; lia.
  - rewrite countVotes_recordVote by done. simpl. rewrite Hinvalid.
    destruct isValid; simpl; lia.
Qed.

Lemma tallied_set_status s r : tallied r → tallied (set_status s r).
Proof. done. Qed.

Lemma tallied_zero : tallied zero.
Proof.
  split; [apply NoDup_nil_2|]. split; [|split; [|done]].
  - intros v. simpl. rewrite rd_empty. split; [by intros ?%elem_of_nil|done].
  - by intros v ?%elem_of_nil.
Qed.

(** A successful vote, seen from a state that satisfies the invariant:
    the vote is recorded by [recordVote], then the report is settled if
    the quorum is reached. *)
Lemma voteOnReport_Some m now reportId isValid st st' :
  invariant st →
  voteOnReport m now reportId isValid st = Some st' →
  let report := rd (reports st) reportId in
  let report' := recordVote m isValid report in
  value m = VOTING_STAKE
  ∧ value m ≤ rd (accounts st) (sender m)
  ∧ reportId ≤ _reportIds st
  ∧ now ≤ votingDeadline report
  ∧ status report = Pending
  ∧ rd (votes report) (sender m) = NoVote
  ∧ ∃ st2,
      _reportIds st2 = _reportIds st
      ∧ reports st2 = <[reportId := report']> (reports st)
      ∧ accounts st2 =
          <[sender m := rd (accounts st) (sender m) - value m]> (accounts st)
      ∧ if MIN_VALIDATORS <=? N.of_nat (length (validators report'))
        then _finalizeReport reportId st2 = Some st'
        else st' = st2.
Proof.
  intros [_ Hinv] H. unfold voteOnReport in H.
  apply bind_Some in H as (s1 & Hpay & H).
  apply pay_in_Some in Hpay as (Hfunds & Hsame & _ & Hacc).
  destruct Hsame as (Hids & _ & Hreports & _).
  rewrite Hids, Hreports in H. clear Hids Hreports.
  apply bind_Some in H as (? & Hactive%require_Some & H).
  apply bind_Some in H as (? & Hid%require_Some%N.leb_le & H).
  apply bind_Some in H as (? & Hopen%require_Some%N.leb_le & H).
  apply bind_Some in H as (? & Hpending%require_Some%bool_decide_eq_true & H).
  apply bind_Some in H as (? & Hvalue%require_Some%N.eqb_eq & H).
  apply bind_Some in H as (? & Hvote%require_Some%bool_decide_eq_true & H).
  apply bind_Some in H as (valid' & Hvalid' & H).
  apply bind_Some in H as (invalid' & Hinvalid' & H).
  simpl. do 6 (split; [done|]).
  destruct (Hinv reportId) as [(_ & Hlisted & _) _].
  assert (sender m ∉ validators (rd (reports st) reportId)) as Hin
    by (rewrite Hlisted; tauto).
  rewrite (existsb_eqb_false _ _ Hin) in H.
  assert (valid' = if isValid then validVotes (rd (reports st) reportId) + 1
                   else validVotes (rd (reports st) reportId)) as ->.
  { destruct isValid; [by apply add_Some in Hvalid'|congruence]. }
  assert (invalid' = if isValid then invalidVotes (rd (reports st) reportId)
                     else invalidVotes (rd (reports st) reportId) + 1) as ->.
  { destruct isValid; [congruence|by apply add_Some in Hinvalid']. }
  match type of H with
  | (if _ then _finalizeReport _ ?s else _) = _ => exists s
  end.
  do 3 (split; [done|]). simpl.
  destruct (MIN_VALIDATORS <=? _); [done|congruence].
Qed.

Lemma invariant_same st st' :
  _reportIds st' = _reportIds st → reports st' = reports st →
  invariant st → invariant st'.
Proof. unfold invariant. by intros -> ->. Qed.

Lemma invariant_insert st st' reportId r :
  reportId ≤ _reportIds st' →
  _reportIds st ≤ _reportIds st' →
  (∀ j, _reportIds st' < j → reports st !! j = None) →
  reports st' = <[reportId := r]> (reports st) →
  tallied r → quorumBounded r →
  invariant st → invariant st'.
Proof.
  intros Hle Hmono Hfresh' Hreports Hr Hq [Hfresh Hinv]. split.
  - intros j Hj. rewrite Hreports, lookup_insert_ne by lia. by apply Hfresh'.
  - intros j. rewrite Hreports, rd_insert. case_decide; [done|apply Hinv].
Qed.

Lemma voteOnReport_invariant m now reportId isValid st st' :
  invariant st →
  voteOnReport m now reportId isValid st = Some st' → invariant st'.
Proof.
  intros Hinv H. pose proof H as Hvote.
  apply voteOnReport_Some in H
    as (Hvalue & _ & Hid & _ & Hpending & Hvote' & st2 & Hids & Hreports
        & _ & H); [|done].
  destruct (Hinv) as [Hfresh Hreportsinv].
  destruct (Hreportsinv reportId) as [Htallied [Hlen Hpend]].
  specialize (Hpend Hpending).
  pose proof (tallied_recordVote m isValid _ Hvalue Hvote' Htallied) as Ht'.
  set (report' := recordVote m isValid (rd (reports st) reportId)) in *.
  assert (N.of_nat (length (validators report'))
          = N.of_nat (length (validators (rd (reports st) reportId))) + 1)
    as Hlen'.
  { subst report'. simpl. rewrite length_app. simpl. lia. }
  destruct (MIN_VALIDATORS <=? N.of_nat (length (validators report')))
    eqn:Hquorum.
  - apply _finalizeReport_Some in H as (_ & Hids' & Hreports' & _).
    rewrite Hreports, rd_insert_eq, insert_insert_eq in Hreports'.
    eapply invariant_insert; [| | |exact Hreports'| | |exact Hinv].
    + lia.
    + lia.
    + intros j Hj. apply Hfresh. lia.
    + by apply tallied_set_status.
    + split.
      * change (N.of_nat (length (validators report')) ≤ MIN_VALIDATORS).
        unfold MIN_VALIDATORS in *. lia.
      * simpl. by destruct (_ <? _).
  - subst st'. apply N.leb_gt in Hquorum.
    eapply invariant_insert; [| | |exact Hreports| | |exact Hinv].
    + lia.
    + lia.
    + intros j Hj. apply Hfresh. lia.
    + done.
    + split; [lia|done].
Qed.

Lemma submitReportWithStake_invariant m now ty target desc h st st' :
  invariant st →
  submitReportWithStake m now ty target desc h st = Some st' →
  invariant st'.
Proof.
  intros Hinv H. unfold submitReportWithStake in H.
  apply bind_Some in H as (s1 & Hpay & H).
  apply pay_in_Some in Hpay as (_ & Hsame & _ & _).
  destruct Hsame as (Hids & _ & Hreports & _).
  run_inv H. injection H as <-.
  rewrite Hids, Hreports in *.
  destruct Hinv as [Hfresh Hreportsinv].
  assert (rd (reports st) (_reportIds st + 1) = zero) as Hslot.
  { unfold rd. rewrite Hfresh by lia. done. }
  rewrite Hslot.
  eapply invariant_insert; [| | |simpl; reflexivity| | |by split]; simpl.
  - lia.
  - lia.
  - intros j Hj. apply Hfresh. lia.
  - apply tallied_zero.
  - split; simpl; unfold MIN_VALIDATORS; lia.
Qed.

Lemma step_invariant st st' : invariant st → step st st' → invariant st'.
Proof.
  intros Hinv [[caller now|m now ty target desc h
               |m now reportId isValid|caller|m] H]; simpl in H.
  - unfold registerValidator in H. run_inv H. injection H as <-.
    by eapply invariant_same.
  - by eapply submitReportWithStake_invariant.
  - by eapply voteOnReport_invariant.
  - unfold emergencyWithdraw in H. run_inv H.
    apply transfer_Some in H as (_ & (Hi & _ & Hr & _) & _).
    by eapply invariant_same.
  - apply pay_in_Some in H as (_ & (Hi & _ & Hr & _) & _).
    by eapply invariant_same.
Qed.

Lemma init_invariant deployer funds : invariant (init deployer funds).
Proof.
  split; [done|]. intros j. simpl. rewrite rd_empty.
  split; [apply tallied_zero|]. split; simpl; unfold MIN_VALIDATORS; lia.
Qed.

Lemma reachable_invariant st : reachable st → invariant st.
Proof.
  intros (deployer & funds & Hrtc). revert st Hrtc. apply rtc_ind_r.
  - apply init_invariant.
  - intros s1 s2 _ Hstep IH. by eapply step_invariant.
Qed.

End RegistryInvariant.

(** ** StakeBasedReportRegistry: settlement of a report *)

Section RegistrySettlement.
Import StakeBasedReportRegistry.

Lemma run_rtc calls st st' : run calls st = Some st' → rtc step st st'.
Proof.
  unfold run. revert st. induction calls as [|c calls IH]; intros st H.
  - injection H as <-. apply rtc_refl.
  - simpl in H. apply bind_Some in H as (s1 & H1 & H).
    eapply rtc_l; [by exists c|by apply IH].
Qed.

Lemma run_reachable calls deployer funds st :
  run calls (init deployer funds) = Some st → reachable st.
Proof. intros H. exists deployer, funds. by eapply run_rtc. Qed.

(** The vote that completes the quorum: the report stored afterwards is
    the recorded vote with its final status, and every account has paid
    its stake and received its part of the settlement. *)
Lemma quorum_vote m now reportId isValid st st' :
  invariant st →
  voteOnReport m now reportId isValid st = Some st' →
  MIN_VALIDATORS ≤ N.of_nat (length (validators (rd (reports st') reportId))) →
  ∃ report',
    report' = recordVote m isValid (rd (reports st) reportId)
    ∧ tallied report'
    ∧ value m = VOTING_STAKE
    ∧ value m ≤ rd (accounts st) (sender m)
    ∧ ∃ st2,
        rd (reports st2) reportId = report'
        ∧ accounts st2 =
            <[sender m := rd (accounts st) (sender m) - value m]>
              (accounts st)
        ∧ _finalizeReport reportId st2 = Some st'.
Proof.
  intros Hinv H Hquorum.
  destruct (proj2 Hinv reportId) as [Htallied [_ Hpend]].
  apply voteOnReport_Some in H
    as (Hvalue & Hfunds & _ & _ & Hpending & Hvote & st2 & _ & Hreports
        & Hacc & H); [|done].
  eexists. split; [done|].
  split; [by apply tallied_recordVote|]. do 2 (split; [done|]).
  exists st2. split; [by rewrite Hreports, rd_insert_eq|]. split; [done|].
  destruct (MIN_VALIDATORS <=? _) eqn:Hq; [done|]. exfalso.
  subst st'. rewrite Hreports, rd_insert_eq in Hquorum.
  apply N.leb_gt in Hq. lia.
Qed.

End RegistrySettlement.

Section RegistryClaims.
Import StakeBasedReportRegistry.

(** C2. Validated-outcome settlement.  When the vote that completes the
    quorum of a report leaves more [Valid] than [Invalid] votes, the
    report becomes [Validated] and the call settles it: the reporter
    receives the report stake and [REPORTER_REWARD], each validator gets
    [VOTING_STAKE] back, and [VALIDATOR_REWARD] on top exactly when the
    vote was [Valid].  The balance of every address [a] is given, the
    voter having paid the stake of this vote; the terms add up for an
    address that is both the reporter and a validator. *)
Theorem validated_settlement m now reportId isValid st st' :
  reachable st →
  voteOnReport m now reportId isValid st = Some st' →
  let report := rd (reports st') reportId in
  MIN_VALIDATORS ≤ N.of_nat (length (validators report)) →
  invalidVotes report < validVotes report →
  status report = Validated
  ∧ ∀ a,
      rd (accounts st') a
      + (if decide (a = sender m) then VOTING_STAKE else 0)
      = rd (accounts st) a
        + (if decide (a = reporter report)
           then stakeAmount report + REPORTER_REWARD else 0)
        + (if decide (a ∈ validators report)
           then VOTING_STAKE
                + (if decide (rd (votes report) a = Valid)
                   then VALIDATOR_REWARD else 0)
           else 0).
Proof.
  intros Hinv%reachable_invariant Hvote report Hquorum Hmajority.
  subst report.
  destruct (quorum_vote _ _ _ _ _ _ Hinv Hvote Hquorum)
    as (report' & _ & Htallied & Hvalue & Hfunds & st2 & Hreport' & Hacc
        & Hfinal).
  apply _finalizeReport_Some in Hfinal as (_ & _ & Hreports & Hpaid).
  simpl in Hreports, Hpaid. rewrite Hreport' in Hreports, Hpaid.
  rewrite Hreports, rd_insert_eq in Hmajority |- *.
  simpl in Hmajority |- *.
  apply N.ltb_lt in Hmajority. rewrite Hmajority in Hpaid |- *.
  split; [done|]. intros a. rewrite Hpaid, Hacc, rd_insert.
  destruct Htallied as (Hnodup & _ & Hstakes & _).
  rewrite foldr_add_filter_NoDup by done.
  rewrite Hvalue in *.
  destruct (decide (a ∈ validators report')) as [Hin|Hin].
  - rewrite bool_decide_eq_true_2 by done. rewrite (Hstakes a Hin).
    repeat case_decide; repeat case_bool_decide; subst; try done; lia.
  - rewrite bool_decide_eq_false_2 by done.
    repeat case_decide; subst; try done; lia.
Qed.

(** C3. Rejected-outcome settlement.  When the vote that completes the
    quorum leaves no more [Valid] than [Invalid] votes, the report becomes
    [Rejected], the reporter receives nothing (the stake is forfeited),
    and at least one validator voted [Invalid]: each validator gets
    [VOTING_STAKE] back, and those that voted [Invalid] get on top an
    equal share of the report stake, [stakeAmount / n] for [n] such
    validators (the remainder of the division stays in the contract). *)
Theorem rejected_settlement m now reportId isValid st st' :
  reachable st →
  voteOnReport m now reportId isValid st = Some st' →
  let report := rd (reports st') reportId in
  MIN_VALIDATORS ≤ N.of_nat (length (validators report)) →
  validVotes report ≤ invalidVotes report →
  status report = Rejected
  ∧ 0 < countVotes Invalid report
  ∧ ∀ a,
      rd (accounts st') a
      + (if decide (a = sender m) then VOTING_STAKE else 0)
      = rd (accounts st) a
        + (if decide (a ∈ validators report)
           then VOTING_STAKE
                + (if decide (rd (votes report) a = Invalid)
                   then stakeAmount report / countVotes Invalid report
                   else 0)
           else 0).
Proof.
  intros Hinv%reachable_invariant Hvote report Hquorum Hmajority.
  subst report.
  destruct (quorum_vote _ _ _ _ _ _ Hinv Hvote Hquorum)
    as (report' & _ & Htallied & Hvalue & Hfunds & st2 & Hreport' & Hacc
        & Hfinal).
  apply _finalizeReport_Some in Hfinal as (_ & _ & Hreports & Hpaid).
  simpl in Hreports, Hpaid. rewrite Hreport' in Hreports, Hpaid.
  rewrite Hreports, rd_insert_eq in Hmajority, Hquorum |- *.
  simpl in Hmajority, Hquorum |- *.
  apply N.ltb_ge in Hmajority as Hbranch. rewrite Hbranch in Hpaid |- *.
  split; [done|].
  destruct Htallied as (Hnodup & Hlisted & Hstakes & Hvalid & Hinvalid).
  assert (countVotes Valid report' + countVotes Invalid report'
          = N.of_nat (length (validators report'))) as Hall.
  { unfold countVotes. clear -Hlisted.
    assert (∀ v, v ∈ validators report' → rd (votes report') v ≠ NoVote)
      as Hl by (intros v; apply Hlisted).
    clear Hlisted. induction (validators report') as [|v l IH]; [done|].
    rewrite !filter_cons.
    assert (rd (votes report') v ≠ NoVote) by (apply Hl; left).
    assert (∀ v, v ∈ l → rd (votes report') v ≠ NoVote) as Hl'
      by (intros ??; apply Hl; by right).
    specialize (IH Hl').
    destruct (rd (votes report') v); repeat case_decide; simpl; try done; lia. }
  assert (0 < countVotes Invalid report') as Hpos
    by (unfold MIN_VALIDATORS in *; lia).
  change (correctValidators report') with (countVotes Invalid report')
    in Hpaid.
  apply N.ltb_lt in Hpos as Hpos'. rewrite Hpos' in Hpaid.
  split; [done|]. intros a. rewrite Hpaid, Hacc, rd_insert.
  rewrite foldr_add_filter_NoDup by done.
  rewrite Hvalue in *.
  change (countVotes Invalid (set_status Rejected report'))
    with (countVotes Invalid report').
  destruct (decide (a ∈ validators report')) as [Hin|Hin].
  - rewrite bool_decide_eq_true_2 by done. rewrite (Hstakes a Hin).
    repeat case_decide; repeat case_bool_decide; subst; try done; lia.
  - rewrite bool_decide_eq_false_2 by done.
    repeat case_decide; subst; try done; lia.
Qed.

End RegistryClaims.

Section RegistryWitnesses.
Import StakeBasedReportRegistry RegistryScenarios.

Lemma twoValid_reachable : reachable twoValid.
Proof. apply (run_reachable scenarioA deployer funds). by vm_compute. Qed.

Lemma twoInvalid_reachable : reachable twoInvalid.
Proof. apply (run_reachable scenarioB deployer funds). by vm_compute. Qed.

Lemma twoReports_reachable : reachable twoReports.
Proof. apply (run_reachable unfunded deployer funds). by vm_compute. Qed.

Lemma oneVote_reachable : reachable oneVote.
Proof. apply (run_reachable stale deployer funds). by vm_compute. Qed.

(** Scenario A: the reporter 1 and the validators 2, 3 (valid) and 4
    (invalid) of report 1. *)
Lemma validated_settlement_witness :
  status (rd (reports validated) 1) = Validated
  ∧ rd (accounts validated) 1 = ether + REPORTER_REWARD
  ∧ rd (accounts validated) 2 = ether + VALIDATOR_REWARD
  ∧ rd (accounts validated) 3 = ether + VALIDATOR_REWARD
  ∧ rd (accounts validated) 4 = ether.
Proof.
  destruct (validated_settlement (mkMsg 4 VOTING_STAKE) 30 1 false
              twoValid validated twoValid_reachable)
    as [Hstatus Hpaid].
  - vm_compute. reflexivity.
  - vm_compute. discriminate.
  - vm_compute. reflexivity.
  - split; [exact Hstatus|].
    pose proof (Hpaid 1) as H1. pose proof (Hpaid 2) as H2.
    pose proof (Hpaid 3) as H3. pose proof (Hpaid 4) as H4.
    vm_compute in H1, H2, H3, H4. vm_compute.
    repeat split; congruence.
Defined.

(** The rewards of a validated report come out of the ether of the
    contract: when it holds the stakes and nothing else, the vote that
    would validate report 1 reverts, whichever way it goes, and the report
    stays pending. *)
Lemma validation_needs_funds :
  run scenarioA_unfunded start = Some twoValidUnfunded
  ∧ balance twoValidUnfunded = REPORT_STAKE + 2 * VOTING_STAKE
  ∧ voteOnReport (mkMsg 4 VOTING_STAKE) 30 1 false twoValidUnfunded = None
  ∧ voteOnReport (mkMsg 4 VOTING_STAKE) 30 1 true twoValidUnfunded = None.
Proof. by_evaluation. Qed.

(** Scenario B: the validators 2 and 3 (invalid) share the stake of the
    reporter 1, the validator 4 (valid) recovers its stake only. *)
Lemma rejected_settlement_witness :
  status (rd (reports rejected) 1) = Rejected
  ∧ rd (accounts rejected) 1 + REPORT_STAKE = ether
  ∧ rd (accounts rejected) 2 = ether + REPORT_STAKE / 2
  ∧ rd (accounts rejected) 3 = ether + REPORT_STAKE / 2
  ∧ rd (accounts rejected) 4 = ether.
Proof.
  destruct (rejected_settlement (mkMsg 4 VOTING_STAKE) 30 1 true
              twoInvalid rejected twoInvalid_reachable)
    as (Hstatus & _ & Hpaid).
  - vm_compute. reflexivity.
  - vm_compute. discriminate.
  - vm_compute. discriminate.
  - split; [exact Hstatus|].
    pose proof (Hpaid 1) as H1. pose proof (Hpaid 2) as H2.
    pose proof (Hpaid 3) as H3. pose proof (Hpaid 4) as H4.
    vm_compute in H1, H2, H3, H4. vm_compute.
    repeat split; congruence.
Defined.

End RegistryWitnesses.

(** ** StakeBasedReportRegistry: quorum and deadline *)

Section RegistryQuorum.
Import StakeBasedReportRegistry RegistryScenarios.

Lemma reachable_step st st' : reachable st → step st st' → reachable st'.
Proof.
  intros (deployer & funds & Hrtc) Hstep. exists deployer, funds.
  by eapply rtc_r.
Qed.

(** A vote on a report that is not pending reverts. *)
Lemma voteOnReport_not_pending m now reportId isValid st :
  status (rd (reports st) reportId) ≠ Pending →
  voteOnReport m now reportId isValid st = None.
Proof.
  intros Hstatus. destruct (voteOnReport _ _ _ _ _) as [st'|] eqn:H; [|done].
  exfalso. unfold voteOnReport in H.
  apply bind_Some in H as (s1 & Hpay & H).
  apply pay_in_Some in Hpay as (_ & (_ & _ & Hreports & _) & _).
  rewrite Hreports in H.
  apply bind_Some in H as (? & _ & H).
  apply bind_Some in H as (? & _ & H).
  apply bind_Some in H as (? & _ & H).
  apply bind_Some in H as (? & Hpending%require_Some%bool_decide_eq_true & H).
  done.
Qed.

(** A vote after the voting deadline reverts. *)
Lemma voteOnReport_closed m now reportId isValid st :
  votingDeadline (rd (reports st) reportId) < now →
  voteOnReport m now reportId isValid st = None.
Proof.
  intros Hlate. destruct (voteOnReport _ _ _ _ _) as [st'|] eqn:H; [|done].
  exfalso. unfold voteOnReport in H.
  apply bind_Some in H as (s1 & Hpay & H).
  apply pay_in_Some in Hpay as (_ & (_ & _ & Hreports & _) & _).
  rewrite Hreports in H.
  apply bind_Some in H as (? & _ & H).
  apply bind_Some in H as (? & _ & H).
  apply bind_Some in H as (? & Hopen%require_Some%N.leb_le & H).
  lia.
Qed.

(** C10. Implicit quorum-size bound.  In every reachable state the
    validators of a report are listed once each and there are at most
    [MIN_VALIDATORS] = 3 of them, so fewer than [MAX_VALIDATORS] = 5: a
    report that has its three validators was settled by the vote of the
    third, is not pending any more, and every further vote on it
    reverts. *)
Theorem quorum_size_bound st reportId :
  reachable st →
  let report := rd (reports st) reportId in
  NoDup (validators report)
  ∧ N.of_nat (length (validators report)) ≤ MIN_VALIDATORS
  ∧ N.of_nat (length (validators report)) < MAX_VALIDATORS
  ∧ (N.of_nat (length (validators report)) = MIN_VALIDATORS →
     status report ≠ Pending
     ∧ ∀ m now isValid, voteOnReport m now reportId isValid st = None).
Proof.
  intros [_ Hinv]%reachable_invariant report.
  destruct (Hinv reportId) as [(Hnodup & _) [Hlen Hpending]].
  fold report in Hlen, Hpending, Hnodup.
  split; [done|]. split; [done|].
  split; [unfold MIN_VALIDATORS, MAX_VALIDATORS in *; lia|].
  intros Hfull.
  assert (status report ≠ Pending) as Hsettled
    by (intros Hp; specialize (Hpending Hp); lia).
  split; [done|]. intros m now isValid.
  by apply voteOnReport_not_pending.
Qed.

Lemma validated_reachable : reachable validated.
Proof.
  eapply reachable_step; [apply twoValid_reachable|].
  exists (VoteOnReport (mkMsg 4 VOTING_STAKE) 30 1 false).
  vm_compute. reflexivity.
Qed.

(** Report 1 after scenario A: three validators, settled, and a fourth
    validator cannot vote. *)
Lemma quorum_size_bound_witness :
  validators (rd (reports validated) 1) = [2; 3; 4]
  ∧ status (rd (reports validated) 1) ≠ Pending
  ∧ voteOnReport (mkMsg 5 VOTING_STAKE) 31 1 true validated = None.
Proof.
  destruct (quorum_size_bound validated 1 validated_reachable)
    as (_ & _ & _ & Hfull).
  destruct Hfull as [Hsettled Hnovote]; [vm_compute; reflexivity|].
  split; [vm_compute; reflexivity|]. split; [exact Hsettled|].
  apply Hnovote.
Defined.

Lemma step_never_expired st st' :
  invariant st →
  (∀ reportId, status (rd (reports st) reportId) ≠ Expired) →
  step st st' →
  ∀ reportId, status (rd (reports st') reportId) ≠ Expired.
Proof.
  intros Hinv Hnever [[caller now|m now ty target desc h
                      |m now reportId isValid|caller|m] H] j; simpl in H.
  - unfold registerValidator in H. run_inv H. injection H as <-. apply Hnever.
  - unfold submitReportWithStake in H.
    apply bind_Some in H as (s1 & Hpay & H).
    apply pay_in_Some in Hpay as (_ & (Hids & _ & Hreports & _) & _).
    run_inv H. injection H as <-. simpl.
    rewrite rd_insert, Hreports. case_decide; [done|apply Hnever].
  - apply voteOnReport_Some in H
      as (_ & _ & _ & _ & Hpending & _ & st2 & _ & Hreports & _ & H);
      [|done].
    destruct (MIN_VALIDATORS <=? _).
    + apply _finalizeReport_Some in H as (_ & _ & Hreports' & _).
      rewrite Hreports', rd_insert. case_decide.
      * simpl. by destruct (_ <? _).
      * rewrite Hreports, rd_insert_ne by done. apply Hnever.
    + subst st'. rewrite Hreports, rd_insert. case_decide.
      * simpl. by rewrite Hpending.
      * apply Hnever.
  - unfold emergencyWithdraw in H. run_inv H.
    apply transfer_Some in H as (_ & (_ & _ & -> & _) & _). apply Hnever.
  - apply pay_in_Some in H as (_ & (_ & _ & -> & _) & _). apply Hnever.
Qed.

Lemma reachable_never_expired st reportId :
  reachable st → status (rd (reports st) reportId) ≠ Expired.
Proof.
  intros (deployer & funds & Hrtc).
  enough (invariant st
          ∧ ∀ reportId, status (rd (reports st) reportId) ≠ Expired)
    as [_ H] by apply H.
  clear reportId. revert st Hrtc. apply rtc_ind_r.
  - split; [apply init_invariant|]. intros j. simpl. by rewrite rd_empty.
  - intros s1 s2 _ Hstep [Hinv Hnever]. split.
    + by eapply step_invariant.
    + by eapply step_never_expired.
Qed.

(** C5, as the registry has it.  No call assigns [Expired]: no report of
    a reachable state has that status.  A vote after the deadline of a
    report reverts, which leaves the report as it was, and [getReport]
    returns the report as it is stored. *)
Theorem expired_is_never_assigned :
  (∀ st reportId,
     reachable st → status (rd (reports st) reportId) ≠ Expired)
  ∧ (∀ m now reportId isValid st,
       votingDeadline (rd (reports st) reportId) < now →
       voteOnReport m now reportId isValid st = None)
  ∧ (∀ reportId st report,
       getReport reportId st = Some report →
       report = rd (reports st) reportId).
Proof.
  split; [|split].
  - intros st reportId. apply reachable_never_expired.
  - intros m now reportId isValid st. apply voteOnReport_closed.
  - intros reportId st report H. unfold getReport in H. run_inv H.
    congruence.
Qed.

(** Report 1 of [oneVote] is pending with one vote and its deadline has
    passed at [afterDeadline]: a vote reverts and a read still shows
    [Pending]. *)
Lemma expired_is_never_assigned_witness :
  status (rd (reports oneVote) 1) ≠ Expired
  ∧ voteOnReport (mkMsg 3 VOTING_STAKE) afterDeadline 1 true oneVote = None
  ∧ getReport 1 oneVote = Some (rd (reports oneVote) 1).
Proof.
  destruct expired_is_never_assigned as (Hnever & Hclosed & Hread).
  split; [apply Hnever, oneVote_reachable|].
  split; [apply Hclosed; vm_compute; reflexivity|].
  destruct (getReport 1 oneVote) as [report|] eqn:H;
    [|vm_compute in H; discriminate].
  by rewrite (Hread 1 oneVote report H).
Defined.

(** C5 as stated fails: report 1 of [oneVote] is pending, its deadline
    has passed at [afterDeadline] and it has one vote of the three; a
    write that touches it (a vote) reverts and a read returns it, and
    its status is [Pending] afterwards, not [Expired]. *)
Lemma lazy_expiry_counterexample :
  status (rd (reports oneVote) 1) = Pending
  ∧ votingDeadline (rd (reports oneVote) 1) < afterDeadline
  ∧ N.of_nat (length (validators (rd (reports oneVote) 1))) < MIN_VALIDATORS
  ∧ voteOnReport (mkMsg 3 VOTING_STAKE) afterDeadline 1 true oneVote = None
  ∧ ∃ report, getReport 1 oneVote = Some report
              ∧ status report = Pending ∧ status report ≠ Expired.
Proof.
  do 4 (split; [by_evaluation|]).
  eexists. split; [vm_compute; reflexivity|]. split; [reflexivity|discriminate].
Qed.

End RegistryQuorum.

(** ** StakeBasedReportRegistry: the ether of the system *)

Section RegistryEther.
Import StakeBasedReportRegistry RegistryScenarios.

Lemma updateOne_totalEther reportId validator st st' :
  updateOne reportId validator st = Some st' →
  totalEther st' = totalEther st.
Proof. by intros (val & ->)%updateOne_Some. Qed.

Lemma _finalizeReport_totalEther reportId st st' :
  _finalizeReport reportId st = Some st' → totalEther st' = totalEther st.
Proof.
  unfold _finalizeReport. intros H.
  apply bind_Some in H as (? & _ & H).
  apply bind_Some in H as (s2 & H & Hrep).
  transitivity (totalEther s2).
  { unfold _updateValidatorReputation in Hrep.
    eapply (forEach_invariant (λ s, totalEther s = totalEther s2));
      [|reflexivity|exact Hrep].
    intros v s s' _ <-. apply updateOne_totalEther. }
  clear Hrep st'. destruct (_ <? _).
  - apply bind_Some in H as (? & _ & H).
    apply bind_Some in H as (s1 & Hpay%transfer_totalEther & H).
    unfold _distributeValidatorRewards in H.
    eapply (forEach_invariant (λ s, totalEther s = totalEther st));
      [|exact Hpay|exact H].
    intros v s s' _ <- Hv. eapply transfer_totalEther.
    by apply rewardValidator_transfer.
  - unfold _redistributeStake in H. destruct (0 <? _).
    + eapply (forEach_invariant (λ s, totalEther s = totalEther st));
        [| |exact H]; [|done].
      intros v s s' _ <- Hv. eapply transfer_totalEther.
      by apply redistributeTo_transfer.
    + by injection H as <-.
Qed.

(** Every transaction moves ether between the accounts and the contract
    and neither creates nor destroys any. *)
Lemma step_totalEther st st' : step st st' → totalEther st' = totalEther st.
Proof.
  intros [[caller now|m now ty target desc h
          |m now reportId isValid|caller|m] H]; simpl in H.
  - unfold registerValidator in H. run_inv H. by injection H as <-.
  - unfold submitReportWithStake in H.
    apply bind_Some in H as (s1 & Hpay%pay_in_totalEther & H).
    run_inv H. by injection H as <-.
  - unfold voteOnReport in H.
    apply bind_Some in H as (s1 & Hpay%pay_in_totalEther & H).
    run_inv H. destruct (MIN_VALIDATORS <=? _).
    + apply _finalizeReport_totalEther in H. by rewrite H.
    + by injection H as <-.
  - unfold emergencyWithdraw in H. run_inv H.
    by apply transfer_totalEther in H.
  - by apply pay_in_totalEther in H.
Qed.

Lemma rtc_totalEther st st' :
  rtc step st st' → totalEther st' = totalEther st.
Proof.
  induction 1 as [|s1 s2 s3 Hstep _ IH]; [done|].
  rewrite IH. by apply step_totalEther.
Qed.

(** While the contract holds at least the stakes that are locked, the
    value of the registry is the ether of the system. *)
Lemma totalValue_solvent st :
  lockedBalance st ≤ balance st → totalValue st = totalEther st.
Proof.
  unfold totalValue, totalEther, rewardPoolBalance, spendableBalance. lia.
Qed.

(** C1 as stated fails in the registry.  In [twoReports] two reports are
    pending and the contract holds their stakes and nothing else.  The
    vote that validates report 1 pays the rewards of its reporter and of
    its three validators: what the accounts can spend plus what is locked
    rises by these rewards, which no reward pool covers, and the contract
    is left with less than the stake that report 2 still locks. *)
Lemma conservation_counterexample :
  reachable twoReports
  ∧ voteOnReport (mkMsg 4 VOTING_STAKE) 30 1 true twoReports = Some overpaid
  ∧ rewardPoolBalance twoReports = 0
  ∧ rewardPoolBalance overpaid = 0
  ∧ totalValue overpaid
    = totalValue twoReports + (REPORTER_REWARD + 3 * VALIDATOR_REWARD)
  ∧ totalValue overpaid ≠ totalValue twoReports
  ∧ lockedBalance overpaid = REPORT_STAKE
  ∧ balance overpaid < lockedBalance overpaid.
Proof. split; [apply twoReports_reachable|]. by_evaluation. Qed.

End RegistryEther.

(** ** ReputationSystem: stakes and reputation *)

Section Ledger.
Import ReputationSystem LedgerScenarios.

Lemma updateStakedReputation_Some user st st' :
  _updateStakedReputation user st = Some st' →
  ∃ p, st' = set_profile user p st
       ∧ baseReputation p = baseReputation (rd (reputationProfiles st) user).
Proof.
  unfold _updateStakedReputation. intros H.
  apply bind_Some in H as (totalStaked & _ & H).
  apply bind_Some in H as (total & _ & H).
  injection H as <-. eauto.
Qed.

Lemma safeTransfer_Some to amount st st' :
  safeTransfer to amount st = Some st' →
  amount ≤ held st
  ∧ st' = mkState (<[to := rd (token st) to + amount]> (token st))
            (held st - amount) (_stakeCounter st) (reputationProfiles st)
            (userStakes st) (userStakeCount st) (tierThresholds st)
            (tierMultipliers st) (stakeTypeMultipliers st)
            (pendingRewards st) (lastRewardClaim st) (rewardPool st)
            (paused st) (owner st) (this st).
Proof.
  unfold safeTransfer. intros H.
  apply bind_Some in H as (? & Hle%require_Some%N.leb_le & H).
  by injection H as <-.
Qed.

(** What a successful withdrawal does, with the penalty it withholds. *)
Lemma withdrawStake_Some caller now stakeId st st' :
  withdrawStake caller now stakeId st = Some st' →
  let stake := rd (userStakes st) (caller, stakeId) in
  let penalty :=
    if now <? timestamp stake + lockPeriod stake
    then amount stake * SLASHING_PENALTY / 100 else 0 in
  active stake = true
  ∧ 0 < amount stake
  ∧ penalty ≤ amount stake
  ∧ token st' =
      <[caller := rd (token st) caller + (amount stake - penalty)]>
        (token st)
  ∧ held st' = held st - (amount stake - penalty)
  ∧ userStakes st' =
      <[(caller, stakeId) :=
          mkStake (amount stake) (timestamp stake) (lockPeriod stake)
            (stakeType stake) false (reputationMultiplier stake)]>
        (userStakes st)
  ∧ totalRewards (rewardPool st') = totalRewards (rewardPool st) + penalty
  ∧ pendingRewards st' = pendingRewards st
  ∧ _stakeCounter st' = _stakeCounter st.
Proof.
  unfold withdrawStake. intros H.
  apply bind_Some in H as (? & _ & H).
  apply bind_Some in H as (? & Hpos%require_Some%N.ltb_lt & H).
  apply bind_Some in H as (? & Hactive%require_Some & H).
  apply bind_Some in H as (unlockTime & ->%add_Some & H).
  apply bind_Some in H as ([penalty withdrawAmount] & Hpenalty & H).
  apply bind_Some in H as (count & _ & H).
  apply bind_Some in H as (s1 & (p & -> & _)%updateStakedReputation_Some & H).
  apply bind_Some in H as (s2 & (_ & ->)%safeTransfer_Some & H).
  simpl in H |- *.
  assert (penalty =
            (if now <? timestamp (rd (userStakes st) (caller, stakeId))
                       + lockPeriod (rd (userStakes st) (caller, stakeId))
             then amount (rd (userStakes st) (caller, stakeId))
                  * SLASHING_PENALTY / 100 else 0)
          ∧ penalty ≤ amount (rd (userStakes st) (caller, stakeId))
          ∧ withdrawAmount
            = amount (rd (userStakes st) (caller, stakeId)) - penalty)
    as (Hp & Hle & ->).
  { destruct (now <? _).
    - apply bind_Some in Hpenalty as (scaled & Hscaled & Hpenalty).
      apply bind_Some in Hpenalty as (w & (Hle & ->)%sub_Some & Hpenalty).
      injection Hpenalty as <- <-.
      apply mul_Some in Hscaled as ->. done.
    - injection Hpenalty as <- <-. split; [done|]. split; lia. }
  rewrite <- Hp. do 3 (split; [done|]).
  destruct (0 <? penalty) eqn:Hzero.
  - apply bind_Some in H as (total & ->%add_Some & H). by injection H as <-.
  - injection H as <-. simpl. apply N.ltb_ge in Hzero.
    repeat split; try done. lia.
Qed.

(** C8. Early-withdrawal penalty.  A withdrawal deactivates the stake.
    Strictly before the lock period has elapsed the owner receives the
    amount less the penalty of [SLASHING_PENALTY] = 10 percent (rounded
    down) and the penalty is added to the reward pool; at or after the
    end of the lock period the owner receives the whole amount and the
    reward pool is unchanged. *)
Theorem early_withdrawal_penalty caller now stakeId st st' :
  withdrawStake caller now stakeId st = Some st' →
  let stake := rd (userStakes st) (caller, stakeId) in
  let penalty := amount stake * SLASHING_PENALTY / 100 in
  active stake = true
  ∧ active (rd (userStakes st') (caller, stakeId)) = false
  ∧ (now < timestamp stake + lockPeriod stake →
     rd (token st') caller + penalty = rd (token st) caller + amount stake
     ∧ totalRewards (rewardPool st')
       = totalRewards (rewardPool st) + penalty)
  ∧ (timestamp stake + lockPeriod stake ≤ now →
     rd (token st') caller = rd (token st) caller + amount stake
     ∧ totalRewards (rewardPool st') = totalRewards (rewardPool st)).
Proof.
  intros (Hactive & _ & Hle & Htoken & _ & Hstakes & Hpool & _)
           %withdrawStake_Some.
  simpl. split; [done|].
  split; [by rewrite Hstakes, rd_insert_eq|].
  rewrite Htoken, rd_insert_eq, Hpool. split.
  - intros Hearly%N.ltb_lt. rewrite Hearly in *. lia.
  - intros Hlate%N.ltb_ge. rewrite Hlate in *. lia.
Qed.

End Ledger.

Section LedgerClaims.
Import ReputationSystem LedgerScenarios.

(** Scenario E: 1000 tokens withdrawn one second early return 900, the
    100 withheld go to the reward pool and the stake is inactive; at the
    end of the lock period the 1000 tokens return and the pool is
    empty. *)
Lemma early_withdrawal_penalty_witness :
  active (rd (userStakes withdrawnEarly) (1, 1)) = false
  ∧ rd (token withdrawnEarly) 1 = rd (token staked) 1 + 900 * ether
  ∧ totalRewards (rewardPool withdrawnEarly) = 100 * ether
  ∧ rd (token withdrawnOnTime) 1 = rd (token staked) 1 + 1000 * ether
  ∧ totalRewards (rewardPool withdrawnOnTime) = 0.
Proof.
  destruct (early_withdrawal_penalty 1 early 1 staked withdrawnEarly)
    as (_ & Hinactive & Hearly & _); [vm_compute; reflexivity|].
  destruct (early_withdrawal_penalty 1 onTime 1 staked withdrawnOnTime)
    as (_ & _ & _ & Hlate); [vm_compute; reflexivity|].
  destruct Hearly as [Htoken Hpool]; [vm_compute; reflexivity|].
  destruct Hlate as [Htoken' Hpool']; [vm_compute; discriminate|].
  split; [exact Hinactive|].
  vm_compute in Htoken, Hpool, Htoken', Hpool'. vm_compute.
  repeat split; congruence.
Defined.

(** C9, on the code.  [updateReputation] takes a base reputation of 0
    for the mark of a new user and sets it to 10 before it applies the
    change.  The account 2, which the ledger has never seen, is given
    +50 and holds 60, where [testInitialState] expects 50; given -3 it
    holds 7 and not 0.  Away from 0 the account 1 fares as the claim
    says: from 60, +7 gives 67 and -100 gives 0.  But at 0 it is taken
    for a new user again, with its stake and its history: a penalty of
    3 raises its base reputation to 7 and overwrites [lastUpdate]. *)
Theorem updateReputation_reinitialises :
  baseReputation (rd (reputationProfiles start) 2) = 0
  ∧ updateReputation deployer 900 2 50 true start = Some raised
  ∧ baseReputation (rd (reputationProfiles raised) 2) = 60
  ∧ updateReputation deployer 900 2 (-3) false start = Some lowered
  ∧ baseReputation (rd (reputationProfiles lowered) 2) = 7
  ∧ baseReputation (rd (reputationProfiles staked) 1) = 60
  ∧ updateReputation deployer 1000 1 7 true staked = Some gained
  ∧ baseReputation (rd (reputationProfiles gained) 1) = 67
  ∧ updateReputation deployer 1000 1 (-100) false staked = Some lost
  ∧ baseReputation (rd (reputationProfiles lost) 1) = 0
  ∧ stakedReputation (rd (reputationProfiles lost) 1) = 1000
  ∧ lastUpdate (rd (reputationProfiles lost) 1) = 900
  ∧ updateReputation deployer 2000 1 (-3) false lost = Some penalised
  ∧ baseReputation (rd (reputationProfiles penalised) 1) = 7
  ∧ lastUpdate (rd (reputationProfiles penalised) 1) = 2000.
Proof. by_evaluation. Qed.

End LedgerClaims.

(** ** ReputationSystem: the value of the ledger *)

Section LedgerValue.
Import ReputationSystem.

(** Writing the slot of a stake changes what is locked by the change of
    that stake. *)
Lemma lockedBalance_insert st key s before after :
  lockedAmount (rd (userStakes st) key) = before →
  lockedAmount s = after →
  sum_with lockedAmount (<[key := s]> (userStakes st)) + before
  = lockedBalance st + after.
Proof. intros <- <-. apply (sum_with_insert lockedAmount). done. Qed.

Lemma depositStake_value caller now amount lockPeriod stakeType st st' :
  freshStakes st →
  depositStake caller now amount lockPeriod stakeType st = Some st' →
  totalValue st' = totalValue st ∧ freshStakes st'.
Proof.
  intros Hfresh H. unfold depositStake in H.
  do 5 (apply bind_Some in H as (? & _ & H)).
  apply bind_Some in H as (s1 & Hpay & H).
  apply bind_Some in H as (count & _ & H).
  apply updateStakedReputation_Some in H as (p & -> & _).
  unfold safeTransferFrom in Hpay.
  apply bind_Some in Hpay as (? & Hle%require_Some%N.leb_le & Hpay).
  injection Hpay as <-. split.
  - unfold totalValue, spendableBalance, lockedBalance, rewardPoolBalance.
    simpl.
    pose proof (sum_map_insert (token st) caller
                  (rd (token st) caller - amount)) as Htoken.
    opose proof (lockedBalance_insert st (caller, _stakeCounter st + 1)
                   (mkStake amount now lockPeriod stakeType true
                      (stakeTypeMultipliers st stakeType)) 0 amount _ _)
      as Hlocked; [|done|].
    { unfold rd. by rewrite Hfresh by lia. }
    unfold lockedBalance in Hlocked. lia.
  - intros user stakeId Hid. simpl in Hid |- *.
    rewrite lookup_insert_ne by (intros [= _ ?]; lia).
    apply Hfresh. lia.
Qed.

Lemma stake_listed st user stakeId :
  freshStakes st → 0 < amount (rd (userStakes st) (user, stakeId)) →
  stakeId ≤ _stakeCounter st.
Proof.
  intros Hfresh Hpos. destruct (decide (stakeId ≤ _stakeCounter st)); [done|].
  unfold rd in Hpos. rewrite Hfresh in Hpos by lia. simpl in Hpos. lia.
Qed.

Lemma freshStakes_insert st st' user stakeId s :
  freshStakes st → stakeId ≤ _stakeCounter st →
  _stakeCounter st' = _stakeCounter st →
  userStakes st' = <[(user, stakeId) := s]> (userStakes st) →
  freshStakes st'.
Proof.
  intros Hfresh Hid Hcounter Hstakes u i Hi.
  rewrite Hstakes, lookup_insert_ne by (intros [= _ ?]; lia).
  apply Hfresh. lia.
Qed.

Lemma withdrawStake_value caller now stakeId st st' :
  freshStakes st →
  withdrawStake caller now stakeId st = Some st' →
  totalValue st' = totalValue st ∧ freshStakes st'.
Proof.
  intros Hfresh H.
  apply withdrawStake_Some in H
    as (Hactive & Hpos & Hle & Htoken & _ & Hstakes & Hpool & Hpending
        & Hcounter).
  split.
  - unfold totalValue, spendableBalance, lockedBalance, rewardPoolBalance.
    rewrite Htoken, Hstakes, Hpool, Hpending.
    match goal with
    | |- context [<[caller := ?v]> (token st)] =>
        pose proof (sum_map_insert (token st) caller v) as Ht
    end.
    match goal with
    | |- context [<[(caller, stakeId) := ?s]> (userStakes st)] =>
        opose proof (lockedBalance_insert st (caller, stakeId) s
                       (amount (rd (userStakes st) (caller, stakeId))) 0
                       _ _) as Hl; [|done|]
    end.
    { unfold lockedAmount. by rewrite Hactive. }
    unfold lockedBalance in Hl. lia.
  - eapply freshStakes_insert; [done| |done..].
    by eapply stake_listed.
Qed.

Lemma slashUser_value caller user stakeId reason st st' :
  freshStakes st →
  slashUser caller user stakeId reason st = Some st' →
  totalValue st' = totalValue st ∧ freshStakes st'.
Proof.
  intros Hfresh H. unfold slashUser in H.
  apply bind_Some in H as (? & _ & H).
  apply bind_Some in H as (? & Hpos%require_Some%N.ltb_lt & H).
  apply bind_Some in H as (? & Hactive%require_Some & H).
  apply bind_Some in H as (scaled & _ & H).
  apply bind_Some in H as (remaining & (Hle & ->)%sub_Some & H).
  apply bind_Some in H as (slashes & _ & H).
  apply bind_Some in H as (s1 & (p & -> & _)%updateStakedReputation_Some & H).
  apply bind_Some in H as (total & ->%add_Some & H).
  injection H as <-. split.
  - unfold totalValue, spendableBalance, lockedBalance, rewardPoolBalance.
    simpl.
    match goal with
    | |- context [<[(user, stakeId) := ?s]> (userStakes st)] =>
        opose proof (lockedBalance_insert st (user, stakeId) s
                       (amount (rd (userStakes st) (user, stakeId)))
                       (amount s) _ _) as Hl
    end.
    { unfold lockedAmount. by rewrite Hactive. }
    { unfold lockedAmount. simpl. by rewrite Hactive. }
    unfold lockedBalance in Hl. simpl in Hl. lia.
  - eapply freshStakes_insert; [done| |done..].
    by eapply stake_listed.
Qed.

Lemma updateReputation_value caller now user change isCorrectVote st st' :
  updateReputation caller now user change isCorrectVote st = Some st' →
  token st' = token st ∧ userStakes st' = userStakes st
  ∧ rewardPool st' = rewardPool st ∧ pendingRewards st' = pendingRewards st
  ∧ _stakeCounter st' = _stakeCounter st.
Proof.
  unfold updateReputation. intros H.
  apply bind_Some in H as (? & _ & H).
  apply bind_Some in H as (? & _ & H).
  apply bind_Some in H as (profile & _ & H).
  apply bind_Some in H as (s1 & (p & -> & _)%updateStakedReputation_Some & H).
  by injection H as <-.
Qed.

Lemma claimRewards_value caller now st st' :
  claimRewards caller now st = Some st' →
  totalValue st' = totalValue st
  ∧ userStakes st' = userStakes st ∧ _stakeCounter st' = _stakeCounter st.
Proof.
  unfold claimRewards. intros H.
  apply bind_Some in H as (? & _ & H).
  apply bind_Some in H as (due & _ & H).
  apply bind_Some in H as (? & _ & H).
  apply bind_Some in H as (? & _ & H).
  apply safeTransfer_Some in H as (_ & ->). split; [|done].
  unfold totalValue, spendableBalance, lockedBalance, rewardPoolBalance.
  simpl.
  pose proof (sum_map_insert (token st) caller
                (rd (token st) caller + rd (pendingRewards st) caller)).
  pose proof (sum_map_insert (pendingRewards st) caller 0).
  lia.
Qed.

(** Every transaction keeps the value of the ledger. *)
Lemma step_totalValue st st' :
  freshStakes st → step st st' →
  totalValue st' = totalValue st ∧ freshStakes st'.
Proof.
  intros Hfresh [[caller now amount lockPeriod stakeType
                 |caller now stakeId
                 |caller now user change isCorrectVote
                 |caller user stakeId reason
                 |caller now|caller now|caller|caller
                 |caller tier threshold|caller tier multiplier
                 |caller stakeType multiplier] H]; simpl in H.
  - by eapply depositStake_value.
  - by eapply withdrawStake_value.
  - apply updateReputation_value in H as (Ht & Hs & Hp & Hr & Hc).
    unfold totalValue, spendableBalance, lockedBalance, rewardPoolBalance,
      freshStakes. by rewrite Ht, Hs, Hp, Hr, Hc.
  - by eapply slashUser_value.
  - unfold distributeRewards in H. run_inv H. by injection H as <-.
  - apply claimRewards_value in H as (Hv & Hs & Hc).
    split; [done|]. unfold freshStakes. by rewrite Hs, Hc.
  - unfold pause in H. run_inv H. by injection H as <-.
  - unfold unpause in H. run_inv H. by injection H as <-.
  - unfold updateTierThreshold in H. run_inv H. by injection H as <-.
  - unfold updateTierMultiplier in H. run_inv H. by injection H as <-.
  - unfold updateStakeTypeMultiplier in H. run_inv H. by injection H as <-.
Qed.

Lemma reachable_freshStakes st : reachable st → freshStakes st.
Proof.
  intros (deployer & self & funds & Hrtc). revert st Hrtc.
  apply rtc_ind_r; [done|].
  intros s1 s2 _ Hstep IH. by eapply step_totalValue.
Qed.

Lemma rtc_totalValue st st' :
  freshStakes st → rtc step st st' → totalValue st' = totalValue st.
Proof.
  intros Hfresh Hrtc. induction Hrtc as [|s1 s2 s3 Hstep _ IH]; [done|].
  destruct (step_totalValue s1 s2 Hfresh Hstep) as [Hv Hf].
  rewrite IH by done. done.
Qed.

End LedgerValue.

(** ** Conservation of value *)

(** C1, as the contracts have it.  Whatever the transactions, the registry
    neither creates nor destroys ether: the ether of the accounts and of
    the contract add up to the same total.  Its rewards are paid out of
    the ether the contract holds, so the spendable balances, the locked
    stakes and what the contract holds beyond them add up to the same
    total at the two ends of every run at which the contract holds at
    least the locked stakes, which the settlement of a report does not
    ensure.  And from every reachable state of the staking ledger,
    whatever the transactions, the tokens of the accounts, the active
    stakes, the reward pool and the pending rewards add up to the same
    total: a deposit, a withdrawal with its penalty and a slash only move
    value between them. *)
Theorem value_is_conserved :
  (∀ st st',
     rtc StakeBasedReportRegistry.step st st' →
     StakeBasedReportRegistry.totalEther st'
     = StakeBasedReportRegistry.totalEther st
     ∧ (StakeBasedReportRegistry.lockedBalance st
        ≤ StakeBasedReportRegistry.balance st →
        StakeBasedReportRegistry.lockedBalance st'
        ≤ StakeBasedReportRegistry.balance st' →
        StakeBasedReportRegistry.totalValue st'
        = StakeBasedReportRegistry.totalValue st))
  ∧ (∀ st st',
       ReputationSystem.reachable st →
       rtc ReputationSystem.step st st' →
       ReputationSystem.totalValue st' = ReputationSystem.totalValue st).
Proof.
  split.
  - intros st st' Hether%rtc_totalEther. split; [done|].
    intros Hsolvent Hsolvent'. by rewrite !totalValue_solvent.
  - intros st st' Hreach. apply rtc_totalValue. by apply reachable_freshStakes.
Qed.

Lemma ledger_run_rtc calls st st' :
  ReputationSystem.run calls st = Some st' → rtc ReputationSystem.step st st'.
Proof.
  unfold ReputationSystem.run. revert st.
  induction calls as [|c calls IH]; intros st H.
  - injection H as <-. apply rtc_refl.
  - simpl in H. apply bind_Some in H as (s1 & H1 & H).
    eapply rtc_l; [by exists c|by apply IH].
Qed.

(** The seven ether of the registry scenario are there before and after
    the settlement of report 1; the value of the registry in scenario A,
    where the deployer has funded the contract, is the same before and
    after the settlement; and the 20000 tokens of the ledger scenario are
    there before and after the early withdrawal. *)
Lemma value_is_conserved_witness :
  StakeBasedReportRegistry.totalEther RegistryScenarios.overpaid = 7 * ether
  ∧ StakeBasedReportRegistry.totalValue RegistryScenarios.validated
    = StakeBasedReportRegistry.totalValue RegistryScenarios.twoValid
  ∧ ReputationSystem.totalValue LedgerScenarios.withdrawnEarly = 20000 * ether.
Proof.
  destruct value_is_conserved as [Hether Hvalue]. split; [|split].
  - destruct (Hether RegistryScenarios.twoReports RegistryScenarios.overpaid)
      as [-> _]; [|by vm_compute].
    apply rtc_once.
    exists (StakeBasedReportRegistry.VoteOnReport
              (mkMsg 4 StakeBasedReportRegistry.VOTING_STAKE) 30 1 true).
    by vm_compute.
  - destruct (Hether RegistryScenarios.twoValid RegistryScenarios.validated)
      as [_ Hsolvent].
    + apply rtc_once.
      exists (StakeBasedReportRegistry.VoteOnReport
                (mkMsg 4 StakeBasedReportRegistry.VOTING_STAKE) 30 1 false).
      by vm_compute.
    + apply Hsolvent; vm_compute; discriminate.
  - rewrite (Hvalue LedgerScenarios.staked LedgerScenarios.withdrawnEarly).
    + by vm_compute.
    + exists LedgerScenarios.deployer, LedgerScenarios.self,
        LedgerScenarios.funds.
      apply (ledger_run_rtc LedgerScenarios.staking). by vm_compute.
    + apply rtc_once.
      exists (ReputationSystem.WithdrawStake 1 LedgerScenarios.early 1).
      by vm_compute.
Defined.

(** ** The reputation floor of a report *)

(** C4, as the contracts have it.  The floor guards [submitReport] of
    [PhishBlockRegistry], which locks no stake: below
    [MIN_REPUTATION_TO_REPORT] = 5 the call reverts, which leaves the
    storage as it was.  [submitReportWithStake] looks at no reputation: it
    succeeds for every caller that sends [REPORT_STAKE] with a report
    type, a target and a description, creates the report and locks the
    stake. *)
Theorem reputation_floor :
  (∀ keccak256 caller now targetUrl targetWallet description ipfsHash
     evidenceType st,
     rd (PhishBlockRegistry.userReputation st) caller
     < PhishBlockRegistry.MIN_REPUTATION_TO_REPORT →
     PhishBlockRegistry.submitReport keccak256 caller now targetUrl
       targetWallet description ipfsHash evidenceType st = None)
  ∧ (∀ m now reportType targetValue description reportHash st,
       value m = StakeBasedReportRegistry.REPORT_STAKE →
       value m ≤ rd (StakeBasedReportRegistry.accounts st) (sender m) →
       nonempty reportType = true → nonempty targetValue = true →
       nonempty description = true →
       now + StakeBasedReportRegistry.VOTING_PERIOD ≤ MAX_UINT256 →
       ∃ st',
         StakeBasedReportRegistry.submitReportWithStake m now reportType
           targetValue description reportHash st = Some st'
         ∧ StakeBasedReportRegistry._reportIds st'
           = StakeBasedReportRegistry._reportIds st + 1
         ∧ StakeBasedReportRegistry.reporter
             (rd (StakeBasedReportRegistry.reports st')
                (StakeBasedReportRegistry._reportIds st')) = sender m
         ∧ StakeBasedReportRegistry.balance st'
           = StakeBasedReportRegistry.balance st
             + StakeBasedReportRegistry.REPORT_STAKE).
Proof.
  split.
  - intros keccak256 caller now targetUrl targetWallet description ipfsHash
      evidenceType st Hlow.
    unfold PhishBlockRegistry.submitReport.
    destruct (require (negb (PhishBlockRegistry.paused st))); [|done]. simpl.
    apply N.leb_gt in Hlow. by rewrite Hlow.
  - intros m now reportType targetValue description reportHash st Hvalue
      Hfunds Htype Htarget Hdescription Hdeadline.
    unfold StakeBasedReportRegistry.submitReportWithStake,
      StakeBasedReportRegistry.pay_in.
    apply N.leb_le in Hfunds, Hdeadline. rewrite Hfunds. simpl.
    rewrite Hvalue, N.eqb_refl, Htype, Htarget, Hdescription. simpl.
    unfold add. rewrite Hdeadline. simpl.
    eexists. split; [reflexivity|]. simpl. by rewrite rd_insert_eq.
Qed.

(** The account 7 is below the floor in a fresh [PhishBlockRegistry] and
    cannot report there; it can stake a report in the registry. *)
Lemma reputation_floor_witness :
  PhishBlockRegistry.submitReport (λ _ _ _ _ _ _ counter, counter) 7 20
    "http://phish.example" EmptyString "fake login page" "QmReport7"
    PhishBlockRegistry.URL (PhishBlockRegistry.init 100) = None
  ∧ ∃ st',
      StakeBasedReportRegistry.submitReportWithStake
        (mkMsg 7 StakeBasedReportRegistry.REPORT_STAKE) 20 "phishing_url"
        "http://phish.example" "fake login page" "QmReport7"
        RegistryScenarios.start = Some st'
      ∧ StakeBasedReportRegistry._reportIds st' = 1.
Proof.
  destruct reputation_floor as [Hfloor Hstake]. split.
  - apply Hfloor. vm_compute. reflexivity.
  - destruct (Hstake (mkMsg 7 StakeBasedReportRegistry.REPORT_STAKE) 20
                "phishing_url" "http://phish.example" "fake login page"
                "QmReport7" RegistryScenarios.start)
      as (st' & Hrun & Hids & _);
      [reflexivity|vm_compute; discriminate|reflexivity..
      |vm_compute; discriminate|].
    exists st'. split; [exact Hrun|]. rewrite Hids. reflexivity.
Defined.

(** C4 as stated fails: the account 7 has base reputation 0 in a fresh
    [ReputationSystem] and reputation 0 in a fresh [PhishBlockRegistry],
    and its call of [submitReportWithStake] succeeds: report 1 is created
    and the stake is locked in the contract. *)
Lemma report_floor_counterexample :
  ReputationSystem.baseReputation
    (rd (ReputationSystem.reputationProfiles LedgerScenarios.start) 7) = 0
  ∧ rd (PhishBlockRegistry.userReputation (PhishBlockRegistry.init 100)) 7 = 0
  ∧ ∃ st',
      StakeBasedReportRegistry.submitReportWithStake
        (mkMsg 7 StakeBasedReportRegistry.REPORT_STAKE) 20 "phishing_url"
        "http://phish.example" "fake login page" "QmReport7"
        RegistryScenarios.start = Some st'
      ∧ StakeBasedReportRegistry._reportIds st' = 1
      ∧ StakeBasedReportRegistry.reporter
          (rd (StakeBasedReportRegistry.reports st') 1) = 7
      ∧ StakeBasedReportRegistry.status
          (rd (StakeBasedReportRegistry.reports st') 1)
        = StakeBasedReportRegistry.Pending
      ∧ StakeBasedReportRegistry.balance st'
        = StakeBasedReportRegistry.REPORT_STAKE.
Proof.
  split; [vm_compute; reflexivity|]. split; [vm_compute; reflexivity|].
  eexists. split; [vm_compute; reflexivity|].
  by_evaluation.
Qed.

(** ** EvidenceValidator: verdicts and outcome *)

Section Evidence.
Import EvidenceValidator EvidenceScenarios.

(** What a successful validation stores: the tallies of the item, its
    status once the quorum is reached, and the reputation of the
    validator, which grows with a positive verdict and with nothing
    else. *)
Lemma validateEvidence_Some caller now evidenceId isValid reason level
    st st' :
  validateEvidence caller now evidenceId isValid reason level st = Some st' →
  let ev := rd (evidence st) evidenceId in
  let ev' := rd (evidence st') evidenceId in
  validationCount ev' = validationCount ev + 1
  ∧ positiveValidations ev'
    = positiveValidations ev + (if isValid then 1 else 0)
  ∧ negativeValidations ev'
    = negativeValidations ev + (if isValid then 0 else 1)
  ∧ status ev' =
      (if MIN_VALIDATIONS_REQUIRED <=? validationCount ev' then
         if negativeValidations ev' <? positiveValidations ev'
         then Validated else Rejected
       else status ev)
  ∧ ∀ v, rd (validatorReputation st') v
         = rd (validatorReputation st) v
           + (if decide (v = caller) then
                if isValid then REPUTATION_REWARD_VALIDATION else 0
              else 0).
Proof.
  unfold validateEvidence. intros H.
  do 7 (apply bind_Some in H as (? & _ & H)).
  apply bind_Some in H as (deadline & _ & H).
  apply bind_Some in H as (? & _ & H).
  apply bind_Some in H as (count & ->%add_Some & H).
  apply bind_Some in H as (positive & Hpositive & H).
  apply bind_Some in H as (negative & Hnegative & H).
  apply bind_Some in H as (reputation & Hreputation & H).
  simpl in H.
  assert (positive = positiveValidations (rd (evidence st) evidenceId)
                     + (if isValid then 1 else 0)) as ->.
  { destruct isValid; [by apply add_Some in Hpositive|].
    injection Hpositive as <-. lia. }
  assert (negative = negativeValidations (rd (evidence st) evidenceId)
                     + (if isValid then 0 else 1)) as ->.
  { destruct isValid; [|by apply add_Some in Hnegative].
    injection Hnegative as <-. lia. }
  assert (∀ v,
            rd (if isValid
                then <[caller := reputation]> (validatorReputation st)
                else validatorReputation st) v
            = rd (validatorReputation st) v
              + (if decide (v = caller) then
                   if isValid then REPUTATION_REWARD_VALIDATION else 0
                 else 0)) as Hrep.
  { intros v. destruct isValid.
    - apply add_Some in Hreputation as ->. rewrite rd_insert.
      repeat case_decide; subst; try done; lia.
    - case_decide; lia. }
  destruct (MIN_VALIDATIONS_REQUIRED <=? _) eqn:Hquorum;
    injection H as <-; unfold _finalizeValidation; simpl;
    rewrite ?rd_insert_eq; simpl.
  - destruct (_ <? _) eqn:Hmajority; simpl; rewrite rd_insert_eq; simpl;
      rewrite Hquorum, ?Hmajority; done.
  - rewrite Hquorum. done.
Qed.

(** C6, on the code.  Two negative verdicts and a positive one reject
    the evidence item 1.  The validators 2 and 3, whose verdicts match
    the outcome, keep their reputation of 50; the validator 4, whose
    verdict does not, has gained [REPUTATION_REWARD_VALIDATION]: the
    reward follows the verdict, at the time it is given, and not the
    outcome. *)
Theorem evidence_reward_follows_verdict :
  (st ← validateEvidence 2 30 1 false "looks legitimate" Basic submitted;
   st ← validateEvidence 3 31 1 false "no login form" Standard st;
   validateEvidence 4 32 1 true "phishing" Advanced st) = Some outvoted
  ∧ status (rd (evidence outvoted) 1) = Rejected
  ∧ rd (validatorReputation submitted) 2 = 50
  ∧ rd (validatorReputation outvoted) 2 = 50
  ∧ rd (validatorReputation submitted) 3 = 50
  ∧ rd (validatorReputation outvoted) 3 = 50
  ∧ rd (validatorReputation submitted) 4 = 50
  ∧ rd (validatorReputation outvoted) 4 = 50 + REPUTATION_REWARD_VALIDATION.
Proof. by_evaluation. Qed.

End Evidence.

(** ** Ties *)

(** C7. Tie defaults to rejection.  A report that [_finalizeReport]
    settles with as many [Valid] as [Invalid] votes becomes [Rejected], and
    an evidence item whose quorum is complete after a validation with as
    many positive as negative verdicts is [Rejected]. *)
Theorem tie_defaults_to_rejection :
  (∀ reportId st st',
     StakeBasedReportRegistry._finalizeReport reportId st = Some st' →
     StakeBasedReportRegistry.validVotes
       (rd (StakeBasedReportRegistry.reports st) reportId)
     = StakeBasedReportRegistry.invalidVotes
         (rd (StakeBasedReportRegistry.reports st) reportId) →
     StakeBasedReportRegistry.status
       (rd (StakeBasedReportRegistry.reports st') reportId)
     = StakeBasedReportRegistry.Rejected)
  ∧ (∀ caller now evidenceId isValid reason level st st',
       EvidenceValidator.validateEvidence caller now evidenceId isValid
         reason level st = Some st' →
       EvidenceValidator.MIN_VALIDATIONS_REQUIRED
       ≤ EvidenceValidator.validationCount
           (rd (EvidenceValidator.evidence st') evidenceId) →
       EvidenceValidator.positiveValidations
         (rd (EvidenceValidator.evidence st') evidenceId)
       = EvidenceValidator.negativeValidations
           (rd (EvidenceValidator.evidence st') evidenceId) →
       EvidenceValidator.status
         (rd (EvidenceValidator.evidence st') evidenceId)
       = EvidenceValidator.Rejected).
Proof.
  split.
  - intros reportId st st' H Htie.
    apply _finalizeReport_Some in H as (_ & _ & -> & _).
    rewrite rd_insert_eq. simpl. rewrite Htie, N.ltb_irrefl. done.
  - intros caller now evidenceId isValid reason level st st' H Hquorum Htie.
    apply validateEvidence_Some in H as (_ & _ & _ & -> & _).
    apply N.leb_le in Hquorum. rewrite Hquorum, Htie, N.ltb_irrefl. done.
Qed.

(** The report of [RegistryScenarios.tied], with two votes against two, and
    the evidence item that the owner reopened and then voted on, with two
    verdicts against two. *)
Lemma tie_defaults_to_rejection_witness :
  (∃ st',
     StakeBasedReportRegistry._finalizeReport 1 RegistryScenarios.tied
     = Some st'
     ∧ StakeBasedReportRegistry.status
         (rd (StakeBasedReportRegistry.reports st') 1)
       = StakeBasedReportRegistry.Rejected)
  ∧ EvidenceValidator.positiveValidations
      (rd (EvidenceValidator.evidence EvidenceScenarios.tied) 1) = 2
  ∧ EvidenceValidator.negativeValidations
      (rd (EvidenceValidator.evidence EvidenceScenarios.tied) 1) = 2
  ∧ EvidenceValidator.status
      (rd (EvidenceValidator.evidence EvidenceScenarios.tied) 1)
    = EvidenceValidator.Rejected.
Proof.
  destruct tie_defaults_to_rejection as [Hreport Hevidence]. split.
  - destruct (StakeBasedReportRegistry._finalizeReport 1
                RegistryScenarios.tied) as [st'|] eqn:H;
      [|vm_compute in H; discriminate].
    exists st'. split; [reflexivity|].
    apply (Hreport 1 RegistryScenarios.tied st' H). reflexivity.
  - split; [vm_compute; reflexivity|]. split; [vm_compute; reflexivity|].
    apply (Hevidence EvidenceScenarios.deployer 40 1 false "not convinced"
             EvidenceValidator.Expert EvidenceScenarios.reopened).
    + vm_compute. reflexivity.
    + vm_compute. discriminate.
    + vm_compute. reflexivity.
Defined.

(** * Further properties *)

(** ** StakeBasedReportRegistry: votes, verdicts and the books *)

Section RegistryBooks.
Import StakeBasedReportRegistry RegistryViews RegistryScenarios.

Lemma sameRecords_trans st1 st2 st3 :
  sameRecords st1 st2 → sameRecords st2 st3 → sameRecords st1 st3.
Proof.
  intros (?&?&?&?&?&?&?) (?&?&?&?&?&?&?). repeat split; congruence.
Qed.

(** The settlement of a report first pays, which leaves the records
    other than the report alone, and then updates the validators. *)
Lemma finalizeReport_split reportId st st' :
  _finalizeReport reportId st = Some st' →
  ∃ s2,
    (_validatorIds s2 = _validatorIds st
     ∧ validatorOf s2 = validatorOf st
     ∧ userReports s2 = userReports st
     ∧ validatorReports s2 = validatorReports st
     ∧ owner s2 = owner st)
    ∧ _updateValidatorReputation reportId s2 = Some st'.
Proof.
  unfold _finalizeReport. intros H.
  apply bind_Some in H as (? & _ & H).
  apply bind_Some in H as (s2 & H & Hrep).
  exists s2. split; [|done]. clear Hrep.
  destruct (_ <? _).
  - apply bind_Some in H as (total & _ & H).
    apply bind_Some in H as (s1 & (_ & Hsame1 & _)%transfer_Some & H).
    unfold _distributeValidatorRewards in H.
    eapply forEach_transfer in H as (Hsame & _);
      [|intros v s s'; apply rewardValidator_transfer].
    destruct (sameRecords_trans _ _ _ Hsame1 Hsame) as (?&?&?&?&?&?&?).
    simpl in *. done.
  - unfold _redistributeStake in H. destruct (0 <? _).
    + eapply forEach_transfer in H as (Hsame & _);
        [|intros v s s'; apply redistributeTo_transfer].
      destruct Hsame as (?&?&?&?&?&?&?). simpl in *. done.
    + by injection H as <-.
Qed.

Lemma finalizeReport_frame reportId st st' :
  _finalizeReport reportId st = Some st' →
  _validatorIds st' = _validatorIds st
  ∧ userReports st' = userReports st
  ∧ validatorReports st' = validatorReports st
  ∧ owner st' = owner st.
Proof.
  intros (s2 & Hs2 & Hrep)%finalizeReport_split.
  unfold _updateValidatorReputation in Hrep.
  eapply (forEach_invariant
            (λ s, _validatorIds s = _validatorIds st
                  ∧ userReports s = userReports st
                  ∧ validatorReports s = validatorReports st
                  ∧ owner s = owner st)); [| |exact Hrep].
  - intros v s s' _ Hs (val & ->)%updateOne_Some. done.
  - tauto.
Qed.

(** What the settlement of a report keeps of the validators is what every
    update of one validator keeps. *)
Lemma finalizeReport_validators (Q : gmap address Validator → Prop)
    reportId st st' :
  (∀ v s s', updateOne reportId v s = Some s' →
             Q (validatorOf s) → Q (validatorOf s')) →
  _finalizeReport reportId st = Some st' →
  Q (validatorOf st) → Q (validatorOf st').
Proof.
  intros Hone (s2 & (_ & Hv & _) & Hrep)%finalizeReport_split HQ.
  unfold _updateValidatorReputation in Hrep.
  eapply (forEach_invariant (λ s, Q (validatorOf s))); [| |exact Hrep].
  - intros v s s' _ Hs H. by eapply Hone.
  - by rewrite Hv.
Qed.

Lemma registerValidator_Some caller now st st' :
  registerValidator caller now st = Some st' →
  isActive (rd (validatorOf st) caller) = false
  ∧ st' = mkState (_reportIds st) (_validatorIds st + 1) (reports st)
            (<[caller := mkValidator (_validatorIds st + 1) caller 100 0 0
                           true now]> (validatorOf st))
            (userReports st) (validatorReports st) (owner st) (balance st)
            (accounts st).
Proof.
  unfold registerValidator. intros H.
  apply bind_Some in H as (? & Hactive%require_Some%negb_true_iff & H).
  by injection H as <-.
Qed.

Lemma submitReportWithStake_Some m now ty target desc h st st' :
  submitReportWithStake m now ty target desc h st = Some st' →
  let reportId := _reportIds st + 1 in
  let slot := rd (reports st) reportId in
  value m = REPORT_STAKE
  ∧ _reportIds st' = reportId
  ∧ _validatorIds st' = _validatorIds st
  ∧ validatorOf st' = validatorOf st
  ∧ validatorReports st' = validatorReports st
  ∧ owner st' = owner st
  ∧ userReports st' =
      <[sender m := rd (userReports st) (sender m) ++ [reportId]]>
        (userReports st)
  ∧ reports st' =
      <[reportId :=
          mkReport reportId ty target desc h (sender m) (value m) now
            (now + VOTING_PERIOD) Pending 0 0 (votes slot)
            (validatorStakes slot) (validators slot)]> (reports st).
Proof.
  unfold submitReportWithStake. intros H.
  apply bind_Some in H as (s1 & Hpay & H).
  apply pay_in_Some in Hpay as (_ & (Hi & Hv & Hr & Hvo & Hu & Hvr & Ho) & _).
  apply bind_Some in H as (? & Hvalue%require_Some%N.eqb_eq & H).
  do 3 (apply bind_Some in H as (? & _ & H)).
  apply bind_Some in H as (deadline & ->%add_Some & H).
  injection H as <-. simpl.
  rewrite Hi, Hv, Hr, Hvo, Hu, Hvr, Ho. done.
Qed.

(** A successful vote, with all that it writes. *)
Lemma voteOnReport_books m now reportId isValid st st' :
  invariant st →
  voteOnReport m now reportId isValid st = Some st' →
  let report' := recordVote m isValid (rd (reports st) reportId) in
  let final :=
    if MIN_VALIDATORS <=? N.of_nat (length (validators report'))
    then set_status (if invalidVotes report' <? validVotes report'
                     then Validated else Rejected) report'
    else report' in
  value m = VOTING_STAKE
  ∧ isActive (rd (validatorOf st) (sender m)) = true
  ∧ reportId ≤ _reportIds st
  ∧ now ≤ votingDeadline (rd (reports st) reportId)
  ∧ status (rd (reports st) reportId) = Pending
  ∧ rd (votes (rd (reports st) reportId)) (sender m) = NoVote
  ∧ _reportIds st' = _reportIds st
  ∧ _validatorIds st' = _validatorIds st
  ∧ userReports st' = userReports st
  ∧ owner st' = owner st
  ∧ validatorReports st' =
      <[sender m := rd (validatorReports st) (sender m) ++ [reportId]]>
        (validatorReports st)
  ∧ reports st' = <[reportId := final]> (reports st)
  ∧ ∀ Q : gmap address Validator → Prop,
      (∀ v s s', updateOne reportId v s = Some s' →
                 Q (validatorOf s) → Q (validatorOf s')) →
      Q (validatorOf st) → Q (validatorOf st').
Proof.
  intros [_ Hinv] H. unfold voteOnReport in H.
  apply bind_Some in H as (s1 & Hpay & H).
  apply pay_in_Some in Hpay as (_ & (Hi & Hv & Hr & Hvo & Hu & Hvr & Ho) & _).
  rewrite Hi, Hv, Hr, Hvo, Hu, Hvr, Ho in H.
  apply bind_Some in H as (? & Hactive%require_Some & H).
  apply bind_Some in H as (? & Hid%require_Some%N.leb_le & H).
  apply bind_Some in H as (? & Hopen%require_Some%N.leb_le & H).
  apply bind_Some in H as (? & Hpending%require_Some%bool_decide_eq_true & H).
  apply bind_Some in H as (? & Hvalue%require_Some%N.eqb_eq & H).
  apply bind_Some in H as (? & Hvote%require_Some%bool_decide_eq_true & H).
  apply bind_Some in H as (valid' & Hvalid' & H).
  apply bind_Some in H as (invalid' & Hinvalid' & H).
  simpl. do 6 (split; [done|]).
  destruct (Hinv reportId) as [(_ & Hlisted & _) _].
  assert (sender m ∉ validators (rd (reports st) reportId)) as Hin
    by (rewrite Hlisted; tauto).
  rewrite (existsb_eqb_false _ _ Hin) in H.
  assert (valid' = if isValid then validVotes (rd (reports st) reportId) + 1
                   else validVotes (rd (reports st) reportId)) as ->.
  { destruct isValid; [by apply add_Some in Hvalid'|congruence]. }
  assert (invalid' = if isValid then invalidVotes (rd (reports st) reportId)
                     else invalidVotes (rd (reports st) reportId) + 1) as ->.
  { destruct isValid; [congruence|by apply add_Some in Hinvalid']. }
  change (mkReport _ _ _ _ _ _ _ _ _ _ _ _ _ _ _)
    with (recordVote m isValid (rd (reports st) reportId)) in H.
  simpl in H.
  destruct (MIN_VALIDATORS <=? _) eqn:Hquorum.
  - pose proof (finalizeReport_frame _ _ _ H) as (Hv' & Hu' & Hvr' & Ho').
    pose proof (_finalizeReport_Some _ _ _ H) as (_ & Hi' & Hr' & _).
    simpl in *. rewrite rd_insert_eq, insert_insert_eq in Hr'.
    do 6 (split; [done|]). intros Q Hone HQ.
    by apply (finalizeReport_validators Q _ _ _ Hone H).
  - injection H as <-. simpl. do 6 (split; [done|]). by intros Q _ HQ.
Qed.

(** The transactions of the registry: a registration, a submission, a
    vote, or a movement of ether that leaves the records alone. *)
Lemma step_cases st st' :
  step st st' →
  (∃ caller now, registerValidator caller now st = Some st')
  ∨ (∃ m now ty target desc h,
       submitReportWithStake m now ty target desc h st = Some st')
  ∨ (∃ m now reportId isValid,
       voteOnReport m now reportId isValid st = Some st')
  ∨ sameRecords st st'.
Proof.
  intros [[caller now|m now ty target desc h
          |m now reportId isValid|caller|m] H]; simpl in H.
  - left. eauto.
  - right. left. eauto 10.
  - right. right. left. eauto 10.
  - right. right. right. unfold emergencyWithdraw in H. run_inv H.
    by apply transfer_Some in H as (_ & ? & _).
  - right. right. right. by apply pay_in_Some in H as (_ & ? & _).
Qed.

(** Induction over the reachable states, and over the runs that start in
    one. *)
Lemma rtc_from_reachable (P : State → Prop) st st' :
  reachable st → rtc step st st' →
  (∀ s s', invariant s → P s → step s s' → P s') →
  P st → P st'.
Proof.
  intros Hreach Hrtc Hstep HP.
  enough (reachable st' ∧ P st') as [_ ?] by done.
  revert st' Hrtc. apply rtc_ind_r; [done|].
  intros s1 s2 _ Hs [Hr1 HP1]. split.
  - by eapply reachable_step.
  - eapply Hstep; [by apply reachable_invariant|done..].
Qed.

Lemma reachable_induction (P : State → Prop) st :
  (∀ deployer funds, P (init deployer funds)) →
  (∀ s s', invariant s → P s → step s s' → P s') →
  reachable st → P st.
Proof.
  intros Hinit Hstep (deployer & funds & Hrtc).
  eapply (rtc_from_reachable P (init deployer funds)); [|done..].
  exists deployer, funds. apply rtc_refl.
Qed.

(** *** One vote for each validator *)

Lemma voteOnReport_voted m now reportId isValid st :
  rd (votes (rd (reports st) reportId)) (sender m) ≠ NoVote →
  voteOnReport m now reportId isValid st = None.
Proof.
  intros Hvoted. destruct (voteOnReport _ _ _ _ _) as [st'|] eqn:H; [|done].
  exfalso. unfold voteOnReport in H.
  apply bind_Some in H as (s1 & Hpay & H).
  apply pay_in_Some in Hpay as (_ & (_ & _ & Hreports & _) & _).
  rewrite Hreports in H.
  do 5 (apply bind_Some in H as (? & _ & H)).
  apply bind_Some in H as (? & Hvote%require_Some%bool_decide_eq_true & H).
  done.
Qed.

Lemma step_votes_kept reportId v st st' :
  invariant st → step st st' →
  rd (votes (rd (reports st) reportId)) v ≠ NoVote →
  rd (votes (rd (reports st') reportId)) v ≠ NoVote.
Proof.
  intros Hinv [(caller & now & H)|[(m & now & ty & target & desc & h & H)
               |[(m & now & id & isValid & H)|Hsame]]]%step_cases Hvoted.
  - by apply registerValidator_Some in H as (_ & ->).
  - apply submitReportWithStake_Some in H as (_ & _ & _ & _ & _ & _ & _ & ->).
    rewrite rd_insert. case_decide; [subst|]; done.
  - apply voteOnReport_books in H
      as (_ & _ & _ & _ & _ & _ & _ & _ & _ & _ & _ & -> & _); [|done].
    rewrite rd_insert. case_decide as Hid; [subst id|done].
    destruct (MIN_VALIDATORS <=? _); simpl; rewrite rd_insert;
      case_decide; try done; by destruct isValid.
  - destruct Hsame as (_ & _ & -> & _). done.
Qed.

(** X1. One vote for each validator.  Once a validator has voted on a
    report, every later vote of this validator on this report reverts,
    whatever the transactions in between, the stake sent and the time. *)
Theorem no_double_vote m now reportId isValid st st1 st2 :
  reachable st →
  voteOnReport m now reportId isValid st = Some st1 →
  rtc step st1 st2 →
  ∀ stake now' isValid',
    voteOnReport (mkMsg (sender m) stake) now' reportId isValid' st2 = None.
Proof.
  intros Hreach Hvote Hrtc stake now' isValid'.
  apply voteOnReport_voted. simpl.
  eapply (rtc_from_reachable
            (λ s, rd (votes (rd (reports s) reportId)) (sender m) ≠ NoVote)
            st1); [|done| |].
  - eapply reachable_step; [done|].
    by exists (VoteOnReport m now reportId isValid).
  - intros s s' Hinv Hs Hstep. by eapply step_votes_kept.
  - apply voteOnReport_books in Hvote
      as (_ & _ & _ & _ & _ & _ & _ & _ & _ & _ & _ & -> & _);
      [|by apply reachable_invariant].
    rewrite rd_insert_eq.
    destruct (MIN_VALIDATORS <=? _); simpl; rewrite rd_insert_eq;
      by destruct isValid.
Qed.

(** The validator 2 has voted on report 1 in [oneVote]; the validator 3
    votes, and the validator 2 cannot vote again. *)
Lemma no_double_vote_witness :
  voteOnReport (mkMsg 2 VOTING_STAKE) 31 1 false
    (the (voteOnReport (mkMsg 3 VOTING_STAKE) 30 1 true oneVote)) = None.
Proof.
  apply (no_double_vote (mkMsg 2 VOTING_STAKE) 30 1 true
           (the (run (registration ++ [report1]) start)) oneVote).
  - apply (run_reachable (registration ++ [report1]) deployer funds).
    by vm_compute.
  - by vm_compute.
  - apply rtc_once. exists (VoteOnReport (mkMsg 3 VOTING_STAKE) 30 1 true).
    by vm_compute.
Defined.

(** *** A settled report is final *)

Lemma step_settled_kept reportId st st' :
  invariant st → step st st' →
  status (rd (reports st) reportId) ≠ Pending →
  rd (reports st') reportId = rd (reports st) reportId.
Proof.
  intros Hinv [(caller & now & H)|[(m & now & ty & target & desc & h & H)
               |[(m & now & id & isValid & H)|Hsame]]]%step_cases Hsettled.
  - by apply registerValidator_Some in H as (_ & ->).
  - apply submitReportWithStake_Some in H as (_ & _ & _ & _ & _ & _ & _ & ->).
    rewrite rd_insert_ne; [done|]. intros <-. apply Hsettled.
    unfold rd. destruct Hinv as [Hfresh _]. rewrite Hfresh by lia. done.
  - apply voteOnReport_books in H
      as (_ & _ & _ & _ & Hpending & _ & _ & _ & _ & _ & _ & -> & _); [|done].
    rewrite rd_insert_ne; [done|]. by intros ->.
  - destruct Hsame as (_ & _ & -> & _). done.
Qed.

(** X2. A settled report is final.  A report that is [Validated] or
    [Rejected] is never written again: whatever the transactions that
    follow, its status, its tallies, its votes and its validators stay
    as they are. *)
Theorem settled_report_is_final reportId st st' :
  reachable st →
  status (rd (reports st) reportId) ≠ Pending →
  rtc step st st' →
  rd (reports st') reportId = rd (reports st) reportId.
Proof.
  intros Hreach Hsettled Hrtc.
  eapply (rtc_from_reachable
            (λ s, rd (reports s) reportId = rd (reports st) reportId) st);
    [done..| |done].
  intros s s' Hinv Hs Hstep. rewrite <- Hs.
  apply step_settled_kept; [done..|]. by rewrite Hs.
Qed.

(** Report 1 is validated in [validated]; a second report and a
    deposit later it is the same. *)
Lemma settled_report_is_final_witness :
  rd (reports (the (run [report2; Receive (mkMsg 7 ether)] validated))) 1
  = rd (reports validated) 1.
Proof.
  apply (settled_report_is_final 1 validated).
  - apply validated_reachable.
  - by vm_compute.
  - apply (run_rtc [report2; Receive (mkMsg 7 ether)]). by vm_compute.
Defined.

(** *** The tallies and the verdict *)

Lemma countVotes_total r :
  (∀ v, v ∈ validators r → rd (votes r) v ≠ NoVote) →
  countVotes Valid r + countVotes Invalid r
  = N.of_nat (length (validators r)).
Proof.
  unfold countVotes. intros Hl.
  induction (validators r) as [|v l IH]; [done|].
  rewrite !filter_cons.
  assert (rd (votes r) v ≠ NoVote) by (apply Hl; left).
  assert (∀ v, v ∈ l → rd (votes r) v ≠ NoVote) as Hl'
    by (intros ??; apply Hl; by right).
  specialize (IH Hl').
  destruct (rd (votes r) v); repeat case_decide; simpl; try done; lia.
Qed.

(** X3. The tallies add up.  In every reachable state the two tallies of
    a report count its validators: the tallies sum to the number of
    validators listed, and every validator listed has a vote, [Valid] or
    [Invalid], and the stake [VOTING_STAKE] on record. *)
Theorem tallies_count_the_validators st reportId :
  reachable st →
  let report := rd (reports st) reportId in
  validVotes report + invalidVotes report
  = N.of_nat (length (validators report))
  ∧ ∀ v, v ∈ validators report →
         (rd (votes report) v = Valid ∨ rd (votes report) v = Invalid)
         ∧ rd (validatorStakes report) v = VOTING_STAKE.
Proof.
  intros [_ Hinv]%reachable_invariant report.
  destruct (Hinv reportId) as [(_ & Hlisted & Hstakes & Hvalid & Hinvalid) _].
  fold report in Hlisted, Hstakes, Hvalid, Hinvalid. split.
  - rewrite Hvalid, Hinvalid. apply countVotes_total.
    intros v. apply Hlisted.
  - intros v Hv. split; [|by apply Hstakes].
    apply Hlisted in Hv. destruct (rd (votes report) v); auto. done.
Qed.

Lemma tallies_count_the_validators_witness :
  validVotes (rd (reports validated) 1)
  + invalidVotes (rd (reports validated) 1) = 3
  ∧ rd (validatorStakes (rd (reports validated) 1)) 4 = VOTING_STAKE.
Proof.
  destruct (tallies_count_the_validators validated 1 validated_reachable)
    as [Hsum Hlisted].
  split; [exact Hsum|]. apply Hlisted. vm_compute.
  do 2 apply list_elem_of_further. apply list_elem_of_here.
Defined.

Lemma step_settledByMajority st st' :
  invariant st →
  (∀ reportId, settledByMajority (rd (reports st) reportId)) →
  step st st' →
  ∀ reportId, settledByMajority (rd (reports st') reportId).
Proof.
  intros Hinv Hall
    [(caller & now & H)|[(m & now & ty & target & desc & h & H)
     |[(m & now & id & isValid & H)|Hsame]]]%step_cases j.
  - by apply registerValidator_Some in H as (_ & ->).
  - apply submitReportWithStake_Some in H as (_ & _ & _ & _ & _ & _ & _ & ->).
    rewrite rd_insert. case_decide; [|done].
    unfold settledByMajority. simpl.
    unfold rd. destruct Hinv as [Hfresh _]. rewrite Hfresh by lia.
    simpl. unfold MIN_VALIDATORS. lia.
  - apply voteOnReport_books in H
      as (_ & _ & _ & _ & Hpending & _ & _ & _ & _ & _ & _ & -> & _); [|done].
    rewrite rd_insert. case_decide as Hid; [subst id|done].
    destruct (proj2 Hinv j) as [_ [_ Hshort]]. specialize (Hshort Hpending).
    assert (N.of_nat (length (validators
                                (recordVote m isValid (rd (reports st) j))))
            = N.of_nat (length (validators (rd (reports st) j))) + 1) as Hlen
      by (simpl; rewrite length_app; simpl; lia).
    destruct (MIN_VALIDATORS <=? _) eqn:Hquorum.
    + apply N.leb_le in Hquorum.
      destruct (_ <? _) eqn:Hmajority; unfold settledByMajority;
        cbn [status set_status].
      * apply N.ltb_lt in Hmajority. split; [|done].
        change (validators (set_status Validated ?r)) with (validators r).
        lia.
      * apply N.ltb_ge in Hmajority. split; [|done].
        change (validators (set_status Rejected ?r)) with (validators r).
        lia.
    + apply N.leb_gt in Hquorum. unfold settledByMajority.
      cbn [status recordVote]. rewrite Hpending. done.
  - destruct Hsame as (_ & _ & -> & _). done.
Qed.

Lemma reachable_settledByMajority st reportId :
  reachable st → settledByMajority (rd (reports st) reportId).
Proof.
  intros Hreach. revert reportId.
  eapply (reachable_induction
            (λ s, ∀ reportId, settledByMajority (rd (reports s) reportId)));
    [| |done].
  - intros deployer funds j. simpl. rewrite rd_empty.
    unfold settledByMajority, MIN_VALIDATORS. simpl. lia.
  - intros s s' Hinv Hs Hstep. by eapply step_settledByMajority.
Qed.

(** X4. The verdict is the majority of three.  In every reachable state
    a report that is [Validated] has exactly [MIN_VALIDATORS] = 3 votes
    of which at least two are [Valid], a report that is [Rejected]
    has exactly three votes of which at least two are [Invalid], and a
    pending report has fewer than three votes. *)
Theorem verdict_is_majority st reportId :
  reachable st →
  let report := rd (reports st) reportId in
  (status report = Validated →
   N.of_nat (length (validators report)) = MIN_VALIDATORS
   ∧ invalidVotes report < validVotes report ∧ 2 ≤ validVotes report)
  ∧ (status report = Rejected →
     N.of_nat (length (validators report)) = MIN_VALIDATORS
     ∧ validVotes report ≤ invalidVotes report ∧ 2 ≤ invalidVotes report)
  ∧ (status report = Pending →
     N.of_nat (length (validators report)) < MIN_VALIDATORS).
Proof.
  intros Hreach report.
  pose proof (reachable_settledByMajority st reportId Hreach) as Hmaj.
  pose proof (reachable_invariant st Hreach) as [_ Hinv].
  destruct (Hinv reportId) as [(_ & Hlisted & _ & Hvalid & Hinvalid) _].
  assert (validVotes report + invalidVotes report
          = N.of_nat (length (validators report))) as Hsum.
  { subst report. rewrite Hvalid, Hinvalid. apply countVotes_total.
    intros v. apply Hlisted. }
  unfold settledByMajority in Hmaj. fold report in Hmaj.
  unfold MIN_VALIDATORS in *.
  split; [|split]; intros Hstatus; rewrite Hstatus in Hmaj;
    [destruct Hmaj|destruct Hmaj|]; repeat split; try done; lia.
Qed.

(** Report 1 of [validated] has the votes valid, valid and invalid;
    report 1 of [rejected] the votes invalid, invalid and valid. *)
Lemma verdict_is_majority_witness :
  2 ≤ validVotes (rd (reports validated) 1)
  ∧ 2 ≤ invalidVotes (rd (reports rejected) 1).
Proof.
  split.
  - destruct (verdict_is_majority validated 1 validated_reachable)
      as [Hvalidated _].
    destruct Hvalidated as (_ & _ & H); [by vm_compute|exact H].
  - assert (reachable rejected) as Hreach.
    { eapply reachable_step; [apply twoInvalid_reachable|].
      exists (VoteOnReport (mkMsg 4 VOTING_STAKE) 30 1 true).
      by vm_compute. }
    destruct (verdict_is_majority rejected 1 Hreach) as (_ & Hrejected & _).
    destruct Hrejected as (_ & _ & H); [by vm_compute|exact H].
Defined.

(** *** The validators *)

Lemma updateOne_validator reportId v st st' :
  updateOne reportId v st = Some st' →
  ∃ val',
    validatorOf st' = <[v := val']> (validatorOf st)
    ∧ validatorId val' = validatorId (rd (validatorOf st) v)
    ∧ validatorAddress val' = validatorAddress (rd (validatorOf st) v)
    ∧ isActive val' = isActive (rd (validatorOf st) v)
    ∧ registrationTime val' = registrationTime (rd (validatorOf st) v)
    ∧ totalValidations val' = totalValidations (rd (validatorOf st) v) + 1
    ∧ (correctValidations val' = correctValidations (rd (validatorOf st) v) + 1
       ∧ reputation val' = reputation (rd (validatorOf st) v) + 1
       ∨ correctValidations val' = correctValidations (rd (validatorOf st) v)
         ∧ reputation val' =
             (if 1 <? reputation (rd (validatorOf st) v)
              then reputation (rd (validatorOf st) v) - 1 else 1)).
Proof.
  unfold updateOne. intros H.
  apply bind_Some in H as (total & ->%add_Some & H).
  apply bind_Some in H as (val' & Hval & H).
  injection H as <-. exists val'. split; [done|].
  destruct (_ || _).
  - apply bind_Some in Hval as (correct & ->%add_Some & Hval).
    apply bind_Some in Hval as (rep & ->%add_Some & Hval).
    injection Hval as <-. simpl. tauto.
  - injection Hval as <-. simpl. tauto.
Qed.

(** X5. A registration is for good.  A registered validator stays
    registered whatever the transactions that follow: its identifier and
    the time of its registration stay, and every later call of
    [registerValidator] by it reverts, so that no validator can start
    over with a fresh reputation. *)
Theorem registration_is_permanent v st st' :
  reachable st →
  isActive (getValidator v st) = true →
  rtc step st st' →
  isActive (getValidator v st') = true
  ∧ validatorId (getValidator v st') = validatorId (getValidator v st)
  ∧ registrationTime (getValidator v st')
    = registrationTime (getValidator v st)
  ∧ ∀ now, registerValidator v now st' = None.
Proof.
  intros Hreach Hactive Hrtc. unfold getValidator in *.
  enough (isActive (rd (validatorOf st') v) = true
          ∧ validatorId (rd (validatorOf st') v)
            = validatorId (rd (validatorOf st) v)
          ∧ registrationTime (rd (validatorOf st') v)
            = registrationTime (rd (validatorOf st) v)) as (Ha & Hi & Ht).
  { do 3 (split; [done|]). intros now. unfold registerValidator.
    by rewrite Ha. }
  set (Q := λ vs : gmap address Validator,
         isActive (rd vs v) = true
         ∧ validatorId (rd vs v) = validatorId (rd (validatorOf st) v)
         ∧ registrationTime (rd vs v)
           = registrationTime (rd (validatorOf st) v)).
  eapply (rtc_from_reachable (λ s, Q (validatorOf s)) st); [done..| |done].
  intros s s' Hinv HQ
    [(caller & now & H)|[(m & now & ty & target & desc & h & H)
     |[(m & now & id & isValid & H)|Hsame]]]%step_cases.
  - apply registerValidator_Some in H as (Hnew & ->). simpl.
    destruct HQ as (Ha & Hrest). unfold Q.
    rewrite rd_insert_ne; [done|]. intros ->. congruence.
  - apply submitReportWithStake_Some in H as (_ & _ & _ & -> & _). done.
  - apply voteOnReport_books in H
      as (_ & _ & _ & _ & _ & _ & _ & _ & _ & _ & _ & _ & HQ'); [|done].
    apply (HQ' Q); [|done]. clear HQ HQ'.
    intros w s1 s2 (val' & -> & Hid & _ & Hact & Htime & _)%updateOne_validator
      (Ha & Hi & Ht).
    unfold Q. rewrite rd_insert. case_decide; [subst w|done].
    rewrite Hact, Hid, Htime. done.
  - destruct Hsame as (_ & _ & _ & -> & _). done.
Qed.

(** The validator 2, registered at time 10, after the settlement of
    report 1. *)
Lemma registration_is_permanent_witness :
  registrationTime (getValidator 2 validated) = 10
  ∧ registerValidator 2 50 validated = None.
Proof.
  destruct (registration_is_permanent 2
              (the (run registration start)) validated)
    as (_ & _ & Htime & Hagain).
  - apply (run_reachable registration deployer funds). by vm_compute.
  - by vm_compute.
  - apply (run_rtc ([Receive (mkMsg deployer (ether / 10)); report1;
                     vote 2 1 true; vote 3 1 true; vote 4 1 false])).
    by vm_compute.
  - split; [rewrite Htime; by vm_compute|apply Hagain].
Defined.

Lemma reachable_validatorBounds st v :
  reachable st → validatorBounds (rd (validatorOf st) v).
Proof.
  intros Hreach. revert v.
  set (Q := λ vs : gmap address Validator, ∀ v, validatorBounds (rd vs v)).
  eapply (reachable_induction (λ s, Q (validatorOf s))); [| |done].
  - intros deployer funds v. simpl. rewrite rd_empty. by intros ?.
  - intros s s' Hinv HQ
      [(caller & now & H)|[(m & now & ty & target & desc & h & H)
       |[(m & now & id & isValid & H)|Hsame]]]%step_cases.
    + apply registerValidator_Some in H as (_ & ->). simpl. intros v.
      rewrite rd_insert. case_decide; [|apply HQ].
      intros _. simpl. lia.
    + apply submitReportWithStake_Some in H as (_ & _ & _ & -> & _). done.
    + apply voteOnReport_books in H
        as (_ & _ & _ & _ & _ & _ & _ & _ & _ & _ & _ & _ & HQ'); [|done].
      apply (HQ' Q); [|done]. clear HQ HQ'.
      intros w s1 s2
        (val' & -> & _ & _ & Hact & _ & Htotal & Hrep)%updateOne_validator
        HQ v.
      rewrite rd_insert. case_decide; [subst w|apply HQ].
      intros Hactive. rewrite Hact in Hactive.
      destruct (HQ v Hactive) as (Hone & Hle & Hsum).
      rewrite Htotal.
      destruct Hrep as [[-> ->]|[-> ->]]; [lia|].
      destruct (1 <? _) eqn:Hfloor;
        [apply N.ltb_lt in Hfloor|apply N.ltb_ge in Hfloor]; lia.
    + destruct Hsame as (_ & _ & _ & -> & _). done.
Qed.

(** X6. The record of a validator.  In every reachable state a
    registered validator has a reputation of at least 1 and no more
    correct validations than validations; and its reputation is not
    below what its record gives, 100 plus the correct validations less
    the others. *)
Theorem validator_record st v :
  reachable st →
  isActive (getValidator v st) = true →
  1 ≤ reputation (getValidator v st)
  ∧ correctValidations (getValidator v st)
    ≤ totalValidations (getValidator v st)
  ∧ 100 + 2 * correctValidations (getValidator v st)
    ≤ reputation (getValidator v st) + totalValidations (getValidator v st).
Proof. intros Hreach. by apply reachable_validatorBounds. Qed.

(** The validator 4, whose vote on report 1 was outvoted. *)
Lemma validator_record_witness :
  reputation (getValidator 4 validated) = 99
  ∧ 100 + 2 * correctValidations (getValidator 4 validated)
    ≤ reputation (getValidator 4 validated)
      + totalValidations (getValidator 4 validated).
Proof.
  destruct (validator_record validated 4 validated_reachable)
    as (_ & _ & Hsum); [by vm_compute|].
  split; [by vm_compute|exact Hsum].
Defined.

(** *** The lists of reports *)

Lemma reachable_reportsListed st : reachable st → reportsListed st.
Proof.
  eapply (reachable_induction reportsListed).
  - intros deployer funds user. simpl. rewrite rd_empty. split.
    + apply NoDup_nil_2.
    + intros j. split; [by intros ?%elem_of_nil|]. intros [? _]. lia.
  - intros s s' Hinv Hlisted
      [(caller & now & H)|[(m & now & ty & target & desc & h & H)
       |[(m & now & id & isValid & H)|Hsame]]]%step_cases user.
    + apply registerValidator_Some in H as (_ & ->). apply Hlisted.
    + apply submitReportWithStake_Some in H
        as (_ & -> & _ & _ & _ & _ & -> & ->).
      destruct (Hlisted user) as [Hnodup Hin].
      rewrite rd_insert. case_decide as Huser.
      * subst user. split.
        -- apply NoDup_app. split; [done|]. split; [|apply NoDup_singleton].
           intros j Hj ->%list_elem_of_singleton.
           apply Hin in Hj. lia.
        -- intros j. rewrite elem_of_app, list_elem_of_singleton, rd_insert.
           case_decide as Hj.
           ++ subst j. simpl. split; [intros _; split; [lia|done]|by right].
           ++ rewrite Hin. split; [intros [[??]|?]|intros [??]];
                [split; [lia|done]|congruence|left; split; [lia|done]].
      * split; [done|]. intros j. rewrite rd_insert. case_decide as Hj.
        -- subst j. simpl. split; [|intros [_ ?]; congruence].
           intros Hj%Hin. lia.
        -- rewrite Hin. split; intros [??]; (split; [lia|done]).
    + apply voteOnReport_books in H
        as (_ & _ & _ & _ & _ & _ & -> & _ & -> & _ & _ & -> & _); [|done].
      destruct (Hlisted user) as [Hnodup Hin]. split; [done|].
      intros j. rewrite Hin, rd_insert. case_decide as Hj; [subst id|done].
      by destruct (MIN_VALIDATORS <=? _).
    + destruct Hsame as (-> & _ & -> & _ & -> & _). apply Hlisted.
Qed.

(** X7. The reports of a reporter.  In every reachable state
    [getUserReports] lists, each once, exactly the reports that the user
    has submitted: the identifiers between 1 and [getTotalReports] whose
    reporter it is. *)
Theorem user_reports_are_listed st user :
  reachable st →
  NoDup (getUserReports user st)
  ∧ ∀ reportId,
      reportId ∈ getUserReports user st
      ↔ 1 ≤ reportId ≤ getTotalReports st
        ∧ reporter (rd (reports st) reportId) = user.
Proof. intros Hreach. by apply reachable_reportsListed. Qed.

(** The accounts 1 and 5 have submitted the reports 1 and 2. *)
Lemma user_reports_are_listed_witness :
  2 ∈ getUserReports 5 twoReports ∧ 2 ∉ getUserReports 1 twoReports.
Proof.
  split.
  - apply (user_reports_are_listed twoReports 5 twoReports_reachable).
    by vm_compute.
  - rewrite (proj2 (user_reports_are_listed twoReports 1
                      twoReports_reachable)).
    vm_compute. intros [_ [=]].
Defined.

Lemma reachable_votesListed st : reachable st → votesListed st.
Proof.
  eapply (reachable_induction votesListed).
  - intros deployer funds v. simpl. rewrite !rd_empty. split.
    + apply NoDup_nil_2.
    + intros j. simpl. rewrite rd_empty.
      split; [by intros ?%elem_of_nil|done].
  - intros s s' Hinv Hlisted
      [(caller & now & H)|[(m & now & ty & target & desc & h & H)
       |[(m & now & id & isValid & H)|Hsame]]]%step_cases v.
    + apply registerValidator_Some in H as (_ & ->). apply Hlisted.
    + apply submitReportWithStake_Some in H
        as (_ & _ & _ & _ & -> & _ & _ & ->).
      destruct (Hlisted v) as [Hnodup Hin]. split; [done|].
      intros j. rewrite Hin, rd_insert. case_decide; [subst j|]; done.
    + apply voteOnReport_books in H
        as (_ & _ & _ & _ & _ & Hvote & _ & _ & _ & _ & -> & -> & _); [|done].
      destruct (Hlisted v) as [Hnodup Hin].
      assert (∀ j,
                rd (votes (rd (<[id :=
                     if MIN_VALIDATORS
                        <=? N.of_nat (length (validators
                              (recordVote m isValid (rd (reports s) id))))
                     then set_status
                            (if invalidVotes
                                  (recordVote m isValid (rd (reports s) id))
                                <? validVotes
                                     (recordVote m isValid
                                        (rd (reports s) id))
                             then Validated else Rejected)
                            (recordVote m isValid (rd (reports s) id))
                     else recordVote m isValid (rd (reports s) id)]>
                   (reports s)) j)) v
                = if decide (j = id ∧ v = sender m)
                  then (if isValid then Valid else Invalid)
                  else rd (votes (rd (reports s) j)) v) as Hvotes.
      { intros j. rewrite rd_insert. case_decide as Hj.
        - subst j. destruct (MIN_VALIDATORS <=? _); simpl; rewrite rd_insert;
            repeat case_decide; try done; intuition congruence.
        - case_decide; [intuition congruence|done]. }
      destruct (decide (v = sender m)) as [->|Hv].
      * rewrite rd_insert_eq. split.
        -- apply NoDup_app. split; [done|]. split; [|apply NoDup_singleton].
           intros j Hj ->%list_elem_of_singleton. by apply Hin in Hj.
        -- intros j. rewrite elem_of_app, list_elem_of_singleton, Hvotes.
           destruct (decide (j = id ∧ sender m = sender m)) as [Hj|Hj].
           ++ split; [by destruct isValid|]. intros _. right. tauto.
           ++ rewrite Hin. split; [intros [?|?]; [done|tauto]|by left].
      * rewrite rd_insert_ne by done. split; [done|].
        intros j. rewrite Hvotes, Hin.
        destruct (decide (j = id ∧ v = sender m)); [tauto|done].
    + destruct Hsame as (_ & _ & -> & _ & _ & -> & _). apply Hlisted.
Qed.

(** X8. The reports of a validator.  In every reachable state
    [getValidatorReports] lists, each once, exactly the reports on which
    the validator has a vote on record, which are the reports that list
    it among their validators. *)
Theorem validator_reports_are_listed st validator :
  reachable st →
  NoDup (getValidatorReports validator st)
  ∧ ∀ reportId,
      (reportId ∈ getValidatorReports validator st
       ↔ rd (votes (rd (reports st) reportId)) validator ≠ NoVote)
      ∧ (reportId ∈ getValidatorReports validator st
         ↔ validator ∈ validators (rd (reports st) reportId)).
Proof.
  intros Hreach.
  destruct (reachable_votesListed st Hreach validator) as [Hnodup Hin].
  split; [done|]. intros reportId. split; [apply Hin|].
  rewrite Hin.
  destruct (proj2 (reachable_invariant st Hreach) reportId)
    as [(_ & Hlisted & _) _].
  by rewrite Hlisted.
Qed.

(** The validator 3 has voted on report 1 and not on report 2. *)
Lemma validator_reports_are_listed_witness :
  getValidatorReports 3 twoReports = [1]
  ∧ 3 ∈ validators (rd (reports twoReports) 1)
  ∧ 3 ∉ validators (rd (reports twoReports) 2).
Proof.
  destruct (validator_reports_are_listed twoReports 3 twoReports_reachable)
    as [_ Hin].
  split; [by vm_compute|]. split.
  - apply (proj2 (Hin 1)). vm_compute. apply list_elem_of_here.
  - rewrite <- (proj2 (Hin 2)). vm_compute.
    intros [[=]|[]%elem_of_nil]%elem_of_cons.
Defined.

(** *** Reports that were never submitted *)

Lemma reachable_unsubmitted st reportId :
  reachable st → unsubmitted reportId st →
  votingDeadline (rd (reports st) reportId) = 0.
Proof.
  intros Hreach [->|Habove].
  - revert Hreach.
    eapply (reachable_induction
              (λ s, votingDeadline (rd (reports s) 0) = 0)).
    + intros deployer funds. simpl. by rewrite rd_empty.
    + intros s s' Hinv Hzero
        [(caller & now & H)|[(m & now & ty & target & desc & h & H)
         |[(m & now & id & isValid & H)|Hsame]]]%step_cases.
      * by apply registerValidator_Some in H as (_ & ->).
      * apply submitReportWithStake_Some in H
          as (_ & _ & _ & _ & _ & _ & _ & ->).
        rewrite rd_insert_ne by lia. done.
      * apply voteOnReport_books in H
          as (_ & _ & _ & _ & _ & _ & _ & _ & _ & _ & _ & -> & _); [|done].
        rewrite rd_insert. case_decide; [subst id|done].
        by destruct (MIN_VALIDATORS <=? _).
      * destruct Hsame as (_ & _ & -> & _). done.
  - apply reachable_invariant in Hreach as [Hfresh _].
    unfold rd. by rewrite Hfresh.
Qed.

(** X9. No vote on a report that was never submitted.  The modifier
    [reportExists] lets the identifier 0 pass, which no submission
    uses; the slot keeps the voting deadline 0.  So in every reachable
    state, at every block time but 0, a vote on the report 0 reverts,
    as does a vote on a report above the counter. *)
Theorem unsubmitted_report_takes_no_vote m now reportId isValid st :
  reachable st → unsubmitted reportId st → 0 < now →
  voteOnReport m now reportId isValid st = None.
Proof.
  intros Hreach Hun Hnow. apply voteOnReport_closed.
  by rewrite reachable_unsubmitted.
Qed.

Lemma unsubmitted_report_takes_no_vote_witness :
  voteOnReport (mkMsg 4 VOTING_STAKE) 30 0 true twoReports = None
  ∧ voteOnReport (mkMsg 4 VOTING_STAKE) 30 3 true twoReports = None.
Proof.
  split.
  - apply unsubmitted_report_takes_no_vote;
      [apply twoReports_reachable|by left|done].
  - apply unsubmitted_report_takes_no_vote;
      [apply twoReports_reachable|right; by vm_compute|done].
Defined.

End RegistryBooks.

(** ** ReputationSystem: the books of the ledger *)

Section LedgerBooks.
Import ReputationSystem LedgerViews LedgerScenarios StakingScenarios.

Lemma sum_over_insert_fresh `{Countable K} {V} (g : K → V → N)
    (m : gmap K V) (k : K) (v : V) :
  m !! k = None → sum_over g (<[k := v]> m) = g k v + sum_over g m.
Proof.
  intros Hk. unfold sum_over.
  rewrite map_fold_insert_L; [done| |done]. intros. lia.
Qed.

Lemma sum_over_delete `{Countable K} {V} (g : K → V → N)
    (m : gmap K V) (k : K) (v : V) :
  m !! k = Some v → sum_over g m = g k v + sum_over g (delete k m).
Proof.
  intros Hk. unfold sum_over.
  rewrite (map_fold_delete_L _ _ k v m); [done| |done]. intros. lia.
Qed.

Lemma sum_over_insert `{Countable K} {V} `{Zero V} (g : K → V → N)
    (m : gmap K V) (k : K) (v : V) :
  g k zero = 0 →
  sum_over g (<[k := v]> m) + g k (rd m k) = sum_over g m + g k v.
Proof.
  intros Hz. unfold rd. destruct (m !! k) as [x|] eqn:Hk; simpl.
  - rewrite <- insert_delete_eq.
    rewrite sum_over_insert_fresh by apply lookup_delete_eq.
    rewrite (sum_over_delete g m k x Hk). lia.
  - rewrite sum_over_insert_fresh by done. rewrite Hz. lia.
Qed.

Lemma sum_over_zero `{Countable K} {V} `{Zero V} (g : K → V → N)
    (m : gmap K V) (k : K) :
  g k zero = 0 → sum_over g m = 0 → g k (rd m k) = 0.
Proof.
  intros Hz Hsum. unfold rd. destruct (m !! k) as [x|] eqn:Hk; simpl; [|done].
  rewrite (sum_over_delete g m k x Hk) in Hsum. lia.
Qed.

(** What the functions of the ledger write. *)
Lemma updateStakedReputation_shape user st st' :
  _updateStakedReputation user st = Some st' →
  ∃ totalStaked,
    stakedLoop (userStakes st) user 1
      (N.to_nat (rd (userStakeCount st) user)) 0 = Some totalStaked
    ∧ st' =
        set_profile user
          (mkProfile (baseReputation (rd (reputationProfiles st) user))
             (totalStaked / 10 ^ 18)
             (baseReputation (rd (reputationProfiles st) user)
              + totalStaked / 10 ^ 18)
             (tier (rd (reputationProfiles st) user))
             (lastUpdate (rd (reputationProfiles st) user))
             (reportsSubmitted (rd (reputationProfiles st) user))
             (votesCast (rd (reputationProfiles st) user))
             (correctVotes (rd (reputationProfiles st) user))
             (falseReports (rd (reputationProfiles st) user))
             (slashingCount (rd (reputationProfiles st) user))) st.
Proof.
  unfold _updateStakedReputation. intros H.
  apply bind_Some in H as (totalStaked & Hloop & H).
  apply bind_Some in H as (total & ->%add_Some & H).
  injection H as <-. eauto.
Qed.

Lemma depositStake_shape caller now amount lockPeriod stakeType st st' :
  depositStake caller now amount lockPeriod stakeType st = Some st' →
  paused st = false
  ∧ rd (userStakeCount st) caller < MAX_STAKES_PER_USER
  ∧ amount ≤ rd (token st) caller
  ∧ _updateStakedReputation caller
      (mkState (<[caller := rd (token st) caller - amount]> (token st))
         (held st + amount) (_stakeCounter st + 1) (reputationProfiles st)
         (<[(caller, _stakeCounter st + 1) :=
              mkStake amount now lockPeriod stakeType true
                (stakeTypeMultipliers st stakeType)]> (userStakes st))
         (<[caller := rd (userStakeCount st) caller + 1]>
            (userStakeCount st))
         (tierThresholds st) (tierMultipliers st) (stakeTypeMultipliers st)
         (pendingRewards st) (lastRewardClaim st) (rewardPool st)
         (paused st) (owner st) (this st)) = Some st'.
Proof.
  unfold depositStake. intros H.
  apply bind_Some in H as (? & Hpaused%require_Some%negb_true_iff & H).
  do 3 (apply bind_Some in H as (? & _ & H)).
  apply bind_Some in H as (? & Hcount%require_Some%N.ltb_lt & H).
  apply bind_Some in H as (s1 & Hpay & H).
  unfold safeTransferFrom in Hpay.
  apply bind_Some in Hpay as (? & Hle%require_Some%N.leb_le & Hpay).
  injection Hpay as <-.
  apply bind_Some in H as (count & ->%add_Some & H).
  done.
Qed.

Lemma withdrawStake_shape caller now stakeId st st' :
  withdrawStake caller now stakeId st = Some st' →
  let stake := rd (userStakes st) (caller, stakeId) in
  let penalty :=
    if now <? timestamp stake + lockPeriod stake
    then amount stake * SLASHING_PENALTY / 100 else 0 in
  paused st = false
  ∧ 0 < amount stake
  ∧ active stake = true
  ∧ penalty ≤ amount stake
  ∧ 1 ≤ rd (userStakeCount st) caller
  ∧ ∃ s2,
      _updateStakedReputation caller
        (set_stakeCount caller (rd (userStakeCount st) caller - 1)
           (set_stake caller stakeId
              (mkStake (amount stake) (timestamp stake) (lockPeriod stake)
                 (stakeType stake) false (reputationMultiplier stake)) st))
      = Some s2
      ∧ amount stake - penalty ≤ held s2
      ∧ token st' =
          <[caller := rd (token s2) caller + (amount stake - penalty)]>
            (token s2)
      ∧ held st' = held s2 - (amount stake - penalty)
      ∧ totalRewards (rewardPool st')
        = totalRewards (rewardPool s2) + penalty
      ∧ _stakeCounter st' = _stakeCounter s2
      ∧ reputationProfiles st' = reputationProfiles s2
      ∧ userStakes st' = userStakes s2
      ∧ userStakeCount st' = userStakeCount s2
      ∧ tierThresholds st' = tierThresholds s2
      ∧ tierMultipliers st' = tierMultipliers s2
      ∧ stakeTypeMultipliers st' = stakeTypeMultipliers s2
      ∧ pendingRewards st' = pendingRewards s2
      ∧ lastRewardClaim st' = lastRewardClaim s2
      ∧ paused st' = paused s2
      ∧ owner st' = owner s2
      ∧ this st' = this s2.
Proof.
  unfold withdrawStake. intros H.
  apply bind_Some in H as (? & Hpaused%require_Some%negb_true_iff & H).
  apply bind_Some in H as (? & Hpos%require_Some%N.ltb_lt & H).
  apply bind_Some in H as (? & Hactive%require_Some & H).
  apply bind_Some in H as (unlockTime & ->%add_Some & H).
  apply bind_Some in H as ([penalty withdrawAmount] & Hpenalty & H).
  apply bind_Some in H as (count & (Hone & ->)%sub_Some & H).
  apply bind_Some in H as (s2 & Hs2 & H).
  apply bind_Some in H as (s3 & (Hheld & ->)%safeTransfer_Some & H).
  simpl in Hone, Hs2, H |- *.
  assert (penalty =
            (if now <? timestamp (rd (userStakes st) (caller, stakeId))
                       + lockPeriod (rd (userStakes st) (caller, stakeId))
             then amount (rd (userStakes st) (caller, stakeId))
                  * SLASHING_PENALTY / 100 else 0)
          ∧ penalty ≤ amount (rd (userStakes st) (caller, stakeId))
          ∧ withdrawAmount
            = amount (rd (userStakes st) (caller, stakeId)) - penalty)
    as (Hp & Hle & ->).
  { destruct (now <? _).
    - apply bind_Some in Hpenalty as (scaled & Hscaled & Hpenalty).
      apply bind_Some in Hpenalty as (w & (Hle & ->)%sub_Some & Hpenalty).
      injection Hpenalty as <- <-.
      apply mul_Some in Hscaled as ->. done.
    - injection Hpenalty as <- <-. split; [done|]. split; lia. }
  rewrite <- Hp. do 5 (split; [done|]). exists s2.
  do 2 (split; [done|]).
  destruct (0 <? penalty) eqn:Hzero.
  - apply bind_Some in H as (total & ->%add_Some & H). by injection H as <-.
  - injection H as <-. simpl. apply N.ltb_ge in Hzero.
    repeat split; try done. lia.
Qed.

Lemma slashUser_shape caller user stakeId reason st st' :
  slashUser caller user stakeId reason st = Some st' →
  let stake := rd (userStakes st) (user, stakeId) in
  let slashAmount := amount stake * SLASHING_PENALTY / 100 in
  caller = owner st
  ∧ 0 < amount stake
  ∧ active stake = true
  ∧ slashAmount ≤ amount stake
  ∧ ∃ s2,
      _updateStakedReputation user
        (set_profile user
           (mkProfile (baseReputation (rd (reputationProfiles st) user))
              (stakedReputation (rd (reputationProfiles st) user))
              (totalReputation (rd (reputationProfiles st) user))
              (tier (rd (reputationProfiles st) user))
              (lastUpdate (rd (reputationProfiles st) user))
              (reportsSubmitted (rd (reputationProfiles st) user))
              (votesCast (rd (reputationProfiles st) user))
              (correctVotes (rd (reputationProfiles st) user))
              (falseReports (rd (reputationProfiles st) user))
              (slashingCount (rd (reputationProfiles st) user) + 1))
           (set_stake user stakeId
              (mkStake (amount stake - slashAmount) (timestamp stake)
                 (lockPeriod stake) (stakeType stake) (active stake)
                 (reputationMultiplier stake)) st)) = Some s2
      ∧ st' = set_totalRewards (totalRewards (rewardPool s2) + slashAmount)
                s2.
Proof.
  unfold slashUser. intros H.
  apply bind_Some in H as (? & Howner%require_Some%N.eqb_eq & H).
  apply bind_Some in H as (? & Hpos%require_Some%N.ltb_lt & H).
  apply bind_Some in H as (? & Hactive%require_Some & H).
  apply bind_Some in H as (scaled & ->%mul_Some & H).
  apply bind_Some in H as (remaining & (Hle & ->)%sub_Some & H).
  apply bind_Some in H as (slashes & ->%add_Some & H).
  apply bind_Some in H as (s2 & Hs2 & H).
  apply bind_Some in H as (total & ->%add_Some & H).
  injection H as <-. simpl. do 4 (split; [done|]). by exists s2.
Qed.

Lemma updateReputation_shape caller now user change isCorrectVote st st' :
  updateReputation caller now user change isCorrectVote st = Some st' →
  (caller = owner st ∨ caller = this st)
  ∧ ∃ profile s2,
      _updateStakedReputation user (set_profile user profile st) = Some s2
      ∧ st' =
          set_profile user
            (mkProfile (baseReputation (rd (reputationProfiles s2) user))
               (stakedReputation (rd (reputationProfiles s2) user))
               (totalReputation (rd (reputationProfiles s2) user))
               (_calculateTier s2
                  (totalReputation (rd (reputationProfiles s2) user)))
               (lastUpdate (rd (reputationProfiles s2) user))
               (reportsSubmitted (rd (reputationProfiles s2) user))
               (votesCast (rd (reputationProfiles s2) user))
               (correctVotes (rd (reputationProfiles s2) user))
               (falseReports (rd (reputationProfiles s2) user))
               (slashingCount (rd (reputationProfiles s2) user))) s2.
Proof.
  unfold updateReputation. intros H.
  apply bind_Some in H as (? & _ & H).
  apply bind_Some in H as (? & Hcaller%require_Some%orb_true_iff & H).
  apply bind_Some in H as (profile & _ & H).
  apply bind_Some in H as (s2 & Hs2 & H).
  injection H as <-. split.
  - destruct Hcaller as [?%N.eqb_eq|?%N.eqb_eq]; auto.
  - by exists profile, s2.
Qed.

Lemma claimRewards_shape caller now st st' :
  claimRewards caller now st = Some st' →
  paused st = false
  ∧ 0 < rd (pendingRewards st) caller
  ∧ st' = mkState
            (<[caller := rd (token st) caller + rd (pendingRewards st) caller]>
               (token st))
            (held st - rd (pendingRewards st) caller) (_stakeCounter st)
            (reputationProfiles st) (userStakes st) (userStakeCount st)
            (tierThresholds st) (tierMultipliers st) (stakeTypeMultipliers st)
            (<[caller := 0]> (pendingRewards st))
            (<[caller := now]> (lastRewardClaim st))
            (rewardPool st) (paused st) (owner st) (this st).
Proof.
  unfold claimRewards. intros H.
  apply bind_Some in H as (? & Hpaused%require_Some%negb_true_iff & H).
  apply bind_Some in H as (due & _ & H).
  apply bind_Some in H as (? & _ & H).
  apply bind_Some in H as (? & Hpos%require_Some%N.ltb_lt & H).
  by apply safeTransfer_Some in H as (_ & ->).
Qed.

Lemma locked_insert (m : gmap (address * N) Stake) key s :
  sum_with lockedAmount (<[key := s]> m) + lockedAmount (rd m key)
  = sum_with lockedAmount m + lockedAmount s.
Proof. by apply (sum_with_insert lockedAmount). Qed.

Lemma active_insert (user : address) (m : gmap (address * N) Stake) key s :
  sum_over (isActiveStakeOf user) (<[key := s]> m)
  + isActiveStakeOf user key (rd m key)
  = sum_over (isActiveStakeOf user) m + isActiveStakeOf user key s.
Proof.
  apply (sum_over_insert (isActiveStakeOf user)).
  unfold isActiveStakeOf. simpl. by rewrite andb_false_r.
Qed.

Lemma isActiveStakeOf_eq user key stake :
  isActiveStakeOf user key stake
  = if bool_decide (key.1 = user) && active stake then 1 else 0.
Proof. done. Qed.

Lemma lockedAmount_eq s :
  lockedAmount s = if active s then amount s else 0.
Proof. done. Qed.

Lemma fresh_slot st user stakeId :
  freshStakes st → _stakeCounter st < stakeId →
  rd (userStakes st) (user, stakeId) = zero.
Proof. intros Hfresh Hid. unfold rd. by rewrite Hfresh. Qed.

Lemma depositStake_consistent caller now amount lockPeriod stakeType st st' :
  consistent st →
  depositStake caller now amount lockPeriod stakeType st = Some st' →
  consistent st'.
Proof.
  intros (Hfresh & Hpending & Hheld & Hcount & Hmax & Hsum) H.
  pose proof (depositStake_value _ _ _ _ _ _ _ Hfresh H) as [_ Hfresh'].
  apply depositStake_shape in H as (_ & Hlt & _ & H).
  apply updateStakedReputation_shape in H as (totalStaked & _ & ->).
  split; [done|]. split; [done|].
  pose proof (fresh_slot st caller (_stakeCounter st + 1) Hfresh) as Hslot.
  specialize (Hslot ltac:(lia)).
  split; [|split; [|split]].
  - unfold lockedBalance. cbn [held userStakes rewardPool set_profile].
    pose proof (locked_insert (userStakes st) (caller, _stakeCounter st + 1)
                  (mkStake amount now lockPeriod stakeType true
                     (stakeTypeMultipliers st stakeType))) as Hl.
    rewrite Hslot, !lockedAmount_eq in Hl.
    change (active zero) with false in Hl.
    cbn [active ReputationSystem.amount] in Hl.
    unfold lockedBalance in Hheld. lia.
  - intros user. unfold activeStakes.
    cbn [userStakeCount userStakes set_profile].
    pose proof (active_insert user (userStakes st)
                  (caller, _stakeCounter st + 1)
                  (mkStake amount now lockPeriod stakeType true
                     (stakeTypeMultipliers st stakeType))) as Ha.
    rewrite Hslot, !isActiveStakeOf_eq in Ha.
    change (active zero) with false in Ha. cbn [fst active] in Ha.
    specialize (Hcount user). unfold activeStakes in Hcount.
    destruct (decide (caller = user)) as [->|Hu].
    + rewrite rd_insert_eq.
      rewrite bool_decide_eq_true_2 in Ha by done. cbn [andb] in Ha. lia.
    + rewrite rd_insert_ne by done.
      rewrite bool_decide_eq_false_2 in Ha by done. cbn [andb] in Ha. lia.
  - intros user. cbn [userStakeCount set_profile]. rewrite rd_insert.
    case_decide; [subst user; unfold MAX_STAKES_PER_USER in *; lia|done].
  - intros user. cbn [reputationProfiles set_profile]. rewrite rd_insert.
    case_decide; [done|apply Hsum].
Qed.

Lemma withdrawStake_consistent caller now stakeId st st' :
  consistent st →
  withdrawStake caller now stakeId st = Some st' → consistent st'.
Proof.
  intros (Hfresh & Hpending & Hheld & Hcount & Hmax & Hsum) H.
  pose proof (withdrawStake_value _ _ _ _ _ Hfresh H) as [_ Hfresh'].
  apply withdrawStake_shape in H
    as (_ & Hpos & Hactive & Hle & Hone & s2 & Hs2 & _ & _ & Hh & Hr
        & _ & Hp & Hs & Hc & _ & _ & _ & Hpe & _).
  apply updateStakedReputation_shape in Hs2 as (totalStaked & _ & ->).
  cbn [held rewardPool reputationProfiles userStakes userStakeCount
       pendingRewards set_profile set_stakeCount set_stake] in *.
  split; [done|]. split; [congruence|].
  split; [|split; [|split]].
  - unfold lockedBalance. rewrite Hh, Hr, Hs.
    match goal with
    | |- context [<[(caller, stakeId) := ?s]> (userStakes st)] =>
        pose proof (locked_insert (userStakes st) (caller, stakeId) s) as Hl
    end.
    rewrite !lockedAmount_eq, Hactive in Hl. cbn [active] in Hl.
    unfold lockedBalance in Hheld. lia.
  - intros user. unfold activeStakes. rewrite Hc, Hs.
    match goal with
    | |- context [<[(caller, stakeId) := ?s]> (userStakes st)] =>
        pose proof (active_insert user (userStakes st) (caller, stakeId) s)
          as Ha
    end.
    rewrite !isActiveStakeOf_eq, Hactive in Ha. cbn [fst active] in Ha.
    rewrite andb_false_r in Ha.
    specialize (Hcount user). unfold activeStakes in Hcount.
    destruct (decide (caller = user)) as [->|Hu].
    + rewrite rd_insert_eq.
      rewrite bool_decide_eq_true_2 in Ha by done. cbn [andb] in Ha. lia.
    + rewrite rd_insert_ne by done.
      rewrite bool_decide_eq_false_2 in Ha by done. cbn [andb] in Ha. lia.
  - intros user. rewrite Hc, rd_insert.
    case_decide; [subst user; specialize (Hmax caller); lia|done].
  - intros user. rewrite Hp, rd_insert. case_decide; [done|apply Hsum].
Qed.

Lemma slashUser_consistent caller user stakeId reason st st' :
  consistent st →
  slashUser caller user stakeId reason st = Some st' → consistent st'.
Proof.
  intros (Hfresh & Hpending & Hheld & Hcount & Hmax & Hsum) H.
  pose proof (slashUser_value _ _ _ _ _ _ Hfresh H) as [_ Hfresh'].
  apply slashUser_shape in H as (_ & Hpos & Hactive & Hle & s2 & Hs2 & ->).
  apply updateStakedReputation_shape in Hs2 as (totalStaked & _ & ->).
  split; [done|]. split; [done|].
  split; [|split; [|split]].
  - unfold lockedBalance.
    cbn [held rewardPool userStakes set_profile set_stake set_totalRewards
         totalRewards].
    match goal with
    | |- context [<[(user, stakeId) := ?s]> (userStakes st)] =>
        pose proof (locked_insert (userStakes st) (user, stakeId) s) as Hl
    end.
    rewrite !lockedAmount_eq in Hl. cbn [active amount] in Hl.
    rewrite Hactive in Hl |- *. unfold lockedBalance in Hheld. lia.
  - intros u. unfold activeStakes.
    cbn [userStakeCount userStakes set_profile set_stake set_totalRewards].
    match goal with
    | |- context [<[(user, stakeId) := ?s]> (userStakes st)] =>
        pose proof (active_insert u (userStakes st) (user, stakeId) s) as Ha
    end.
    rewrite !isActiveStakeOf_eq in Ha. cbn [active] in Ha.
    specialize (Hcount u). unfold activeStakes in Hcount. lia.
  - done.
  - intros u.
    cbn [reputationProfiles set_profile set_stake set_totalRewards].
    rewrite rd_insert. case_decide; [done|].
    rewrite rd_insert_ne by done. apply Hsum.
Qed.

Lemma updateReputation_consistent caller now user change isCorrectVote
    st st' :
  consistent st →
  updateReputation caller now user change isCorrectVote st = Some st' →
  consistent st'.
Proof.
  intros (Hfresh & Hpending & Hheld & Hcount & Hmax & Hsum) H.
  apply updateReputation_shape in H as (_ & profile & s2 & Hs2 & ->).
  apply updateStakedReputation_shape in Hs2 as (totalStaked & _ & ->).
  do 5 (split; [done|]).
  intros u. cbn [reputationProfiles set_profile].
  rewrite rd_insert. case_decide; [by rewrite rd_insert_eq|].
  rewrite !rd_insert_ne by done. apply Hsum.
Qed.

Lemma step_consistent st st' : consistent st → step st st' → consistent st'.
Proof.
  intros Hc [[caller now amount lockPeriod stakeType
             |caller now stakeId
             |caller now user change isCorrectVote
             |caller user stakeId reason
             |caller now|caller now|caller|caller
             |caller tier threshold|caller tier multiplier
             |caller stakeType multiplier] H]; simpl in H.
  - by eapply depositStake_consistent.
  - by eapply withdrawStake_consistent.
  - by eapply updateReputation_consistent.
  - by eapply slashUser_consistent.
  - unfold distributeRewards in H. run_inv H. by injection H as <-.
  - apply claimRewards_shape in H as (_ & Hpos & _).
    destruct Hc as (_ & Hpending & _). rewrite Hpending, rd_empty in Hpos.
    by apply N.lt_irrefl in Hpos.
  - unfold pause in H. run_inv H. by injection H as <-.
  - unfold unpause in H. run_inv H. by injection H as <-.
  - unfold updateTierThreshold in H. run_inv H. by injection H as <-.
  - unfold updateTierMultiplier in H. run_inv H. by injection H as <-.
  - unfold updateStakeTypeMultiplier in H. run_inv H. by injection H as <-.
Qed.

Lemma reachable_consistent st : reachable st → consistent st.
Proof.
  intros (deployer & self & funds & Hrtc). revert st Hrtc.
  apply rtc_ind_r.
  - split; [done|]. split; [done|]. split; [|split; [|split]].
    + unfold lockedBalance. simpl. by rewrite sum_with_empty.
    + intros user. unfold activeStakes, sum_over. simpl.
      by rewrite rd_empty, map_fold_empty.
    + intros user. simpl. by rewrite rd_empty.
    + intros user. simpl. by rewrite rd_empty.
  - intros s1 s2 _ Hstep IH. by eapply step_consistent.
Qed.

Lemma staked_reachable : reachable staked.
Proof.
  exists deployer, self, funds. apply (ledger_run_rtc staking).
  by vm_compute.
Qed.

Lemma withdrawnEarly_reachable : reachable withdrawnEarly.
Proof.
  exists deployer, self, funds.
  apply (ledger_run_rtc (staking ++ [WithdrawStake 1 early 1])).
  by vm_compute.
Qed.

(** X10. Rewards are never credited.  No function of the ledger adds to
    [pendingRewards] ([distributeRewards] distributes nothing): in every
    reachable state the pending rewards of every account are 0 and
    [claimRewards] reverts for every caller at every time, whatever the
    reward pool holds. *)
Theorem rewards_are_never_credited st :
  reachable st →
  (∀ user, getPendingRewards user st = 0)
  ∧ ∀ caller now, claimRewards caller now st = None.
Proof.
  intros (_ & Hpending & _)%reachable_consistent.
  unfold getPendingRewards. split.
  - intros user. by rewrite Hpending, rd_empty.
  - intros caller now.
    destruct (claimRewards caller now st) as [st'|] eqn:H; [|done].
    apply claimRewards_shape in H as (_ & Hpos & _).
    rewrite Hpending, rd_empty in Hpos. by apply N.lt_irrefl in Hpos.
Qed.

(** The penalty of the early withdrawal is in the reward pool, and the
    account 1 cannot claim it, two days later or ever. *)
Lemma rewards_are_never_credited_witness :
  totalRewards (rewardPool withdrawnEarly) = 100 * ether
  ∧ claimRewards 1 (early + 2 * days) withdrawnEarly = None.
Proof.
  split; [by vm_compute|].
  apply (rewards_are_never_credited withdrawnEarly withdrawnEarly_reachable).
Defined.

(** *** The token from the outside *)

Lemma set_balances_consistent balances ledger st :
  held st ≤ ledger →
  consistent st → consistent (StakingToken.set_balances balances ledger st).
Proof.
  intros Hmore (Hfresh & Hpending & Hheld & Hcount & Hmax & Hsum).
  split; [done|]. split; [done|]. split; [|done].
  unfold lockedBalance in *. simpl. lia.
Qed.

Lemma credit_consistent to amount st :
  consistent st → consistent (StakingToken.credit to amount st).
Proof.
  intros Hc. unfold StakingToken.credit.
  destruct (to =? this st); apply set_balances_consistent; [lia|done..].
Qed.

Lemma world_step_consistent st st' :
  consistent st → StakingToken.step st st' → consistent st'.
Proof.
  intros Hc [[c|from to amount|to amount] H]; simpl in H.
  - apply (step_consistent st); [done|by exists c].
  - unfold StakingToken.transfer in H. run_inv H. injection H as <-.
    apply credit_consistent. by apply set_balances_consistent.
  - injection H as <-. by apply credit_consistent.
Qed.

Lemma world_reachable_consistent st :
  StakingToken.reachable st → consistent st.
Proof.
  intros (deployer & self & funds & Hrtc). revert st Hrtc.
  apply rtc_ind_r.
  - apply reachable_consistent. exists deployer, self, funds. apply rtc_refl.
  - intros s1 s2 _ Hstep IH. by eapply world_step_consistent.
Qed.

Lemma world_run_rtc actions st st' :
  StakingToken.run actions st = Some st' → rtc StakingToken.step st st'.
Proof.
  unfold StakingToken.run. revert st.
  induction actions as [|a actions IH]; intros st H.
  - injection H as <-. apply rtc_refl.
  - simpl in H. apply bind_Some in H as (s1 & H1 & H).
    eapply rtc_l; [by exists a|by apply IH].
Qed.

Lemma endowed_reachable : StakingToken.reachable endowed.
Proof.
  exists deployer, self, funds. apply (world_run_rtc gifts). by vm_compute.
Qed.

Lemma drawn_reachable : StakingToken.reachable drawn.
Proof.
  exists deployer, self, funds.
  apply (world_run_rtc
           (gifts ++ [StakingToken.Ledger (WithdrawStake 1 early 1)])).
  by vm_compute.
Qed.

(** X11. The ledger holds what it owes.  Whatever the transactions of
    the ledger, and whatever tokens are sent or minted to its address
    or to any other from the outside, the tokens that the contract holds
    cover the active stakes and the reward pool; so the contract holds
    at least the amount of every active stake.  It can hold more: what
    reaches its address from the outside is in no stake and in no
    pool. *)
Theorem ledger_holds_what_it_owes st :
  StakingToken.reachable st →
  lockedBalance st + totalRewards (rewardPool st) ≤ held st
  ∧ ∀ user stakeId,
      active (getUserStake user stakeId st) = true →
      amount (getUserStake user stakeId st) ≤ held st.
Proof.
  intros (_ & _ & Hheld & _)%world_reachable_consistent. split; [done|].
  intros user stakeId Hactive. unfold getUserStake, rd in *.
  destruct (userStakes st !! (user, stakeId)) as [stake|] eqn:Hstake;
    [|done].
  simpl in *. unfold lockedBalance in Hheld.
  rewrite (sum_with_delete _ _ _ _ Hstake), lockedAmount_eq, Hactive
    in Hheld.
  lia.
Qed.

(** With 520 tokens from the outside the ledger holds 1520 for a stake
    of 1000; after the early withdrawal it holds 620 for a reward pool
    of 100. *)
Lemma ledger_holds_what_it_owes_witness :
  amount (getUserStake 1 1 endowed) = 1000 * ether
  ∧ held endowed = 1520 * ether
  ∧ amount (getUserStake 1 1 endowed) ≤ held endowed
  ∧ lockedBalance drawn + totalRewards (rewardPool drawn) = 100 * ether
  ∧ held drawn = 620 * ether
  ∧ lockedBalance drawn + totalRewards (rewardPool drawn) ≤ held drawn.
Proof.
  destruct (ledger_holds_what_it_owes endowed endowed_reachable)
    as [_ Hstake].
  destruct (ledger_holds_what_it_owes drawn drawn_reachable) as [Hdrawn _].
  split; [by vm_compute|]. split; [by vm_compute|].
  split; [apply Hstake; by vm_compute|].
  split; [by vm_compute|]. split; [by vm_compute|exact Hdrawn].
Defined.

(** X12. The stake count.  In every reachable state [getUserStakeCount]
    is the number of the stakes of the user that are active, and it is
    at most [MAX_STAKES_PER_USER] = 10. *)
Theorem stake_count_is_exact st user :
  reachable st →
  getUserStakeCount user st = activeStakes user st
  ∧ getUserStakeCount user st ≤ MAX_STAKES_PER_USER.
Proof.
  intros (_ & _ & _ & Hcount & Hmax & _)%reachable_consistent.
  split; [apply Hcount|apply Hmax].
Qed.

Lemma stake_count_is_exact_witness :
  activeStakes 1 staked = 1 ∧ activeStakes 1 withdrawnEarly = 0.
Proof.
  split.
  - rewrite <- (proj1 (stake_count_is_exact staked 1 staked_reachable)).
    by vm_compute.
  - rewrite <- (proj1 (stake_count_is_exact withdrawnEarly 1
                         withdrawnEarly_reachable)).
    by vm_compute.
Defined.

(** X13. The total reputation.  In every reachable state the total
    reputation of a profile is its base reputation plus its staked
    reputation. *)
Theorem total_is_base_plus_staked st user :
  reachable st →
  totalReputation (getUserProfile user st)
  = baseReputation (getUserProfile user st)
    + stakedReputation (getUserProfile user st).
Proof.
  intros (_ & _ & _ & _ & _ & Hsum)%reachable_consistent. apply Hsum.
Qed.

Lemma total_is_base_plus_staked_witness :
  totalReputation (getUserProfile 1 staked) = 60 + 1000.
Proof.
  rewrite (total_is_base_plus_staked staked 1 staked_reachable).
  by vm_compute.
Defined.

(** X14. The first deposit of a user.  [_updateStakedReputation] reads
    the stakes of the user at the identifiers 1 to [userStakeCount], while
    [depositStake] files a stake under the next value of the counter that
    all users share.  So for a user without an active stake the deposit
    adds [amount / 10^18] to the staked reputation when it is the first
    deposit that the contract sees, and nothing otherwise: the staked
    reputation is 0 and the total reputation is the base reputation. *)
Theorem first_deposit_of_a_user caller now amount lockPeriod stakeType
    st st' :
  reachable st →
  getUserStakeCount caller st = 0 →
  depositStake caller now amount lockPeriod stakeType st = Some st' →
  stakedReputation (getUserProfile caller st')
  = (if _stakeCounter st =? 0 then amount / 10 ^ 18 else 0)
  ∧ totalReputation (getUserProfile caller st')
    = baseReputation (getUserProfile caller st)
      + (if _stakeCounter st =? 0 then amount / 10 ^ 18 else 0).
Proof.
  intros (_ & _ & _ & Hcount & _)%reachable_consistent Hnone H.
  unfold getUserStakeCount, getUserProfile in *.
  apply depositStake_shape in H as (_ & _ & _ & H).
  apply updateStakedReputation_shape in H as (totalStaked & Hloop & ->).
  cbn [userStakes userStakeCount reputationProfiles set_profile] in *.
  rewrite rd_insert_eq in Hloop. rewrite rd_insert_eq. rewrite Hnone in Hloop.
  change (N.to_nat (0 + 1)) with 1%nat in Hloop.
  cbn [stakedLoop] in Hloop.
  apply bind_Some in Hloop as (total & Hloop & [= <-]).
  cbn [stakedReputation totalReputation baseReputation].
  enough (total = if _stakeCounter st =? 0 then amount else 0) as ->
    by (by destruct (_ =? 0)).
  destruct (_stakeCounter st =? 0) eqn:Hfirst.
  - apply N.eqb_eq in Hfirst. rewrite Hfirst in Hloop.
    change (0 + 1) with 1 in Hloop. rewrite rd_insert_eq in Hloop.
    cbn [active ReputationSystem.amount] in Hloop.
    by apply add_Some in Hloop.
  - apply N.eqb_neq in Hfirst.
    rewrite rd_insert_ne in Hloop by (intros [= ?]; lia).
    specialize (Hcount caller). rewrite Hnone in Hcount.
    symmetry in Hcount.
    unfold activeStakes in Hcount.
    eapply (sum_over_zero _ _ (caller, 1)) in Hcount;
      [|by rewrite isActiveStakeOf_eq, andb_false_r].
    rewrite isActiveStakeOf_eq in Hcount. cbn [fst] in Hcount.
    rewrite bool_decide_eq_true_2 in Hcount by done.
    destruct (active (rd (userStakes st) (caller, 1))); [done|].
    by injection Hloop as <-.
Qed.

(** The account 1 makes the first deposit of the contract and gains a
    staked reputation of 1000 for its 1000 tokens; the account 2 makes
    the second and gains none for its 500 tokens. *)
Lemma first_deposit_of_a_user_witness :
  stakedReputation (getUserProfile 1 staked) = 1000
  ∧ stakedReputation (getUserProfile 2 StakingScenarios.twoStakers) = 0.
Proof.
  split.
  - destruct (first_deposit_of_a_user 1 1000 (1000 * ether) (30 * days)
                Report (the (run [UpdateReputation deployer 900 1 50 true]
                               start)) staked) as [-> _].
    + exists deployer, self, funds.
      apply (ledger_run_rtc [UpdateReputation deployer 900 1 50 true]).
      by vm_compute.
    + by vm_compute.
    + by vm_compute.
    + by vm_compute.
  - destruct (first_deposit_of_a_user 2 1100 (500 * ether) (30 * days)
                Vote (the (run (staking
                                ++ [UpdateReputation deployer 950 2 50 true])
                             start)) StakingScenarios.twoStakers)
      as [-> _].
    + exists deployer, self, funds.
      apply (ledger_run_rtc
               (staking ++ [UpdateReputation deployer 950 2 50 true])).
      by vm_compute.
    + by vm_compute.
    + by vm_compute.
    + by vm_compute.
Defined.

(** X15. The tier grows with the reputation.  Whatever the thresholds,
    [_calculateTier] gives a tier that is no lower for a total reputation
    that is no lower; and the tier it gives, unless it is [Bronze], is
    one whose threshold is met. *)
Theorem tier_is_monotone st a b :
  a ≤ b →
  tierRank (_calculateTier st a) ≤ tierRank (_calculateTier st b)
  ∧ (_calculateTier st a ≠ Bronze →
     tierThresholds st (_calculateTier st a) ≤ a).
Proof.
  intros Hab. unfold _calculateTier.
  repeat match goal with
         | |- context [?x <=? ?y] => destruct (N.leb_spec x y)
         end; simpl; split; try lia; try done.
Qed.

Lemma tier_is_monotone_witness :
  tierRank (_calculateTier LedgerScenarios.start 60)
  ≤ tierRank (_calculateTier LedgerScenarios.start 1060).
Proof.
  destruct (tier_is_monotone LedgerScenarios.start 60 1060) as [H _];
    [lia|exact H].
Defined.

(** *** A stake is withdrawn once *)

Lemma step_closed user stakeId st st' :
  step st st' → closed user stakeId st → closed user stakeId st'.
Proof.
  intros [[caller now amount lockPeriod stakeType
          |caller now id
          |caller now u change isCorrectVote
          |caller u id reason
          |caller now|caller now|caller|caller
          |caller tier threshold|caller tier multiplier
          |caller stakeType multiplier] H] [Hid Hclosed]; simpl in H.
  - apply depositStake_shape in H as (_ & _ & _ & H).
    apply updateStakedReputation_shape in H as (totalStaked & _ & ->).
    split; cbn [_stakeCounter userStakes set_profile]; [lia|].
    rewrite rd_insert_ne; [done|]. intros [= _ ?]. lia.
  - apply withdrawStake_shape in H
      as (_ & _ & _ & _ & _ & s2 & Hs2 & _ & _ & _ & _ & Hc & _ & Hs & _).
    apply updateStakedReputation_shape in Hs2 as (totalStaked & _ & ->).
    cbn [_stakeCounter userStakes set_profile set_stakeCount set_stake]
      in Hc, Hs.
    split; [by rewrite Hc|]. rewrite Hs, rd_insert.
    case_decide; [done|done].
  - apply updateReputation_value in H as (_ & Hs & _ & _ & Hc).
    split; [by rewrite Hc|by rewrite Hs].
  - apply slashUser_shape in H as (_ & _ & Hactive & _ & s2 & Hs2 & ->).
    apply updateStakedReputation_shape in Hs2 as (totalStaked & _ & ->).
    split; [done|].
    cbn [userStakes set_profile set_stake set_totalRewards].
    rewrite rd_insert. case_decide as Hkey; [|done].
    injection Hkey as -> ->. congruence.
  - unfold distributeRewards in H. run_inv H. by injection H as <-.
  - by apply claimRewards_shape in H as (_ & _ & ->).
  - unfold pause in H. run_inv H. by injection H as <-.
  - unfold unpause in H. run_inv H. by injection H as <-.
  - unfold updateTierThreshold in H. run_inv H. by injection H as <-.
  - unfold updateTierMultiplier in H. run_inv H. by injection H as <-.
  - unfold updateStakeTypeMultiplier in H. run_inv H. by injection H as <-.
Qed.

(** X16. A stake is withdrawn once.  After a withdrawal the stake is
    closed for good: whatever the transactions that follow, a second
    withdrawal of it reverts and so does an attempt to slash it. *)
Theorem no_second_withdrawal caller now stakeId st st1 st2 :
  reachable st →
  withdrawStake caller now stakeId st = Some st1 →
  rtc step st1 st2 →
  (∀ now', withdrawStake caller now' stakeId st2 = None)
  ∧ ∀ sender reason, slashUser sender caller stakeId reason st2 = None.
Proof.
  intros Hfresh%reachable_freshStakes Hwithdraw Hrtc.
  assert (closed caller stakeId st1) as Hclosed.
  { apply withdrawStake_Some in Hwithdraw
      as (_ & Hpos & _ & _ & _ & Hs & _ & _ & Hc).
    split; [rewrite Hc; by eapply stake_listed|].
    by rewrite Hs, rd_insert_eq. }
  assert (closed caller stakeId st2) as [_ Hinactive].
  { clear Hwithdraw. induction Hrtc as [|s1 s2 s3 Hstep _ IH]; [done|].
    apply IH. by eapply step_closed. }
  split.
  - intros now'.
    destruct (withdrawStake caller now' stakeId st2) as [st3|] eqn:H; [|done].
    apply withdrawStake_shape in H as (_ & _ & Hactive & _). congruence.
  - intros sender reason.
    destruct (slashUser sender caller stakeId reason st2) as [st3|] eqn:H;
      [|done].
    apply slashUser_shape in H as (_ & _ & Hactive & _). congruence.
Qed.

(** The account 1 has withdrawn the stake 1 early; after the deposit of
    the account 2 it cannot withdraw it again, on time or not. *)
Lemma no_second_withdrawal_witness :
  withdrawStake 1 onTime 1 StakingScenarios.later = None.
Proof.
  destruct (no_second_withdrawal 1 early 1 staked withdrawnEarly
              StakingScenarios.later) as [Hwithdraw _].
  - apply staked_reachable.
  - by vm_compute.
  - apply (ledger_run_rtc StakingScenarios.afterwards). by vm_compute.
  - apply Hwithdraw.
Defined.

(** *** What a user can do, and when *)

(** X17. A user acts on its own account.  A transaction that is sent
    neither by the owner nor by the contract itself leaves the account
    of every other user as it was: its profile, its tokens, its stakes
    and its stake count (the tokens of the contract itself move with
    the stakes).  It changes no base reputation and no tier, not even
    the sender's, and none of the settings of the contract. *)
Theorem user_acts_on_own_account c st st' :
  exec c st = Some st' →
  callerOf c ≠ owner st → callerOf c ≠ this st →
  (∀ user, user ≠ callerOf c → user ≠ this st → sameAccount user st st')
  ∧ (∀ user,
       baseReputation (getUserProfile user st')
       = baseReputation (getUserProfile user st)
       ∧ tier (getUserProfile user st') = tier (getUserProfile user st))
  ∧ tierThresholds st' = tierThresholds st
  ∧ tierMultipliers st' = tierMultipliers st
  ∧ stakeTypeMultipliers st' = stakeTypeMultipliers st
  ∧ paused st' = paused st
  ∧ owner st' = owner st.
Proof.
  unfold getUserProfile, sameAccount.
  destruct c as [caller now amount lockPeriod stakeType
                |caller now id
                |caller now u change isCorrectVote
                |caller u id reason
                |caller now|caller now|caller|caller
                |caller tier threshold|caller tier multiplier
                |caller stakeType multiplier];
    cbn [exec callerOf]; intros H Howner Hthis.
  - apply depositStake_shape in H as (_ & _ & _ & H).
    apply updateStakedReputation_shape in H as (totalStaked & _ & ->).
    cbn [reputationProfiles token userStakeCount userStakes tierThresholds
         tierMultipliers stakeTypeMultipliers paused owner set_profile].
    split; [|split; [|done]].
    + intros user Huser _. rewrite !rd_insert_ne by congruence.
      do 3 (split; [done|]). intros i.
      rewrite rd_insert_ne; [done|]. congruence.
    + intros user. rewrite rd_insert. by case_decide; [subst user|].
  - apply withdrawStake_shape in H
      as (_ & _ & _ & _ & _ & s2 & Hs2 & _ & Ht & _ & _ & _ & Hp & Hs & Hc
          & Hth & Htm & Hsm & _ & _ & Hpa & Ho & _).
    apply updateStakedReputation_shape in Hs2 as (totalStaked & _ & ->).
    cbn [reputationProfiles token userStakeCount userStakes tierThresholds
         tierMultipliers stakeTypeMultipliers paused owner set_profile
         set_stakeCount set_stake] in *.
    rewrite Ht, Hp, Hs, Hc, Hth, Htm, Hsm, Hpa, Ho.
    split; [|split; [|done]].
    + intros user Huser _. rewrite !rd_insert_ne by congruence.
      do 3 (split; [done|]). intros i.
      rewrite rd_insert_ne; [done|]. congruence.
    + intros user. rewrite rd_insert. by case_decide; [subst user|].
  - apply updateReputation_shape in H as ([?|?] & _); congruence.
  - apply slashUser_shape in H as (? & _). congruence.
  - unfold distributeRewards in H.
    apply bind_Some in H as (? & ?%require_Some%N.eqb_eq & _). congruence.
  - apply claimRewards_shape in H as (_ & _ & ->).
    cbn [reputationProfiles token userStakeCount userStakes tierThresholds
         tierMultipliers stakeTypeMultipliers paused owner].
    split; [|done]. intros user Huser _.
    rewrite rd_insert_ne by congruence. done.
  - unfold pause in H.
    apply bind_Some in H as (? & ?%require_Some%N.eqb_eq & _). congruence.
  - unfold unpause in H.
    apply bind_Some in H as (? & ?%require_Some%N.eqb_eq & _). congruence.
  - unfold updateTierThreshold in H.
    apply bind_Some in H as (? & ?%require_Some%N.eqb_eq & _). congruence.
  - unfold updateTierMultiplier in H.
    apply bind_Some in H as (? & ?%require_Some%N.eqb_eq & _). congruence.
  - unfold updateStakeTypeMultiplier in H.
    apply bind_Some in H as (? & ?%require_Some%N.eqb_eq & _). congruence.
Qed.

(** The early withdrawal of the account 1 leaves the account 2 alone. *)
Lemma user_acts_on_own_account_witness :
  rd (token withdrawnEarly) 2 = 10000 * ether
  ∧ tier (getUserProfile 1 withdrawnEarly) = tier (getUserProfile 1 staked).
Proof.
  destruct (user_acts_on_own_account (WithdrawStake 1 early 1) staked
              withdrawnEarly) as (Hothers & Hsame & _).
  - by vm_compute.
  - by vm_compute.
  - by vm_compute.
  - split; [|apply Hsame].
    destruct (Hothers 2) as (_ & -> & _); by vm_compute.
Defined.

(** X18. A paused ledger serves the owner only.  While the ledger is
    paused every transaction of a user reverts: a transaction that
    succeeds is sent by the owner (or by the contract itself).  The
    owner can still change reputations and slash stakes.  A pause
    followed by [unpause] restores the storage as it was. *)
Theorem paused_ledger_serves_the_owner :
  (∀ c st st',
     paused st = true → exec c st = Some st' →
     callerOf c = owner st ∨ callerOf c = this st)
  ∧ (∀ caller st st1,
       pause caller st = Some st1 →
       paused st1 = true ∧ unpause caller st1 = Some st).
Proof.
  split.
  - intros c st st' Hpaused.
    destruct c as [caller now amount lockPeriod stakeType
                  |caller now id
                  |caller now u change isCorrectVote
                  |caller u id reason
                  |caller now|caller now|caller|caller
                  |caller tier threshold|caller tier multiplier
                  |caller stakeType multiplier];
      cbn [exec callerOf]; intros H.
    + apply depositStake_shape in H as (? & _). congruence.
    + apply withdrawStake_shape in H as (? & _). congruence.
    + by apply updateReputation_shape in H as (? & _).
    + apply slashUser_shape in H as (? & _). by left.
    + unfold distributeRewards in H.
      apply bind_Some in H as (? & ?%require_Some%N.eqb_eq & _). by left.
    + apply claimRewards_shape in H as (? & _). congruence.
    + unfold pause in H.
      apply bind_Some in H as (? & ?%require_Some%N.eqb_eq & _). by left.
    + unfold unpause in H.
      apply bind_Some in H as (? & ?%require_Some%N.eqb_eq & _). by left.
    + unfold updateTierThreshold in H.
      apply bind_Some in H as (? & ?%require_Some%N.eqb_eq & _). by left.
    + unfold updateTierMultiplier in H.
      apply bind_Some in H as (? & ?%require_Some%N.eqb_eq & _). by left.
    + unfold updateStakeTypeMultiplier in H.
      apply bind_Some in H as (? & ?%require_Some%N.eqb_eq & _). by left.
  - intros caller st st1 H. unfold pause in H.
    apply bind_Some in H as (? & Howner%require_Some & H).
    apply bind_Some in H as (? & Hrunning%require_Some%negb_true_iff & H).
    injection H as <-. split; [done|].
    unfold unpause. cbn [owner paused set_paused]. rewrite Howner. simpl.
    destruct st. simpl in *. by subst.
Qed.

(** In the paused ledger the account 2 cannot stake and the owner can
    still lower its reputation; the pause undone, the ledger is as it
    was before. *)
Lemma paused_ledger_serves_the_owner_witness :
  depositStake 2 1100 (500 * ether) (30 * days) Vote
    StakingScenarios.pausedLedger = None
  ∧ unpause deployer StakingScenarios.pausedLedger = Some withdrawnEarly.
Proof.
  destruct paused_ledger_serves_the_owner as [Hserves Hundo]. split.
  - apply eq_None_not_Some. intros [st' H].
    assert (paused StakingScenarios.pausedLedger = true) as Hpaused
      by (by vm_compute).
    destruct (Hserves (DepositStake 2 1100 (500 * ether) (30 * days) Vote)
                StakingScenarios.pausedLedger st' Hpaused H) as [Ho|Ho];
      vm_compute in Ho; discriminate.
  - apply (Hundo deployer withdrawnEarly StakingScenarios.pausedLedger).
    by vm_compute.
Defined.

End LedgerBooks.

(** ** PhishBlockRegistry: the rate limit, the votes and the owner *)

Section Voting.
Import PhishBlockRegistry PhishBlockVoting.

Variable keccak256 :
  address → string → string → string → string → N → N → N.

Lemma submitReport_shape caller now targetUrl targetWallet description
    ipfsHash evidenceType st st' :
  submitReport keccak256 caller now targetUrl targetWallet description
    ipfsHash evidenceType st = Some st' →
  let elapsed := now - rd (lastSubmissionTime st) caller in
  paused st = false
  ∧ rd (lastSubmissionTime st) caller ≤ now
  ∧ (elapsed < RATE_LIMIT_WINDOW →
     rd (submissionCount st) caller < MAX_SUBMISSIONS_PER_WINDOW)
  ∧ (nonempty targetUrl = true → rd (urlBlacklist st) targetUrl = false)
  ∧ (nonempty targetWallet = true →
     rd (walletBlacklist st) targetWallet = false)
  ∧ st' =
      mkState (_reportCounter st + 1)
        (<[keccak256 caller targetUrl targetWallet description ipfsHash now
             (_reportCounter st + 1) :=
             mkReport
               (keccak256 caller targetUrl targetWallet description ipfsHash
                  now (_reportCounter st + 1))
               caller targetUrl targetWallet description ipfsHash
               evidenceType Pending now 0 0 0 true]> (reports st))
        (userReputation st)
        (<[caller := now]> (lastSubmissionTime st))
        (<[caller := if RATE_LIMIT_WINDOW <=? elapsed then 1
                     else rd (submissionCount st) caller + 1]>
           (submissionCount st))
        (urlBlacklist st) (walletBlacklist st) (paused st) (owner st).
Proof.
  unfold submitReport. intros H.
  apply bind_Some in H as (? & Hpaused%require_Some%negb_true_iff & H).
  apply bind_Some in H as (? & _ & H).
  apply bind_Some in H as (elapsed & (Hlast & ->)%sub_Some & H).
  apply bind_Some in H as (? & Hlimit%require_Some%orb_true_iff & H).
  do 3 (apply bind_Some in H as (? & _ & H)).
  apply bind_Some in H as (? & Hurl%require_Some & H).
  apply bind_Some in H as (? & Hwallet%require_Some & H).
  apply bind_Some in H as (count & Hcount & H).
  injection H as <-. simpl. do 2 (split; [done|]).
  split; [|split; [|split]].
  - intros Hshort. destruct Hlimit as [?%N.leb_le|?%N.ltb_lt]; [lia|done].
  - intros Hne. rewrite Hne in Hurl. by apply negb_true_iff in Hurl.
  - intros Hne. rewrite Hne in Hwallet. by apply negb_true_iff in Hwallet.
  - destruct (RATE_LIMIT_WINDOW <=? _).
    + by injection Hcount as <-.
    + by apply add_Some in Hcount as ->.
Qed.

(** *** The rate limit *)

Lemma submission_step caller c t s s' :
  submissionBy caller c = Some t →
  exec keccak256 c s = Some s' →
  rd (lastSubmissionTime (registry s)) caller ≤ t
  ∧ rd (lastSubmissionTime (registry s')) caller = t
  ∧ 1 ≤ rd (submissionCount (registry s')) caller
  ∧ (t - rd (lastSubmissionTime (registry s)) caller < RATE_LIMIT_WINDOW →
     rd (submissionCount (registry s)) caller < MAX_SUBMISSIONS_PER_WINDOW
     ∧ rd (submissionCount (registry s')) caller
       = rd (submissionCount (registry s)) caller + 1).
Proof.
  destruct c as [sender now targetUrl targetWallet description ipfsHash
                   evidenceType| | | | | | | |]; try done.
  simpl. destruct (sender =? caller) eqn:Hsender; [|done].
  apply N.eqb_eq in Hsender as ->. intros [= ->] H.
  unfold lift in H. apply bind_Some in H as (st' & H & [= <-]).
  apply submitReport_shape in H as (_ & Hlast & Hlimit & _ & _ & ->).
  simpl. rewrite !rd_insert_eq. split; [done|]. split; [done|]. split.
  - destruct (RATE_LIMIT_WINDOW <=? _); lia.
  - intros Hshort. split; [by apply Hlimit|].
    apply N.leb_gt in Hshort. by rewrite Hshort.
Qed.

Lemma burst_bound caller calls times t n s s' :
  Forall2 (λ c t, submissionBy caller c = Some t) calls times →
  rapid t times →
  rd (lastSubmissionTime (registry s)) caller = t →
  n ≤ rd (submissionCount (registry s)) caller →
  run keccak256 calls s = Some s' →
  times ≠ [] →
  n + N.of_nat (length times) ≤ MAX_SUBMISSIONS_PER_WINDOW.
Proof.
  intros Hcalls. revert t n s.
  induction Hcalls as [|c t' calls times Hc Hcalls IH];
    intros t n s Hrapid Hlast Hn Hrun Hsome; [done|].
  destruct Hrapid as (Hle & Hshort & Hrapid).
  unfold run in Hrun. simpl in Hrun.
  apply bind_Some in Hrun as (s1 & Hstep & Hrun).
  apply (submission_step caller c t' s s1 Hc) in Hstep
    as (_ & Hlast' & _ & Hcount).
  rewrite Hlast in Hcount. destruct (Hcount Hshort) as [Hlt Hcount'].
  destruct times as [|t'' times].
  - simpl. lia.
  - specialize (IH t' (n + 1) s1 Hrapid Hlast' ltac:(lia) Hrun ltac:(done)).
    simpl length in *. lia.
Qed.

(** X19. The rate limit.  Six submissions of one account in a row, each
    less than [RATE_LIMIT_WINDOW] (one hour) after the one before, never
    all succeed, whatever the state they start from and whatever they
    report: the sixth at the latest reverts, and the run with it. *)
Theorem rate_limit_stops_the_sixth caller calls t times s :
  Forall2 (λ c t, submissionBy caller c = Some t) calls (t :: times) →
  rapid t times →
  (5 ≤ length times)%nat →
  run keccak256 calls s = None.
Proof.
  intros Hcalls Hrapid Hlong.
  apply eq_None_not_Some. intros [s' Hrun].
  apply Forall2_cons_inv_r in Hcalls as (c & calls' & Hc & Hcalls & ->).
  unfold run in Hrun. simpl in Hrun.
  apply bind_Some in Hrun as (s1 & Hstep & Hrun).
  apply (submission_step caller c t s s1 Hc) in Hstep
    as (_ & Hlast & Hone & _).
  opose proof (burst_bound caller calls' times t 1 s1 s' Hcalls Hrapid Hlast
                 Hone Hrun _) as Hbound.
  { intros ->. simpl in Hlong. lia. }
  unfold MAX_SUBMISSIONS_PER_WINDOW in Hbound. lia.
Qed.

(** *** Votes *)

Lemma vote_disputes caller now id upvote s s' :
  vote caller now id upvote s = Some s' → disputes s' = disputes s.
Proof.
  unfold vote. intros H.
  do 4 (apply bind_Some in H as (? & _ & H)).
  apply bind_Some in H as (deadline & _ & H).
  apply bind_Some in H as (? & _ & H).
  destruct (hasVoted _).
  - destruct (Bool.eqb _ _); [by injection H as <-|].
    apply bind_Some in H as ([up down] & _ & H).
    apply bind_Some in H as ([up' down'] & _ & H).
    apply bind_Some in H as (? & _ & H). by injection H as <-.
  - apply bind_Some in H as ([up down] & _ & H).
    apply bind_Some in H as (? & _ & H). by injection H as <-.
Qed.

(** X20. A changed vote is the other vote.  When a voter casts a first
    vote on a report and then changes it, the storage is what the other
    vote, cast at first, would have left: the weight of the voter has
    moved from one tally to the other and is counted once. *)
Theorem changed_vote_is_the_other_vote caller t1 t2 id upvote s s1 s2 :
  hasVoted (getUserVote id caller s) = false →
  vote caller t1 id upvote s = Some s1 →
  vote caller t2 id (negb upvote) s1 = Some s2 →
  vote caller t1 id (negb upvote) s = Some s2.
Proof.
  unfold getUserVote. intros Hnew H1 H2.
  unfold vote in H1 |- *. rewrite Hnew in H1 |- *.
  apply bind_Some in H1 as ([] & G1 & H1). rewrite G1. simpl.
  apply bind_Some in H1 as ([] & G2 & H1). rewrite G2. simpl.
  apply bind_Some in H1 as ([] & G3 & H1). rewrite G3. simpl.
  apply bind_Some in H1 as ([] & G4 & H1). rewrite G4. simpl.
  apply bind_Some in H1 as (deadline & Gd & H1). rewrite Gd. simpl.
  apply bind_Some in H1 as ([] & G5 & H1). rewrite G5. simpl.
  apply bind_Some in H1 as ([up down] & Htally & H1).
  apply bind_Some in H1 as (sc & _ & H1). injection H1 as <-.
  unfold vote in H2.
  cbn [registry votes disputes set_report paused userReputation reports]
    in H2.
  rewrite !rd_insert_eq in H2.
  cbn [hasVoted isUpvote reputationWeight vote_timestamp set_tallies exists_
       status timestamp upvotes downvotes] in H2.
  do 4 (apply bind_Some in H2 as (? & _ & H2)).
  apply bind_Some in H2 as (deadline' & _ & H2).
  apply bind_Some in H2 as (? & _ & H2).
  destruct upvote; cbn [negb Bool.eqb] in *.
  - apply bind_Some in Htally as (up1 & ->%add_Some & [= <- <-]).
    apply bind_Some in H2 as ([up2 down2] & Hremove & H2).
    apply bind_Some in Hremove as (up3 & (_ & ->)%sub_Some & [= <- <-]).
    apply bind_Some in H2 as ([up4 down4] & Hadd & H2).
    apply bind_Some in Hadd as (down5 & Hdown & [= <- <-]).
    apply bind_Some in H2 as (sc2 & Hscore & H2). injection H2 as <-.
    rewrite Hdown. simpl.
    unfold score in Hscore |- *. cbn [upvotes downvotes set_tallies] in *.
    rewrite N.add_sub in *. rewrite Hscore. simpl.
    unfold set_report, set_tallies. simpl.
    by rewrite !insert_insert_eq.
  - apply bind_Some in Htally as (down1 & ->%add_Some & [= <- <-]).
    apply bind_Some in H2 as ([up2 down2] & Hremove & H2).
    apply bind_Some in Hremove as (down3 & (_ & ->)%sub_Some & [= <- <-]).
    apply bind_Some in H2 as ([up4 down4] & Hadd & H2).
    apply bind_Some in Hadd as (up5 & Hup & [= <- <-]).
    apply bind_Some in H2 as (sc2 & Hscore & H2). injection H2 as <-.
    rewrite Hup. simpl.
    unfold score in Hscore |- *. cbn [upvotes downvotes set_tallies] in *.
    rewrite N.add_sub in *. rewrite Hscore. simpl.
    unfold set_report, set_tallies. simpl.
    by rewrite !insert_insert_eq.
Qed.

Lemma vote_effect caller now id upvote s s' :
  vote caller now id upvote s = Some s' →
  paused (registry s') = false
  ∧ userReputation (registry s') = userReputation (registry s)
  ∧ MIN_REPUTATION_TO_VOTE ≤ rd (userReputation (registry s)) caller
  ∧ exists_ (rd (reports (registry s')) id) = true
  ∧ status (rd (reports (registry s')) id)
    = status (rd (reports (registry s)) id)
  ∧ (status (rd (reports (registry s)) id) = Pending
     ∨ status (rd (reports (registry s)) id) = Verified)
  ∧ timestamp (rd (reports (registry s')) id)
    = timestamp (rd (reports (registry s)) id)
  ∧ timestamp (rd (reports (registry s)) id) + VOTE_TIMEOUT ≤ MAX_UINT256
  ∧ hasVoted (rd (votes s') (id, caller)) = true
  ∧ isUpvote (rd (votes s') (id, caller)) = upvote.
Proof.
  unfold vote. intros H.
  apply bind_Some in H as (? & Hpaused%require_Some%negb_true_iff & H).
  apply bind_Some in H as (? & Hrep%require_Some%N.leb_le & H).
  apply bind_Some in H as (? & Hexists%require_Some & H).
  apply bind_Some in H as (? & Hactive%require_Some%orb_true_iff & H).
  apply bind_Some in H as (deadline & Hdeadline & H).
  apply bind_Some in H as (? & _ & H).
  assert (status (rd (reports (registry s)) id) = Pending
          ∨ status (rd (reports (registry s)) id) = Verified) as Hstatus.
  { destruct Hactive as [?%bool_decide_eq_true|?%bool_decide_eq_true];
      auto. }
  assert (timestamp (rd (reports (registry s)) id) + VOTE_TIMEOUT
          ≤ MAX_UINT256) as Hfits.
  { unfold add in Hdeadline.
    destruct (_ <=? MAX_UINT256) eqn:Hle in Hdeadline; [|done].
    by apply N.leb_le in Hle. }
  destruct (hasVoted _) eqn:Hvoted.
  - destruct (Bool.eqb _ _) eqn:Hsame.
    + injection H as <-. apply Bool.eqb_prop in Hsame. done.
    + apply bind_Some in H as ([up down] & _ & H).
      apply bind_Some in H as ([up' down'] & _ & H).
      apply bind_Some in H as (? & _ & H). injection H as <-.
      simpl. rewrite !rd_insert_eq. done.
  - apply bind_Some in H as ([up down] & _ & H).
    apply bind_Some in H as (? & _ & H). injection H as <-.
    simpl. rewrite !rd_insert_eq. done.
Qed.

(** X21. A repeated vote changes nothing.  After a vote of a voter on a
    report, the same vote of the same voter, while the voting period
    lasts, succeeds and leaves the storage as it is: the weight is not
    added again. *)
Theorem repeated_vote_changes_nothing caller t1 t2 id upvote s s1 :
  vote caller t1 id upvote s = Some s1 →
  t2 ≤ timestamp (rd (reports (registry s)) id) + VOTE_TIMEOUT →
  vote caller t2 id upvote s1 = Some s1.
Proof.
  intros (Hpaused & Hrep & Hmin & Hexists & Hstatus & Hactive & Htime & Hfits
          & Hvoted & Hup)%vote_effect Hopen.
  unfold vote.
  rewrite Hpaused, Hrep, Hexists, Hstatus, Htime, Hvoted, Hup. simpl.
  apply N.leb_le in Hmin. rewrite Hmin. simpl.
  assert (bool_decide (status (rd (reports (registry s)) id) = Pending)
          || bool_decide (status (rd (reports (registry s)) id) = Verified)
          = true) as ->.
  { destruct Hactive as [->| ->]; done. }
  simpl. unfold add. apply N.leb_le in Hfits. rewrite Hfits. simpl.
  apply N.leb_le in Hopen. rewrite Hopen. simpl.
  by rewrite Bool.eqb_reflx.
Qed.

(** *** The functions of the owner *)

Lemma updateReportStatus_shape caller id newStatus st st' :
  updateReportStatus caller id newStatus st = Some st' →
  let report := rd (reports st) id in
  let reputation := rd (userReputation st) (reporter report) in
  caller = owner st
  ∧ exists_ report = true
  ∧ st' =
      mkState (_reportCounter st)
        (<[id := set_status newStatus report]> (reports st))
        (match newStatus with
         | Verified =>
             <[reporter report := reputation + REPUTATION_REWARD_REPORT]>
               (userReputation st)
         | Disputed =>
             <[reporter report :=
                 reputation - REPUTATION_PENALTY_FALSE_REPORT]>
               (userReputation st)
         | _ => userReputation st
         end)
        (lastSubmissionTime st) (submissionCount st) (urlBlacklist st)
        (walletBlacklist st) (paused st) (owner st).
Proof.
  unfold updateReportStatus. intros H.
  apply bind_Some in H as (? & Howner%require_Some%N.eqb_eq & H).
  apply bind_Some in H as (? & Hexists%require_Some & H).
  simpl. do 2 (split; [done|]).
  destruct newStatus; unfold _updateReputation in H; simpl in H.
  - by injection H as <-.
  - apply bind_Some in H as (reputation & ->%add_Some & H).
    by injection H as <-.
  - injection H as <-. unfold set_reputation. simpl.
    destruct (5 <=? _) eqn:Hfloor; [done|].
    apply N.leb_gt in Hfloor. do 2 f_equal. unfold
      REPUTATION_PENALTY_FALSE_REPORT. f_equal. lia.
  - by injection H as <-.
Qed.

(** X22. A status change pays every time.  [updateReportStatus] looks at
    the new status only, not at the old one: every call with [Verified]
    adds [REPUTATION_REWARD_REPORT] to the reputation of the reporter,
    every call with [Disputed] takes
    [REPUTATION_PENALTY_FALSE_REPORT] from it, down to 0, also when
    the report has that status already; the other two change no
    reputation. *)
Theorem status_change_pays_every_time caller id newStatus n s s' :
  run keccak256 (replicate n (UpdateReportStatus caller id newStatus)) s
  = Some s' →
  let author := reporter (rd (reports (registry s)) id) in
  getUserReputation author s' =
  match newStatus with
  | Verified =>
      getUserReputation author s + REPUTATION_REWARD_REPORT * N.of_nat n
  | Disputed =>
      getUserReputation author s
      - REPUTATION_PENALTY_FALSE_REPORT * N.of_nat n
  | _ => getUserReputation author s
  end.
Proof.
  unfold getUserReputation, run. revert s.
  induction n as [|n IH]; intros s H; simpl in H.
  - injection H as <-. simpl. destruct newStatus; lia.
  - apply bind_Some in H as (s1 & Hstep & H).
    unfold lift in Hstep. apply bind_Some in Hstep as (st1 & Hstep & [= <-]).
    apply updateReportStatus_shape in Hstep as (_ & _ & ->).
    apply IH in H. simpl in H. rewrite rd_insert_eq in H.
    cbn [reporter set_status] in H. simpl. rewrite H.
    destruct newStatus; rewrite ?rd_insert_eq; lia.
Qed.

(** X23. The blacklists.  Once the owner has put a target on the list of
    the URLs, or of the wallets, every report of that URL, or of that
    wallet, reverts, whoever submits it; the other list is as before, so
    that the same text can still be reported as the other kind of
    target; and [removeFromBlacklist] takes the target off the list
    again. *)
Theorem blacklisted_target_is_refused caller target isUrl st st1 :
  addToBlacklist caller target isUrl st = Some st1 →
  (∀ sender now other description ipfsHash evidenceType,
     submitReport keccak256 sender now
       (if isUrl then target else other) (if isUrl then other else target)
       description ipfsHash evidenceType st1 = None)
  ∧ (if isUrl then walletBlacklist st1 = walletBlacklist st
     else urlBlacklist st1 = urlBlacklist st)
  ∧ ∃ st2,
      removeFromBlacklist caller target isUrl st1 = Some st2
      ∧ rd (if isUrl then urlBlacklist st2 else walletBlacklist st2) target
        = false.
Proof.
  unfold addToBlacklist. intros H.
  apply bind_Some in H as (? & Howner%require_Some & H).
  apply bind_Some in H as (? & Htarget%require_Some & H).
  injection H as <-. split; [|split].
  - intros sender now other description ipfsHash evidenceType.
    apply eq_None_not_Some. intros [st2 H].
    apply submitReport_shape in H as (_ & _ & _ & Hurl & Hwallet & _).
    destruct isUrl; simpl in *.
    + specialize (Hurl Htarget). by rewrite rd_insert_eq in Hurl.
    + specialize (Hwallet Htarget). by rewrite rd_insert_eq in Hwallet.
  - by destruct isUrl.
  - unfold removeFromBlacklist. simpl. rewrite Howner, Htarget. simpl.
    eexists. split; [done|]. destruct isUrl; simpl; by rewrite rd_insert_eq.
Qed.

(** *** Disputes *)

Lemma step_disputes s s' :
  step keccak256 s s' →
  disputes s' = disputes s
  ∨ ∃ id d,
      resolved d = false
      ∧ disputes s' = <[id := rd (disputes s) id ++ [d]]> (disputes s).
Proof.
  intros [[sender now targetUrl targetWallet description ipfsHash
             evidenceType
          |sender now id upvote|sender now id why|sender id newStatus
          |sender target isUrl|sender target isUrl|sender|sender
          |sender user newReputation] H]; cbn [exec] in H;
    try (unfold lift in H; apply bind_Some in H as (st' & _ & [= <-]);
         by left).
  - left. by eapply vote_disputes.
  - right. unfold raiseDispute in H.
    do 5 (apply bind_Some in H as (? & _ & H)).
    apply bind_Some in H as (deadline & _ & H).
    apply bind_Some in H as (? & _ & H).
    apply bind_Some in H as (count & _ & H).
    injection H as <-. simpl.
    by exists id, (mkDispute sender why now false).
Qed.

(** X24. Disputes are kept and never resolved.  The disputes of a report
    are only ever appended to: what [getDisputes] lists stays listed, in
    its place, whatever the transactions that follow.  And no function
    sets [resolved]: in every reachable state every dispute is
    unresolved, whatever the owner has made of the report. *)
Theorem disputes_are_kept_and_never_resolved s s' id :
  reachable keccak256 s →
  rtc (step keccak256) s s' →
  rd (disputes s) id `prefix_of` rd (disputes s') id
  ∧ ∀ d, d ∈ rd (disputes s') id → resolved d = false.
Proof.
  intros [deployer Hreach] Hrtc. split.
  - clear Hreach. induction Hrtc as [|s1 s2 s3 Hstep _ IH]; [done|].
    etrans; [|exact IH].
    apply step_disputes in Hstep as [->|(j & d & _ & ->)]; [done|].
    rewrite rd_insert. case_decide; [subst j|done].
    by apply prefix_app_r.
  - assert (rtc (step keccak256) (init deployer) s') as Hall
      by (by etrans).
    clear Hreach Hrtc. revert id.
    enough (unresolved s') as Hun by (intros id d; apply Hun).
    revert s' Hall. apply rtc_ind_r.
    + intros id d. simpl. rewrite rd_empty. by intros ?%elem_of_nil.
    + intros s1 s2 _ Hstep IH id d.
      apply step_disputes in Hstep as [->|(j & d' & Hd' & ->)]; [apply IH|].
      rewrite rd_insert. case_decide; [subst j|apply IH].
      intros [?| ->%list_elem_of_singleton]%elem_of_app; [by eapply IH|done].
Qed.

End Voting.

Section VotingWitnesses.
Import PhishBlockRegistry PhishBlockVoting VotingScenarios.

(** Six submissions of the owner ten minutes apart, from the start. *)
Lemma rate_limit_stops_the_sixth_witness : run counterHash burst start = None.
Proof.
  apply (rate_limit_stops_the_sixth counterHash deployer burst 600
           [1200; 1800; 2400; 3000; 3600] start).
  - repeat constructor.
  - vm_compute. repeat split; congruence.
  - simpl. lia.
Defined.

Lemma voting_run_rtc calls s s' :
  run counterHash calls s = Some s' → rtc (step counterHash) s s'.
Proof.
  unfold run. revert s. induction calls as [|c calls IH]; intros s H.
  - injection H as <-. apply rtc_refl.
  - simpl in H. apply bind_Some in H as (s1 & H1 & H).
    eapply rtc_l; [by exists c|by apply IH].
Qed.

Lemma reported_reachable : reachable counterHash reported.
Proof. exists deployer. apply (voting_run_rtc reporting). by vm_compute. Qed.

(** The account 2, of reputation 30, votes the report 1 up and then
    down: the tallies are those of a vote down. *)
Lemma changed_vote_is_the_other_vote_witness :
  vote 2 1100 1 false reported = Some changed
  ∧ upvotes (rd (reports (registry changed)) 1) = 0
  ∧ downvotes (rd (reports (registry changed)) 1) = 30.
Proof.
  split; [|by vm_compute].
  apply (changed_vote_is_the_other_vote 2 1100 1200 1 true reported upvoted
           changed); by vm_compute.
Defined.

Lemma repeated_vote_changes_nothing_witness :
  vote 2 5000 1 true upvoted = Some upvoted
  ∧ upvotes (rd (reports (registry upvoted)) 1) = 30.
Proof.
  split; [|by vm_compute].
  apply (repeated_vote_changes_nothing 2 1100 5000 1 true reported upvoted).
  - by vm_compute.
  - vm_compute. congruence.
Defined.

(** The report 1 of the account 1, of reputation 20, verified three
    times. *)
Lemma status_change_pays_every_time_witness :
  getUserReputation 1 verified = 26.
Proof.
  assert (run counterHash verifying reported = Some verified) as Hrun
    by (by vm_compute).
  pose proof (status_change_pays_every_time counterHash deployer 1 Verified
                3 reported verified Hrun) as H.
  cbv zeta in H.
  transitivity (getUserReputation 1 reported + 2 * 3);
    [exact H|by vm_compute].
Defined.

(** The owner blacklists the URL of the report 1: the account 1 cannot
    report it again. *)
Lemma blacklisted_target_is_refused_witness :
  submitReport counterHash 1 2000 "http://phish.example" EmptyString
    "again" "QmAgain" URL (registry blacklisted) = None.
Proof.
  destruct (blacklisted_target_is_refused counterHash deployer
              "http://phish.example" true (registry reported)
              (registry blacklisted))
    as [Hrefused _]; [by vm_compute|].
  apply (Hrefused 1 2000 EmptyString "again" "QmAgain" URL).
Defined.

(** The dispute of the account 2 is still listed, and unresolved, after
    the owner has marked the report disputed and resolved. *)
Lemma disputes_are_kept_and_never_resolved_witness :
  status (rd (reports (registry disputed)) 1) = Resolved
  ∧ ∀ d, d ∈ rd (disputes disputed) 1 → resolved d = false.
Proof.
  split; [by vm_compute|].
  destruct (disputes_are_kept_and_never_resolved counterHash reported
              disputed 1) as [_ Hun].
  - apply reported_reachable.
  - apply (voting_run_rtc disputing). by vm_compute.
  - exact Hun.
Defined.

End VotingWitnesses.

(** ** EvidenceValidator: hashes, verdicts and the books *)

Section EvidenceBooks.
Import EvidenceValidator EvidenceAdmin.

Variable keccak256 : address → string → EvidenceType → N → N → N → N.

Lemma submitEvidence_shape caller now hash evidenceType size mime url
    description st st' :
  submitEvidence keccak256 caller now hash evidenceType size mime url
    description st = Some st' →
  let evidenceId :=
    keccak256 caller hash evidenceType size now (_evidenceCounter st + 1) in
  paused st = false
  ∧ rd (knownIPFSHashes st) hash = false
  ∧ st' =
      mkState (_evidenceCounter st + 1)
        (<[evidenceId :=
             mkEvidence evidenceId caller hash evidenceType Pending Basic
               now size mime url description true
               (validators (rd (evidence st) evidenceId)) 0 0 0]>
           (evidence st))
        (validationResults st)
        (<[evidenceId := mkIPFSMetadata hash size mime "base58" now false]>
           (ipfsMetadata st))
        (validatorReputation st) (authorizedValidators st)
        (<[hash := true]> (knownIPFSHashes st))
        (allEvidenceIds st ++ [evidenceId]) (validatorList st) (paused st)
        (owner st).
Proof.
  unfold submitEvidence. intros H.
  apply bind_Some in H as (? & Hpaused%require_Some%negb_true_iff & H).
  do 5 (apply bind_Some in H as (? & _ & H)).
  apply bind_Some in H as (? & Hnew%require_Some%negb_true_iff & H).
  by injection H as <-.
Qed.

Lemma validateEvidence_shape caller now evidenceId isValid reason level
    st st' :
  validateEvidence caller now evidenceId isValid reason level st = Some st' →
  let ev := rd (evidence st) evidenceId in
  paused st = false
  ∧ rd (authorizedValidators st) caller = true
  ∧ exists_ ev = true
  ∧ rd (validators ev) caller = false
  ∧ ∃ ev',
      evidence st' = <[evidenceId := ev']> (evidence st)
      ∧ validators ev' = <[caller := true]> (validators ev)
      ∧ validationCount ev' = validationCount ev + 1
      ∧ positiveValidations ev'
        = positiveValidations ev + (if isValid then 1 else 0)
      ∧ negativeValidations ev'
        = negativeValidations ev + (if isValid then 0 else 1)
      ∧ exists_ ev' = exists_ ev
      ∧ ipfsHash ev' = ipfsHash ev
      ∧ fileSize ev' = fileSize ev
      ∧ mimeType ev' = mimeType ev
      ∧ _evidenceCounter st' = _evidenceCounter st
      ∧ ipfsMetadata st' = ipfsMetadata st
      ∧ authorizedValidators st' = authorizedValidators st
      ∧ knownIPFSHashes st' = knownIPFSHashes st
      ∧ allEvidenceIds st' = allEvidenceIds st
      ∧ validatorList st' = validatorList st
      ∧ paused st' = paused st
      ∧ owner st' = owner st.
Proof.
  unfold validateEvidence. intros H.
  apply bind_Some in H as (? & Hpaused%require_Some%negb_true_iff & H).
  apply bind_Some in H as (? & Hauth%require_Some & H).
  apply bind_Some in H as (? & _ & H).
  apply bind_Some in H as (? & Hexists%require_Some & H).
  do 2 (apply bind_Some in H as (? & _ & H)).
  apply bind_Some in H as (? & Hnew%require_Some%negb_true_iff & H).
  apply bind_Some in H as (deadline & _ & H).
  apply bind_Some in H as (? & _ & H).
  apply bind_Some in H as (count & ->%add_Some & H).
  apply bind_Some in H as (positive & Hpositive & H).
  apply bind_Some in H as (negative & Hnegative & H).
  apply bind_Some in H as (reputation & _ & H).
  simpl in H |- *. do 4 (split; [done|]).
  assert (positive = positiveValidations (rd (evidence st) evidenceId)
                     + (if isValid then 1 else 0)) as ->.
  { destruct isValid; [by apply add_Some in Hpositive|].
    injection Hpositive as <-. lia. }
  assert (negative = negativeValidations (rd (evidence st) evidenceId)
                     + (if isValid then 0 else 1)) as ->.
  { destruct isValid; [|by apply add_Some in Hnegative].
    injection Hnegative as <-. lia. }
  destruct (MIN_VALIDATIONS_REQUIRED <=? _); injection H as <-.
  - unfold _finalizeValidation. simpl. rewrite rd_insert_eq.
    destruct (_ <? _); simpl; eexists;
      (split; [by rewrite insert_insert_eq|]); simpl; done.
  - simpl. eexists. split; [done|]. simpl. done.
Qed.

(** *** One submission for each hash, one verdict for each validator *)

Lemma step_known hash s s' :
  step keccak256 s s' →
  rd (knownIPFSHashes (validation s)) hash = true →
  rd (knownIPFSHashes (validation s')) hash = true.
Proof.
  intros [[caller now h evidenceType size mime url description
          |caller now evidenceId isValid reason level
          |caller evidenceId verified
          |caller evidenceId phishing malicious suspicious score patterns
             factors
          |caller validator initialReputation|caller validator
          |caller pattern isActive|caller domain isActive|caller|caller
          |caller validator newReputation|caller evidenceId newStatus] H]
    Hknown; cbn [exec] in H.
  - unfold lift in H. apply bind_Some in H as (st' & H & [= <-]).
    apply submitEvidence_shape in H as (_ & _ & ->). simpl.
    rewrite rd_insert. by case_decide.
  - unfold lift in H. apply bind_Some in H as (st' & H & [= <-]).
    apply validateEvidence_shape in H
      as (_ & _ & _ & _ & ev' & _ & _ & _ & _ & _ & _ & _ & _ & _ & _ & _ & _
          & Hk & _).
    simpl. by rewrite Hk.
  - unfold lift, updateIPFSMetadata in H.
    apply bind_Some in H as (st' & H & [= <-]). run_inv H.
    by injection H as <-.
  - unfold updateContentAnalysis in H. run_inv H. by injection H as <-.
  - unfold lift, authorizeValidator in H.
    apply bind_Some in H as (st' & H & [= <-]). run_inv H.
    by injection H as <-.
  - unfold lift, deauthorizeValidator in H.
    apply bind_Some in H as (st' & H & [= <-]). run_inv H.
    by injection H as <-.
  - unfold addMaliciousPattern in H. run_inv H. by injection H as <-.
  - unfold addSuspiciousDomain in H. run_inv H. by injection H as <-.
  - unfold lift, pause in H.
    apply bind_Some in H as (st' & H & [= <-]). run_inv H.
    by injection H as <-.
  - unfold lift, unpause in H.
    apply bind_Some in H as (st' & H & [= <-]). run_inv H.
    by injection H as <-.
  - unfold lift, emergencyUpdateValidatorReputation in H.
    apply bind_Some in H as (st' & H & [= <-]). run_inv H.
    by injection H as <-.
  - unfold lift, emergencyUpdateEvidenceStatus in H.
    apply bind_Some in H as (st' & H & [= <-]). run_inv H.
    by injection H as <-.
Qed.

(** X25. One submission for each hash.  Once an IPFS hash has been
    submitted, every later submission of the same hash reverts,
    whoever sends it and whatever the transactions in between: no
    function forgets a hash. *)
Theorem ipfs_hash_is_submitted_once caller now hash evidenceType size mime
    url description s s1 s2 :
  exec keccak256
    (SubmitEvidence caller now hash evidenceType size mime url description) s
  = Some s1 →
  rtc (step keccak256) s1 s2 →
  ∀ caller' now' evidenceType' size' mime' url' description',
    exec keccak256
      (SubmitEvidence caller' now' hash evidenceType' size' mime' url'
         description') s2 = None.
Proof.
  intros H Hrtc caller' now' evidenceType' size' mime' url' description'.
  assert (rd (knownIPFSHashes (validation s2)) hash = true) as Hknown.
  { assert (rd (knownIPFSHashes (validation s1)) hash = true) as Hfirst.
    { cbn [exec] in H. unfold lift in H.
      apply bind_Some in H as (st' & H & [= <-]).
      apply submitEvidence_shape in H as (_ & _ & ->).
      simpl. by rewrite rd_insert_eq. }
    clear H. induction Hrtc as [|s1 s2 s3 Hstep _ IH]; [done|].
    apply IH. by eapply step_known. }
  apply eq_None_not_Some. intros [s3 H3]. cbn [exec] in H3.
  unfold lift in H3. apply bind_Some in H3 as (st' & H3 & _).
  apply submitEvidence_shape in H3 as (_ & Hnew & _). congruence.
Qed.

Lemma step_validated evidenceId v s s' :
  step keccak256 s s' →
  rd (validators (rd (evidence (validation s)) evidenceId)) v = true →
  rd (validators (rd (evidence (validation s')) evidenceId)) v = true.
Proof.
  intros [[caller now h evidenceType size mime url description
          |caller now id isValid reason level
          |caller id verified
          |caller id phishing malicious suspicious score patterns factors
          |caller validator initialReputation|caller validator
          |caller pattern isActive|caller domain isActive|caller|caller
          |caller validator newReputation|caller id newStatus] H]
    Hvalidated; cbn [exec] in H.
  - unfold lift in H. apply bind_Some in H as (st' & H & [= <-]).
    apply submitEvidence_shape in H as (_ & _ & ->). simpl.
    rewrite rd_insert. case_decide as Hid; [subst evidenceId|]; done.
  - unfold lift in H. apply bind_Some in H as (st' & H & [= <-]).
    apply validateEvidence_shape in H
      as (_ & _ & _ & _ & ev' & He & Hv & _).
    simpl. rewrite He, rd_insert. case_decide as Hid; [subst id|done].
    rewrite Hv, rd_insert. by case_decide.
  - unfold lift, updateIPFSMetadata in H.
    apply bind_Some in H as (st' & H & [= <-]). run_inv H.
    by injection H as <-.
  - unfold updateContentAnalysis in H. run_inv H. by injection H as <-.
  - unfold lift, authorizeValidator in H.
    apply bind_Some in H as (st' & H & [= <-]). run_inv H.
    by injection H as <-.
  - unfold lift, deauthorizeValidator in H.
    apply bind_Some in H as (st' & H & [= <-]). run_inv H.
    by injection H as <-.
  - unfold addMaliciousPattern in H. run_inv H. by injection H as <-.
  - unfold addSuspiciousDomain in H. run_inv H. by injection H as <-.
  - unfold lift, pause in H.
    apply bind_Some in H as (st' & H & [= <-]). run_inv H.
    by injection H as <-.
  - unfold lift, unpause in H.
    apply bind_Some in H as (st' & H & [= <-]). run_inv H.
    by injection H as <-.
  - unfold lift, emergencyUpdateValidatorReputation in H.
    apply bind_Some in H as (st' & H & [= <-]). run_inv H.
    by injection H as <-.
  - unfold lift, emergencyUpdateEvidenceStatus in H.
    apply bind_Some in H as (st' & H & [= <-]). run_inv H.
    injection H as <-. simpl. rewrite rd_insert.
    case_decide as Hid; [subst id|]; done.
Qed.

(** X26. One verdict for each validator.  Once a validator has given a
    verdict on an evidence item, every later verdict of this validator
    on this item reverts, whatever the transactions in between, also
    when the owner has put the item under review again. *)
Theorem one_verdict_per_validator caller now evidenceId isValid reason level
    s s1 s2 :
  exec keccak256
    (ValidateEvidence caller now evidenceId isValid reason level) s
  = Some s1 →
  rtc (step keccak256) s1 s2 →
  ∀ now' isValid' reason' level',
    exec keccak256
      (ValidateEvidence caller now' evidenceId isValid' reason' level') s2
    = None.
Proof.
  intros H Hrtc now' isValid' reason' level'.
  assert (rd (validators (rd (evidence (validation s2)) evidenceId)) caller
          = true) as Hvalidated.
  { assert (rd (validators (rd (evidence (validation s1)) evidenceId))
                caller = true) as Hfirst.
    { cbn [exec] in H. unfold lift in H.
      apply bind_Some in H as (st' & H & [= <-]).
      apply validateEvidence_shape in H
        as (_ & _ & _ & _ & ev' & He & Hv & _).
      simpl. by rewrite He, rd_insert_eq, Hv, rd_insert_eq. }
    clear H. induction Hrtc as [|s1 s2 s3 Hstep _ IH]; [done|].
    apply IH. by eapply step_validated. }
  apply eq_None_not_Some. intros [s3 H3]. cbn [exec] in H3.
  unfold lift in H3. apply bind_Some in H3 as (st' & H3 & _).
  apply validateEvidence_shape in H3 as (_ & _ & _ & Hnew & _). congruence.
Qed.

(** *** The list of the validators *)

(** The loop of [deauthorizeValidator] started behind [l1], where the
    validator does not occur: it leaves a list without the validator
    alone, and takes the first occurrence of the validator out of any
    other, moving the last entry into its place. *)
Lemma removeFromList_spec validator l2 :
  ∀ l1, validator ∉ l1 →
  (validator ∉ l2 →
   removeFromList validator (l1 ++ l2) (length l1) (length l2) = l1 ++ l2)
  ∧ (∀ a b, l2 = a ++ validator :: b → validator ∉ a →
     removeFromList validator (l1 ++ l2) (length l1) (length l2)
     ≡ₚ l1 ++ a ++ b).
Proof.
  induction l2 as [|x l2 IH]; intros l1 Hl1.
  - split; [done|]. intros a b H. by destruct a.
  - cbn [length removeFromList].
    rewrite (list_lookup_middle l1 l2 x (length l1) eq_refl).
    destruct (decide (x = validator)) as [->|Hx].
    + rewrite bool_decide_eq_true_2 by done. split.
      * intros Hin. exfalso. apply Hin. left.
      * intros a b Hsplit Ha. destruct a as [|y a].
        -- injection Hsplit as <-. simpl.
           destruct l2 as [|z l2 _] using rev_ind.
           ++ rewrite last_last.
              rewrite list_insert_id
                by (by apply list_lookup_middle).
              by rewrite removelast_last, app_nil_r.
           ++ replace (List.last (l1 ++ validator :: l2 ++ [z]) validator)
                with z
                by (change (l1 ++ validator :: l2 ++ [z])
                      with (l1 ++ (validator :: l2) ++ [z]);
                    by rewrite app_assoc, last_last).
              replace (length l1) with (length l1 + 0)%nat by lia.
              rewrite insert_app_r. simpl.
              change (l1 ++ z :: l2 ++ [z]) with (l1 ++ (z :: l2) ++ [z]).
              rewrite app_assoc, removelast_last.
              apply Permutation_app_head, Permutation_cons_append.
        -- injection Hsplit as -> _. exfalso. apply Ha. left.
    + rewrite bool_decide_eq_false_2 by congruence.
      assert (validator ∉ l1 ++ [x]) as Hl1'.
      { rewrite elem_of_app, list_elem_of_singleton. intros [?|?]; [done|].
        congruence. }
      destruct (IH (l1 ++ [x]) Hl1') as [IH1 IH2].
      rewrite length_app in IH1, IH2. simpl in IH1, IH2.
      rewrite Nat.add_1_r in IH1, IH2.
      rewrite <- (app_assoc l1 [x] l2) in IH1, IH2. simpl in IH1, IH2.
      split.
      * intros Hin. apply IH1. intros ?. apply Hin. by right.
      * intros a b Hsplit Ha. destruct a as [|y a].
        -- injection Hsplit as -> _. done.
        -- injection Hsplit as <- ->.
           rewrite (IH2 a b eq_refl).
           ++ by rewrite <- (app_assoc l1 [x] (a ++ b)).
           ++ intros ?. apply Ha. by right.
Qed.

Lemma removeFromList_elem validator l :
  NoDup l →
  NoDup (removeFromList validator l 0 (length l))
  ∧ ∀ x, x ∈ removeFromList validator l 0 (length l)
         ↔ x ∈ l ∧ x ≠ validator.
Proof.
  intros Hnodup.
  destruct (removeFromList_spec validator l [] ltac:(by intros ?%elem_of_nil))
    as [Hout Hin].
  simpl in Hout, Hin.
  destruct (decide (validator ∈ l)) as [Hv|Hv].
  - apply list_elem_of_split_l in Hv as (a & b & -> & Ha).
    specialize (Hin a b eq_refl Ha).
    apply NoDup_app in Hnodup as (Hna & Hab & Hnb).
    apply NoDup_cons in Hnb as [Hvb Hnb].
    split.
    + rewrite Hin. apply NoDup_app. split; [done|]. split; [|done].
      intros x Hx Hxb. apply (Hab x Hx). by right.
    + intros x. rewrite Hin, !elem_of_app, elem_of_cons.
      split.
      * intros [Hx|Hx]; (split; [tauto|]); intros ->; done.
      * intros [[?|[?|?]] ?]; tauto.
  - rewrite (Hout Hv). split; [done|]. intros x.
    split; [|tauto]. intros Hx. split; [done|]. by intros ->.
Qed.

(** *** The books of the validations *)

Lemma submitEvidence_consistent caller now hash evidenceType size mime url
    description st st' :
  consistent st →
  submitEvidence keccak256 caller now hash evidenceType size mime url
    description st = Some st' →
  consistent st'.
Proof.
  intros (Hsum & Hmirror & Hcount & Hlisted & Hnodup & Hauth) H.
  apply submitEvidence_shape in H as (_ & _ & ->).
  set (evidenceId := keccak256 caller hash evidenceType size now
                       (_evidenceCounter st + 1)).
  split; [|split; [|split; [|split; [|split]]]]; simpl.
  - intros j. rewrite rd_insert. case_decide; [done|apply Hsum].
  - intros j. rewrite !rd_insert.
    destruct (decide (evidenceId = j)) as [Hj|Hj]; simpl.
    + intros _. by rewrite decide_True.
    + intros Hexists. destruct (Hmirror j Hexists) as (Hknown & Hrest).
      split; [|done]. by case_decide.
  - rewrite length_app. simpl. lia.
  - intros j. rewrite elem_of_app, list_elem_of_singleton, rd_insert.
    case_decide; [done|]. intros [?|?]; [by apply Hlisted|congruence].
  - done.
  - done.
Qed.

Lemma validateEvidence_consistent caller now evidenceId isValid reason level
    st st' :
  consistent st →
  validateEvidence caller now evidenceId isValid reason level st = Some st' →
  consistent st'.
Proof.
  intros (Hsum & Hmirror & Hcount & Hlisted & Hnodup & Hauth) H.
  apply validateEvidence_shape in H
    as (_ & _ & Hexists & _ & ev' & He & _ & Hc & Hp & Hn & Hex & Hh & Hs
        & Hm & Hco & Hme & Ha & Hk & Hal & Hl & _).
  unfold consistent. rewrite He, Hco, Hme, Ha, Hk, Hal, Hl.
  split; [|split; [|split; [|split; [|split]]]]; try done.
  - intros j. simpl. rewrite rd_insert. case_decide; [subst j|apply Hsum].
    rewrite Hc, Hp, Hn. specialize (Hsum evidenceId). simpl in Hsum.
    destruct isValid; lia.
  - intros j. simpl. rewrite rd_insert. case_decide; [subst j|apply Hmirror].
    rewrite Hex, Hh, Hs, Hm. apply Hmirror.
  - intros j Hj. rewrite rd_insert. case_decide; [subst j|by apply Hlisted].
    by rewrite Hex.
Qed.

Lemma step_evidence_consistent s s' :
  consistent (validation s) → step keccak256 s s' →
  consistent (validation s').
Proof.
  intros Hc [[caller now h evidenceType size mime url description
             |caller now id isValid reason level
             |caller id verified
             |caller id phishing malicious suspicious score patterns factors
             |caller validator initialReputation|caller validator
             |caller pattern isActive|caller domain isActive|caller|caller
             |caller validator newReputation|caller id newStatus] H];
    cbn [exec] in H.
  - unfold lift in H. apply bind_Some in H as (st' & H & [= <-]).
    by eapply submitEvidence_consistent.
  - unfold lift in H. apply bind_Some in H as (st' & H & [= <-]).
    by eapply validateEvidence_consistent.
  - unfold lift, updateIPFSMetadata in H.
    apply bind_Some in H as (st' & H & [= <-]).
    apply bind_Some in H as (? & _ & H).
    apply bind_Some in H as (? & Hexists%require_Some & H).
    injection H as <-.
    destruct Hc as (Hsum & Hmirror & Hrest).
    split; [done|]. split; [|done]. intros j. simpl.
    rewrite rd_insert. case_decide; [subst j|apply Hmirror].
    simpl. apply Hmirror.
  - unfold updateContentAnalysis in H. run_inv H. by injection H as <-.
  - unfold lift, authorizeValidator in H.
    apply bind_Some in H as (st' & H & [= <-]).
    do 2 (apply bind_Some in H as (? & _ & H)).
    apply bind_Some in H as (? & Hnew%require_Some%negb_true_iff & H).
    injection H as <-.
    destruct Hc as (Hsum & Hmirror & Hcount & Hlisted & Hnodup & Hauth).
    do 4 (split; [done|]). simpl. split.
    + apply NoDup_app. split; [done|]. split; [|apply NoDup_singleton].
      intros v Hv ->%list_elem_of_singleton. apply Hauth in Hv. congruence.
    + intros v. rewrite elem_of_app, list_elem_of_singleton, rd_insert.
      case_decide; [subst v; split; auto|].
      rewrite Hauth. split; [intros [?|?]; [done|congruence]|auto].
  - unfold lift, deauthorizeValidator in H.
    apply bind_Some in H as (st' & H & [= <-]).
    do 2 (apply bind_Some in H as (? & _ & H)).
    injection H as <-.
    destruct Hc as (Hsum & Hmirror & Hcount & Hlisted & Hnodup & Hauth).
    do 4 (split; [done|]). simpl.
    destruct (removeFromList_elem validator _ Hnodup) as [Hnodup' Hin].
    split; [done|]. intros v. rewrite Hin, Hauth, rd_insert.
    case_decide; [subst v; split; [tauto|done]|].
    split; [tauto|]. intros ?. split; [done|congruence].
  - unfold addMaliciousPattern in H. run_inv H. by injection H as <-.
  - unfold addSuspiciousDomain in H. run_inv H. by injection H as <-.
  - unfold lift, pause in H.
    apply bind_Some in H as (st' & H & [= <-]). run_inv H.
    by injection H as <-.
  - unfold lift, unpause in H.
    apply bind_Some in H as (st' & H & [= <-]). run_inv H.
    by injection H as <-.
  - unfold lift, emergencyUpdateValidatorReputation in H.
    apply bind_Some in H as (st' & H & [= <-]). run_inv H.
    by injection H as <-.
  - unfold lift, emergencyUpdateEvidenceStatus in H.
    apply bind_Some in H as (st' & H & [= <-]).
    apply bind_Some in H as (? & _ & H).
    apply bind_Some in H as (? & Hexists%require_Some & H).
    injection H as <-.
    destruct Hc as (Hsum & Hmirror & Hcount & Hlisted & Hrest).
    split; [|split; [|split; [done|split; [|done]]]]; simpl.
    + intros j. rewrite rd_insert. case_decide; [subst j|apply Hsum].
      apply Hsum.
    + intros j. rewrite rd_insert. case_decide; [subst j|apply Hmirror].
      apply Hmirror.
    + intros j Hj. rewrite rd_insert. case_decide; [by subst j|].
      by apply Hlisted.
Qed.

Lemma reachable_evidence_consistent s :
  reachable keccak256 s → consistent (validation s).
Proof.
  intros [deployer Hrtc]. revert s Hrtc. apply rtc_ind_r.
  - split; [|split; [|split; [|split; [|split]]]]; simpl.
    + intros j. by rewrite rd_empty.
    + intros j. by rewrite rd_empty.
    + done.
    + by intros j ?%elem_of_nil.
    + apply NoDup_singleton.
    + intros v. rewrite list_elem_of_singleton, rd_insert.
      case_decide; [done|]. rewrite rd_empty. split; [congruence|done].
  - intros s1 s2 _ Hstep IH. by eapply step_evidence_consistent.
Qed.

Lemma evidence_run_rtc calls s s' :
  run keccak256 calls s = Some s' → rtc (step keccak256) s s'.
Proof.
  unfold run. revert s. induction calls as [|c calls IH]; intros s H.
  - injection H as <-. apply rtc_refl.
  - simpl in H. apply bind_Some in H as (s1 & H1 & H).
    eapply rtc_l; [by exists c|by apply IH].
Qed.

(** X27. The verdicts add up.  In every reachable state the number of
    validations of an evidence item that [getEvidence] returns is the
    sum of its positive and its negative validations. *)
Theorem verdicts_add_up s evidenceId ev :
  reachable keccak256 s →
  getEvidence evidenceId s = Some ev →
  validationCount ev = positiveValidations ev + negativeValidations ev.
Proof.
  intros (Hsum & _)%reachable_evidence_consistent H.
  unfold getEvidence in H. apply bind_Some in H as (? & _ & [= <-]).
  apply Hsum.
Qed.

(** X28. The list of the validators.  In every reachable state
    [getValidatorList] holds exactly the addresses for which
    [isAuthorizedValidator] is true, each once: [deauthorizeValidator]
    takes the validator out of the list, by moving the last entry into
    its place, and nothing else. *)
Theorem validator_list_is_exact s :
  reachable keccak256 s →
  NoDup (getValidatorList s)
  ∧ ∀ validator,
      validator ∈ getValidatorList s
      ↔ isAuthorizedValidator validator s = true.
Proof.
  intros (_ & _ & _ & _ & Hnodup & Hauth)%reachable_evidence_consistent.
  done.
Qed.

(** X29. The records of an evidence item.  In every reachable state, for
    an evidence item that [getEvidence] returns, [getIPFSMetadata]
    returns a record with the hash, the size and the type of the item,
    and the hash is known; [getEvidenceCount] is the number of the
    submissions, and every identifier that [getEvidenceIdByIndex]
    returns is one of an item that exists. *)
Theorem evidence_records_agree s :
  reachable keccak256 s →
  (∀ evidenceId ev,
     getEvidence evidenceId s = Some ev →
     rd (knownIPFSHashes (validation s)) (ipfsHash ev) = true
     ∧ ∃ metadata,
         getIPFSMetadata evidenceId s = Some metadata
         ∧ ipfs_hash metadata = ipfsHash ev
         ∧ ipfs_size metadata = fileSize ev
         ∧ ipfs_mimeType metadata = mimeType ev)
  ∧ getEvidenceCount s = _evidenceCounter (validation s)
  ∧ ∀ index evidenceId,
      getEvidenceIdByIndex index s = Some evidenceId →
      ∃ ev, getEvidence evidenceId s = Some ev.
Proof.
  intros (_ & Hmirror & Hcount & Hlisted & _)%reachable_evidence_consistent.
  split; [|split; [done|]].
  - intros evidenceId ev H. unfold getEvidence in H.
    apply bind_Some in H as (? & Hexists%require_Some & [= <-]).
    destruct (Hmirror evidenceId Hexists) as (Hknown & Hrest).
    split; [done|]. unfold getIPFSMetadata. rewrite Hexists. simpl. eauto.
  - intros index evidenceId H. unfold getEvidenceIdByIndex in H.
    apply bind_Some in H as (? & _ & H).
    apply list_elem_of_lookup_2 in H. apply Hlisted in H.
    unfold getEvidence. rewrite H. simpl. eauto.
Qed.

End EvidenceBooks.

Section EvidenceWitnesses.
Import EvidenceValidator EvidenceAdmin EvidenceScenarios AdminScenarios.

Lemma submitted_reachable : reachable counterHash submitted.
Proof.
  exists deployer. apply (evidence_run_rtc counterHash submission).
  by vm_compute.
Qed.

Lemma administered_reachable : reachable counterHash administered.
Proof.
  exists deployer.
  apply (evidence_run_rtc counterHash
           (submission
            ++ [ValidateEvidence 2 30 1 true "phishing" Basic]
            ++ administration)).
  by vm_compute.
Qed.

(** The account 5 cannot submit the hash of the item 1 again. *)
Lemma ipfs_hash_is_submitted_once_witness :
  exec counterHash
    (SubmitEvidence 5 40 hash1 Document 2048 "application/pdf" EmptyString
       "the same file") administered = None.
Proof.
  apply (ipfs_hash_is_submitted_once counterHash 1 20 hash1 Screenshot 1024
           "image/png" "https://phish.example" "screenshot of the page"
           (the (run counterHash
                   [AuthorizeValidator deployer 2 50;
                    AuthorizeValidator deployer 3 50;
                    AuthorizeValidator deployer 4 50] start))
           submitted administered).
  - by vm_compute.
  - apply (evidence_run_rtc counterHash
             ([ValidateEvidence 2 30 1 true "phishing" Basic]
              ++ administration)).
    by vm_compute.
Defined.

(** The validator 2 has given its verdict on the item 1; the validator 3
    gives one, and the validator 2 cannot give another. *)
Lemma one_verdict_per_validator_witness :
  exec counterHash (ValidateEvidence 2 32 1 false "on second thought" Expert)
    (the (exec counterHash
            (ValidateEvidence 3 31 1 false "no login form" Standard)
            oneVerdict)) = None.
Proof.
  apply (one_verdict_per_validator counterHash 2 30 1 true "phishing" Basic
           submitted oneVerdict
           (the (exec counterHash
                   (ValidateEvidence 3 31 1 false "no login form" Standard)
                   oneVerdict))).
  - by vm_compute.
  - apply rtc_once.
    exists (ValidateEvidence 3 31 1 false "no login form" Standard).
    by vm_compute.
Defined.

Lemma verdicts_add_up_witness :
  validationCount (rd (evidence (validation administered)) 1) = 1 + 0.
Proof.
  apply (verdicts_add_up counterHash administered 1
           (rd (evidence (validation administered)) 1)).
  - apply administered_reachable.
  - by vm_compute.
Defined.

(** The validators 100, 2, 3 and 4 less the validator 2: the last entry
    has taken its place. *)
Lemma validator_list_is_exact_witness :
  getValidatorList administered = [100; 4; 3]
  ∧ isAuthorizedValidator 4 administered = true
  ∧ 2 ∉ getValidatorList administered.
Proof.
  destruct (validator_list_is_exact counterHash administered
              administered_reachable) as [_ Hexact].
  split; [by vm_compute|]. split.
  - apply Hexact. vm_compute. apply list_elem_of_further, list_elem_of_here.
  - rewrite Hexact. by vm_compute.
Defined.

Lemma evidence_records_agree_witness :
  getEvidenceCount administered = 1
  ∧ ∃ metadata,
      getIPFSMetadata 1 administered = Some metadata
      ∧ ipfs_hash metadata = hash1.
Proof.
  destruct (evidence_records_agree counterHash administered
              administered_reachable) as (Hmirror & Hcount & _).
  split; [rewrite Hcount; by vm_compute|].
  destruct (Hmirror 1 (rd (evidence (validation administered)) 1))
    as (_ & metadata & Hget & Hhash & _); [by vm_compute|].
  exists metadata. split; [done|]. rewrite Hhash. by vm_compute.
Defined.

End EvidenceWitnesses.
